(** * tuitestkit: the golden-snapshot engine (snapshot.go)

    A shallow embedding of the snapshot engine of package [tuitestkit]:
    path resolution ([snapshotPath]), the update/compare state machine
    ([snapshot] and its four public entry points), process start-up
    ([init]) and the line diff ([unifiedDiff], [lcsTable]).

    Go strings are byte strings and are modelled by [string]; [int] values
    that are lengths or indices are [nat] (every table cell is bounded by a
    line count, see [lcsTable_bound], so no machine overflow can occur). *)

From Stdlib Require Import Ascii String DecimalString DecimalNat.
From stdpp Require Import gmap strings list fin_maps.

Local Open Scope nat_scope.

(** ** Package [strings] and [fmt]: the pieces the engine calls *)

Definition nl : ascii := "010"%char.
Definition slash : ascii := "/"%char.
Definition space : ascii := " "%char.

(** [strings.Split(s, sep)] for a one-byte separator: the segments between
    occurrences of [sep]; an empty input gives one empty segment and a
    trailing separator gives a trailing empty segment. *)
Fixpoint strings_Split (s : string) (sep : ascii) : list string :=
  match s with
  | EmptyString => [EmptyString]
  | String c s' =>
      if Ascii.eqb c sep then EmptyString :: strings_Split s' sep
      else match strings_Split s' sep with
           | [] => [String c EmptyString]
           | h :: t => String c h :: t
           end
  end.

(** [strings.Join(elems, sep)] for a one-byte separator. *)
Fixpoint strings_Join (elems : list string) (sep : ascii) : string :=
  match elems with
  | [] => EmptyString
  | [x] => x
  | x :: rest => x +:+ String sep (strings_Join rest sep)
  end.

(** [strings.Contains(s, substr)]. *)
Fixpoint strings_HasPrefix (s p : string) : bool :=
  match p, s with
  | EmptyString, _ => true
  | String a p', String b s' => Ascii.eqb a b && strings_HasPrefix s' p'
  | String _ _, EmptyString => false
  end.

Fixpoint strings_Contains (s sub : string) : bool :=
  strings_HasPrefix s sub ||
  match s with
  | EmptyString => false
  | String _ s' => strings_Contains s' sub
  end.

(** The decimal digits of a non-negative [int], as [%d] prints them. *)
Definition itoa (n : nat) : string := NilEmpty.string_of_uint (Nat.to_uint n).

Fixpoint spaces (k : nat) : string :=
  match k with
  | 0 => EmptyString
  | S k' => String space (spaces k')
  end.

(** The verb [%4d]: right-justified in a field of width 4, wider numbers
    are printed in full. *)
Definition fmt_4d (n : nat) : string :=
  let d := itoa n in spaces (4 - String.length d) +:+ d.

(** [fmt.Sprintf(mark + "%4d  %s", n, text)] for a one-byte [mark]. *)
Definition Sprintf_line (mark : ascii) (n : nat) (text : string) : string :=
  String mark (fmt_4d n +:+ String space (String space text)).

(** ** The diff generator *)

Definition cell (table : list (list nat)) (i j : nat) : nat :=
  nth j (nth i table []) 0.

Definition set_cell (table : list (list nat)) (i j v : nat) : list (list nat) :=
  <[i := <[j := v]> (nth i table [])]> table.

(** Slice indexing [a[i]]; every index the engine uses is in range
    (see [diff_body] and [lcs_body]). *)
Definition at_ (a : list string) (i : nat) : string := nth i a EmptyString.

(** The body of the inner loop of [lcsTable]. *)
Definition lcs_body (a b : list string) (table : list (list nat)) (i j : nat)
  : list (list nat) :=
  if String.eqb (at_ a (i - 1)) (at_ b (j - 1)) then
    set_cell table i j (cell table (i - 1) (j - 1) + 1)
  else if cell table i (j - 1) <=? cell table (i - 1) j then
    set_cell table i j (cell table (i - 1) j)
  else
    set_cell table i j (cell table i (j - 1)).

(** [lcsTable]: a zero table of (m+1) rows of (n+1) cells, then rows 1..m
    and, in each, columns 1..n are filled in order. *)
Definition lcsTable (a b : list string) : list (list nat) :=
  let m := length a in
  let n := length b in
  let table := replicate (m + 1) (replicate (n + 1) 0) in
  foldl (fun table i => foldl (fun table j => lcs_body a b table i j) table (seq 1 n))
        table (seq 1 m).

(** The state of the backtracking loop of [unifiedDiff]. *)
Record diff_state := DiffState {
  ds_i : nat;
  ds_j : nat;
  ds_lines : list string;
}.

Definition diff_cond (st : diff_state) : bool :=
  (0 <? ds_i st) || (0 <? ds_j st).

(** One iteration of [for i > 0 || j > 0 { ... }]. *)
Definition diff_body (expLines actLines : list string) (lcs : list (list nat))
    (st : diff_state) : diff_state :=
  let i := ds_i st in
  let j := ds_j st in
  let lines := ds_lines st in
  if (0 <? i) && (0 <? j) && String.eqb (at_ expLines (i - 1)) (at_ actLines (j - 1)) then
    DiffState (i - 1) (j - 1) (lines ++ [Sprintf_line space i (at_ expLines (i - 1))])
  else if (0 <? j) && ((i =? 0) || (cell lcs (i - 1) j <=? cell lcs i (j - 1))) then
    DiffState i (j - 1) (lines ++ [Sprintf_line "+" j (at_ actLines (j - 1))])
  else
    DiffState (i - 1) j (lines ++ [Sprintf_line "-" i (at_ expLines (i - 1))]).

(** The loop, unrolled at most [fuel] times; [diff_loop_done] shows that
    the fuel [unifiedDiff] gives it is enough. *)
Fixpoint diff_loop (expLines actLines : list string) (lcs : list (list nat))
    (fuel : nat) (st : diff_state) : diff_state :=
  match fuel with
  | 0 => st
  | S fuel' =>
      if diff_cond st
      then diff_loop expLines actLines lcs fuel' (diff_body expLines actLines lcs st)
      else st
  end.

Definition diff_header : string :=
  "--- expected" +:+ String nl ("+++ actual" +:+ String nl EmptyString).

(** The final loop writes [lines[k]] and a newline for k from the last
    index down to 0. *)
Definition write_reversed (lines : list string) : string :=
  foldr (fun l acc => l +:+ String nl acc) EmptyString (rev lines).

Definition diff_lines (expLines actLines : list string) : list string :=
  let lcs := lcsTable expLines actLines in
  ds_lines (diff_loop expLines actLines lcs (length expLines + length actLines)
              (DiffState (length expLines) (length actLines) [])).

Definition unifiedDiff (expected actual : string) : string :=
  let expLines := strings_Split expected nl in
  let actLines := strings_Split actual nl in
  diff_header +:+ write_reversed (diff_lines expLines actLines).

(** The LCS recurrence the table is meant to hold: the length of a longest
    common subsequence of the first [i] lines of [a] and the first [j]
    lines of [b]. *)
Fixpoint lcs_len (a b : list string) (i j : nat) {struct i} : nat :=
  match i with
  | 0 => 0
  | S i' =>
      (fix inner (j : nat) : nat :=
         match j with
         | 0 => 0
         | S j' =>
             if String.eqb (at_ a i') (at_ b j') then lcs_len a b i' j' + 1
             else Nat.max (lcs_len a b i' (S j')) (inner j')
         end) j
  end.

(** ** Package [path/filepath] on Unix

    [Clean], [Join] and [Dir] belong to the Go standard library; they are
    modelled here from their documented behaviour: [Clean] drops empty and
    [.] elements, lets an inner [..] cancel the element before it, drops a
    [..] that would climb above the root, and returns [.] for an empty
    result. *)

Definition is_rooted (p : string) : bool :=
  match p with
  | String c _ => Ascii.eqb c slash
  | EmptyString => false
  end.

(** [out] holds the elements kept so far, the last one first. *)
Definition clean_step (rooted : bool) (out : list string) (c : string)
  : list string :=
  if String.eqb c "" || String.eqb c "." then out
  else if String.eqb c ".." then
    match out with
    | top :: rest => if String.eqb top ".." then c :: out else rest
    | [] => if rooted then [] else [c]
    end
  else c :: out.

Definition filepath_Clean (p : string) : string :=
  let rooted := is_rooted p in
  let out := fold_left (clean_step rooted) (strings_Split p slash) [] in
  let body := strings_Join (rev out) slash in
  if rooted then String slash body
  else if String.eqb body "" then "." else body.

(** [Join] skips leading empty elements, joins the rest with the separator
    and cleans the result; with nothing to join it returns the empty
    string. *)
Fixpoint filepath_Join (elem : list string) : string :=
  match elem with
  | [] => ""
  | e :: rest =>
      if String.eqb e "" then filepath_Join rest
      else filepath_Clean (strings_Join elem slash)
  end.

(** [Dir] cleans [path[:i+1]], [i] being the index of the last separator:
    every segment but the last, each followed by a separator. *)
Definition filepath_Dir (p : string) : string :=
  filepath_Clean (strings_Join (removelast (strings_Split p slash) ++ [""]) slash).

Example Clean_examples :
  filepath_Clean "" = "." /\ filepath_Clean "/" = "/" /\
  filepath_Clean "/../a//b/./c/.." = "/a/b" /\
  filepath_Clean "a/../../b/" = "../b" /\ filepath_Clean "a/.." = ".".
Proof. by repeat split. Qed.

Example Join_Dir_examples :
  filepath_Join ["/tmp/test-snapshots"; "my-view.golden"]
    = "/tmp/test-snapshots/my-view.golden" /\
  filepath_Join [""; "x"; ""; "y"] = "x/y" /\ filepath_Join [""; ""] = "" /\
  filepath_Dir "/tmp/test-snapshots/my-view.golden" = "/tmp/test-snapshots" /\
  filepath_Dir "x.golden" = "." /\ filepath_Dir "/x" = "/" /\
  filepath_Dir "a/b/" = "a/b".
Proof. by repeat split. Qed.

(** ** The operating system, as far as the engine uses it

    [os.MkdirAll], [os.WriteFile], [os.ReadFile] and [os.IsNotExist] belong
    to the Go standard library; they are modelled over a file tree of
    directories and regular files.  A call fails when a name on the way is
    missing (ENOENT) or is a file (ENOTDIR), or when a directory stands
    where a file is wanted (EISDIR).  These are the failures the shape of
    the tree decides; the failures it does not decide (permissions, a full
    disk, a name too long for the file system, a NUL byte in the path) are
    left out, so in the model every other call succeeds.  The statements
    about the engine are therefore made for a given result of the calls,
    for one of these three failures, or for a call made again after it
    has succeeded. *)

(** What a name in the file tree holds.  The root directory always exists
    and is not stored. *)
Inductive node :=
  | File (content : string)
  | Directory.

Inductive errno := ENOENT | ENOTDIR | EISDIR.

Global Instance errno_eq_dec : EqDecision errno.
Proof. solve_decision. Defined.

Inductive result (A : Type) :=
  | Ok (a : A)
  | Err (e : errno).
Arguments Ok {A} a.
Arguments Err {A} e.

(** The file tree: each existing name, as the list of its path elements
    from the root, with what it holds. *)
Abbreviation filesystem := (gmap (list string) node).

Definition fs_node (fs : filesystem) (k : list string) : option node :=
  match k with
  | [] => Some Directory
  | _ => fs !! k
  end.

(** How the kernel walks a path: empty and [.] elements stay, [..] goes to
    the parent (the root is its own parent), a name goes down.  [k] is the
    position reached, the last element first.  The paths the engine passes
    are cleaned, so [..] only ever leads a relative path. *)
Definition walk_step (k : list string) (c : string) : list string :=
  if String.eqb c "" || String.eqb c "." then k
  else if String.eqb c ".." then tail k
  else c :: k.

Definition resolve (cwd : list string) (p : string) : list string :=
  rev (fold_left walk_step (strings_Split p slash)
         (if is_rooted p then [] else rev cwd)).

(** The directories above [k], from the root down. *)
Definition ancestors (k : list string) : list (list string) :=
  map (fun n => take n k) (seq 0 (length k)).

(** [k] and the directories above it except the root, from the top down. *)
Definition chain (k : list string) : list (list string) :=
  map (fun n => take n k) (seq 1 (length k)).

(** The walk down to a name fails at the first ancestor that is missing or
    is not a directory. *)
Fixpoint dirs_ok (fs : filesystem) (ds : list (list string)) : option errno :=
  match ds with
  | [] => None
  | d :: ds' =>
      match fs_node fs d with
      | Some Directory => dirs_ok fs ds'
      | Some (File _) => Some ENOTDIR
      | None => Some ENOENT
      end
  end.

Definition fs_read (fs : filesystem) (k : list string) : result string :=
  match dirs_ok fs (ancestors k) with
  | Some e => Err e
  | None =>
      match fs_node fs k with
      | Some (File c) => Ok c
      | Some Directory => Err EISDIR
      | None => Err ENOENT
      end
  end.

(** Create or truncate, then write everything. *)
Definition fs_write (fs : filesystem) (k : list string) (content : string)
  : result filesystem :=
  match dirs_ok fs (ancestors k) with
  | Some e => Err e
  | None =>
      match fs_node fs k with
      | Some Directory => Err EISDIR
      | _ => Ok (<[k := File content]> fs)
      end
  end.

(** [MkdirAll]: every missing directory of the chain is created, an
    existing directory is kept, a file in the way is an error. *)
Fixpoint fs_mkdir_chain (fs : filesystem) (ds : list (list string))
  : result filesystem :=
  match ds with
  | [] => Ok fs
  | d :: ds' =>
      match fs_node fs d with
      | Some Directory => fs_mkdir_chain fs ds'
      | Some (File _) => Err ENOTDIR
      | None => fs_mkdir_chain (<[d := Directory]> fs) ds'
      end
  end.

Definition fs_mkdir_all (fs : filesystem) (k : list string) : result filesystem :=
  fs_mkdir_chain fs (chain k).

(** An [*fs.PathError] and its [Error()] text. *)
Record PathError := mkPathError {
  pe_op : string;
  pe_path : string;
  pe_errno : errno;
}.

Definition errno_text (e : errno) : string :=
  match e with
  | ENOENT => "no such file or directory"
  | ENOTDIR => "not a directory"
  | EISDIR => "is a directory"
  end.

Definition Error (err : PathError) : string :=
  pe_op err +:+ " " +:+ pe_path err +:+ ": " +:+ errno_text (pe_errno err).

Definition os_IsNotExist (err : PathError) : bool :=
  bool_decide (pe_errno err = ENOENT).

(** ** The process: globals, call stack, test log *)

(** A call a test handle received. *)
Inductive report :=
  | Errorf (msg : string)
  | Fatalf (msg : string).

(** A test handle [t] is known by its test's name. *)
Definition testing_T := string.

Record world := World {
  w_fs : filesystem;
  w_cwd : list string;
  w_environ : gmap string string;
  UpdateSnapshots : bool;
  snapshotBaseDir : string;
  (** the source file of each active call, the innermost call first *)
  w_frames : list string;
  (** the calls the test handles received, the oldest first *)
  w_reports : list (testing_T * report);
}.

Definition set_fs (fs : filesystem) (w : world) : world :=
  World fs (w_cwd w) (w_environ w) (UpdateSnapshots w) (snapshotBaseDir w)
        (w_frames w) (w_reports w).

Definition set_UpdateSnapshots (b : bool) (w : world) : world :=
  World (w_fs w) (w_cwd w) (w_environ w) b (snapshotBaseDir w)
        (w_frames w) (w_reports w).

Definition set_snapshotBaseDir (d : string) (w : world) : world :=
  World (w_fs w) (w_cwd w) (w_environ w) (UpdateSnapshots w) d
        (w_frames w) (w_reports w).

Definition set_frames (fr : list string) (w : world) : world :=
  World (w_fs w) (w_cwd w) (w_environ w) (UpdateSnapshots w) (snapshotBaseDir w)
        fr (w_reports w).

Definition add_report (t : testing_T) (r : report) (w : world) : world :=
  World (w_fs w) (w_cwd w) (w_environ w) (UpdateSnapshots w) (snapshotBaseDir w)
        (w_frames w) (w_reports w ++ [(t, r)]).

(** How a call ends: it returns, or [t.Fatalf] stopped the test
    ([FailNow]), or it panicked. *)
Inductive outcome (A : Type) :=
  | Returned (a : A)
  | FailNow
  | Panicked (msg : string).
Arguments Returned {A} a.
Arguments FailNow {A}.
Arguments Panicked {A} msg.

Definition M (A : Type) : Type := world -> outcome A * world.

Global Instance M_ret : MRet M := fun A a w => (Returned a, w).

Global Instance M_bind : MBind M := fun A B f m w =>
  match m w with
  | (Returned a, w') => f a w'
  | (FailNow, w') => (FailNow, w')
  | (Panicked msg, w') => (Panicked msg, w')
  end.

Definition panic {A} (msg : string) : M A := fun w => (Panicked msg, w).

(** Reading a global, and assigning to [UpdateSnapshots]. *)
Definition get {A} (f : world -> A) : M A := fun w => (Returned (f w), w).

Definition assign_UpdateSnapshots (b : bool) : M unit := fun w =>
  (Returned (), set_UpdateSnapshots b w).

(** A call of a function whose source file is [file]: its frame is on the
    stack while the body runs. *)
Definition call {A} (file : string) (body : M A) : M A := fun w =>
  let fr := w_frames w in
  match body (set_frames (file :: fr) w) with
  | (r, w') => (r, set_frames fr w')
  end.

(** [runtime.Caller(skip)]: the file of the frame [skip] levels above the
    function that asks, and whether there is one. *)
Definition runtime_Caller (skip : nat) : M (option string) :=
  get (fun w => w_frames w !! skip).

Definition os_Getenv (key : string) : M string :=
  get (fun w => default "" (w_environ w !! key)).

(** The error of [MkdirAll] is a [*PathError] with the operation [mkdir]
    and the errno; the path it names is here the argument, where the real
    call names the ancestor at which it stopped.  The theorems about the
    engine leave that path open. *)
Definition os_MkdirAll (path : string) : M (option PathError) := fun w =>
  match fs_mkdir_all (w_fs w) (resolve (w_cwd w) path) with
  | Ok fs' => (Returned None, set_fs fs' w)
  | Err e => (Returned (Some (mkPathError "mkdir" path e)), w)
  end.

Definition os_WriteFile (path content : string) : M (option PathError) := fun w =>
  match fs_write (w_fs w) (resolve (w_cwd w) path) content with
  | Ok fs' => (Returned None, set_fs fs' w)
  | Err e => (Returned (Some (mkPathError "open" path e)), w)
  end.

(** [os.ReadFile] opens the name and then reads from it.  A missing name
    and a file on the way fail the open; a directory is opened without
    error and fails the read. *)
Definition read_op (e : errno) : string :=
  match e with
  | EISDIR => "read"
  | ENOENT | ENOTDIR => "open"
  end.

Definition os_ReadFile (path : string) : M (string * option PathError) := fun w =>
  match fs_read (w_fs w) (resolve (w_cwd w) path) with
  | Ok c => (Returned (c, None), w)
  | Err e => (Returned ("", Some (mkPathError (read_op e) path e)), w)
  end.

(** The methods of [snapshotT], for a [*testing.T]: [Helper] does nothing
    the engine can see, [Errorf] records a failure and returns, [Fatalf]
    records one and stops the test, so nothing after it runs. *)
Definition t_Helper (t : testing_T) : M unit := mret ().

Definition t_Errorf (t : testing_T) (msg : string) : M unit := fun w =>
  (Returned (), add_report t (Errorf msg) w).

Definition t_Fatalf (t : testing_T) (msg : string) : M unit := fun w =>
  (FailNow, add_report t (Fatalf msg) w).

(** ** Failure messages *)

Definition dquote : ascii := "034"%char.
Definition backslash : ascii := "\"%char.

Definition hex_digit (n : nat) : ascii :=
  nth n ["0"; "1"; "2"; "3"; "4"; "5"; "6"; "7"; "8"; "9";
         "a"; "b"; "c"; "d"; "e"; "f"]%char "0"%char.

(** One byte inside [strconv.Quote]: the quote and the backslash are
    escaped, control bytes are written as escapes, every other byte is
    kept.  This is [Quote] on ASCII text and on the UTF-8 encoding of
    printable characters.  [Quote] also escapes bytes that are not valid
    UTF-8 and characters that are not printable; that part needs the
    Unicode tables and is not modelled, so for such text the quoted name
    in a message differs.  The statements below state a message with
    [strconv_Quote] of the name, or evaluate it on an ASCII name. *)
Definition quote_byte (c : ascii) : string :=
  let n := nat_of_ascii c in
  if Ascii.eqb c dquote then String backslash (String dquote "")
  else if Ascii.eqb c backslash then String backslash (String backslash "")
  else if n =? 7 then "\a"
  else if n =? 8 then "\b"
  else if n =? 12 then "\f"
  else if n =? 10 then "\n"
  else if n =? 13 then "\r"
  else if n =? 9 then "\t"
  else if n =? 11 then "\v"
  else if (n <? 32) || (n =? 127) then
    String backslash (String "x" (String (hex_digit (n / 16))
                                   (String (hex_digit (n mod 16)) "")))
  else String c "".

Fixpoint quote_bytes (s : string) : string :=
  match s with
  | EmptyString => EmptyString
  | String c s' => quote_byte c +:+ quote_bytes s'
  end.

(** The verb [%q]. *)
Definition strconv_Quote (s : string) : string :=
  String dquote (quote_bytes s +:+ String dquote "").

(** The formatted text of each failure the engine reports, as
    [fmt.Sprintf] builds it from the format and the arguments. *)
Definition msg_cannot_create (dir : string) (err : PathError) : string :=
  "snapshot: cannot create directory " +:+ dir +:+ ": " +:+ Error err.

Definition msg_cannot_write (path : string) (err : PathError) : string :=
  "snapshot: cannot write golden file " +:+ path +:+ ": " +:+ Error err.

Definition msg_not_found (name path : string) : string :=
  "snapshot " +:+ strconv_Quote name +:+ ": golden file not found at " +:+ path
  +:+ String nl "Run with UPDATE_SNAPSHOTS=1 to create it.".

Definition msg_cannot_read (name : string) (err : PathError) : string :=
  "snapshot " +:+ strconv_Quote name +:+ ": cannot read golden file: " +:+ Error err.

Definition msg_mismatch (name diff : string) : string :=
  "snapshot " +:+ strconv_Quote name +:+ " mismatch:" +:+ String nl diff.

(** ** The engine *)

(** What the engine takes from outside its own source: the file name the
    compiler recorded for [snapshot.go] (what [runtime.Caller] reports for
    the engine's own frames) and [ansi.Strip] of the charmbracelet library. *)
Class Externals := {
  snapshot_go : string;
  ansi_Strip : string -> string;
}.

(** [tea.Model], as far as the engine uses it. *)
Class tea_Model (Mo : Type) := View : Mo -> string.

Section Engine.
Context `{Externals}.

(** [StripANSI] in view.go. *)
Definition StripANSI (s : string) : string := ansi_Strip s.

(** The package's [init] function. *)
Definition init : M unit :=
  v ← os_Getenv "UPDATE_SNAPSHOTS";
  if String.eqb v "1"
  then assign_UpdateSnapshots true
  else mret ().

Definition snapshotPath (name : string) (callerSkip : nat) : M string :=
  call snapshot_go (
    base ← get snapshotBaseDir;
    base ← (if String.eqb base "" then
              caller ← runtime_Caller callerSkip;
              match caller with
              | None =>
                  panic "tuitestkit: cannot determine caller file for snapshot path"
              | Some file =>
                  mret (filepath_Join [filepath_Dir file; "testdata"; "snapshots"])
              end
            else mret base);
    mret (filepath_Join [base; name +:+ ".golden"])).

Definition snapshot (t : testing_T) (content name : string) (callerSkip : nat)
  : M unit :=
  call snapshot_go (
    t_Helper t;;
    path ← snapshotPath name callerSkip;
    update ← get UpdateSnapshots;
    if update : bool then
      let dir := filepath_Dir path in
      err ← os_MkdirAll dir;
      match err with
      | Some err => t_Fatalf t (msg_cannot_create dir err)
      | None => mret ()
      end;;
      err ← os_WriteFile path content;
      match err with
      | Some err => t_Fatalf t (msg_cannot_write path err)
      | None => mret ()
      end;;
      mret ()
    else
      '(expected, err) ← os_ReadFile path;
      match err with
      | Some err =>
          (if os_IsNotExist err
           then t_Fatalf t (msg_not_found name path)
           else mret ());;
          t_Fatalf t (msg_cannot_read name err)
      | None => mret ()
      end;;
      let expectedStr := expected in
      if String.eqb expectedStr content then mret ()
      else
        let diff := unifiedDiff expectedStr content in
        t_Errorf t (msg_mismatch name diff)).

Definition SnapshotView `{tea_Model Mo} (t : testing_T) (model : Mo)
    (name : string) : M unit :=
  call snapshot_go (
    t_Helper t;;
    let view := StripANSI (View model) in
    snapshot t view name 3).

Definition SnapshotViewRaw `{tea_Model Mo} (t : testing_T) (model : Mo)
    (name : string) : M unit :=
  call snapshot_go (
    t_Helper t;;
    snapshot t (View model) name 3).

Definition SnapshotStr (t : testing_T) (view name : string) : M unit :=
  call snapshot_go (
    t_Helper t;;
    snapshot t (StripANSI view) name 3).

Definition SnapshotStrRaw (t : testing_T) (view name : string) : M unit :=
  call snapshot_go (
    t_Helper t;;
    snapshot t view name 3).
End Engine.

(** A process whose globals still hold their zero values. *)
Definition fresh_process (fs : filesystem) (cwd : list string)
    (environ : gmap string string) (frames : list string) : world :=
  World fs cwd environ false "" frames [].

(** Instances to run the engine on examples: a stripper of CSI sequences
    (ESC, an opening bracket, parameter bytes, one final letter) stands in
    for [ansi.Strip]. *)
Fixpoint strip_csi_from (in_seq : bool) (s : string) : string :=
  match s with
  | EmptyString => EmptyString
  | String c s' =>
      if in_seq then
        strip_csi_from (negb ((64 <=? nat_of_ascii c) && negb (Ascii.eqb c "["))) s'
      else if Ascii.eqb c "027" then strip_csi_from true s'
      else String c (strip_csi_from false s')
  end.

Definition example_externals : Externals :=
  {| snapshot_go := "/src/tuitestkit/snapshot.go";
     ansi_Strip := strip_csi_from false |}.

Record stubModel := { view : string }.
Global Instance stubModel_Model : tea_Model stubModel := view.

(** ** Facts about the table *)

Section Table.
Variables a b : list string.

Lemma lcs_len_0_r i : lcs_len a b i 0 = 0.
Proof. by destruct i. Qed.

Lemma lcs_len_S i j :
  lcs_len a b (S i) (S j) =
  if String.eqb (at_ a i) (at_ b j) then lcs_len a b i j + 1
  else Nat.max (lcs_len a b i (S j)) (lcs_len a b (S i) j).
Proof. reflexivity. Qed.

Lemma lcs_len_bound i j : lcs_len a b i j <= Nat.min i j.
Proof.
  revert j. induction i as [|i IHi]; intros j; [simpl; lia|].
  induction j as [|j IHj]; [rewrite lcs_len_0_r; lia|].
  rewrite lcs_len_S. destruct (String.eqb _ _).
  - specialize (IHi j). lia.
  - specialize (IHi (S j)). lia.
Qed.

Definition table_dims (m n : nat) (t : list (list nat)) : Prop :=
  length t = m + 1 /\ Forall (fun row => length row = n + 1) t.

Lemma table_dims_row m n t i :
  table_dims m n t -> i <= m -> length (nth i t []) = n + 1.
Proof.
  intros [Hl Hr] Hi. rewrite Forall_forall in Hr. apply Hr.
  apply list_elem_of_In, nth_In. lia.
Qed.

Lemma set_cell_dims m n t i j v :
  table_dims m n t -> i <= m -> table_dims m n (set_cell t i j v).
Proof.
  intros Hd Hi. pose proof (table_dims_row m n t i Hd Hi) as Hrow.
  destruct Hd as [Hl Hr]. split; unfold set_cell.
  - by rewrite length_insert.
  - apply Forall_insert; [done|]. by rewrite length_insert.
Qed.

Lemma cell_set_cell_eq m n t i j v :
  table_dims m n t -> i <= m -> j <= n -> cell (set_cell t i j v) i j = v.
Proof.
  intros Hd Hi Hj. pose proof (table_dims_row m n t i Hd Hi) as Hrow.
  destruct Hd as [Hl Hr]. unfold cell, set_cell.
  rewrite nth_lookup in Hrow.
  rewrite !nth_lookup, list_lookup_insert_eq by lia. simpl.
  rewrite list_lookup_insert_eq by lia. done.
Qed.

Lemma cell_set_cell_ne t i j v i' j' :
  (i', j') <> (i, j) -> cell (set_cell t i j v) i' j' = cell t i' j'.
Proof.
  intros Hne. unfold cell, set_cell. rewrite !nth_lookup.
  destruct (decide (i = i')) as [->|Hi].
  - destruct (decide (i' < length t)) as [Hlt|Hge].
    + rewrite list_lookup_insert_eq by done. simpl.
      rewrite list_lookup_insert_ne by congruence.
      by rewrite <- !nth_lookup.
    + rewrite list_insert_ge by lia. done.
  - by rewrite list_lookup_insert_ne.
Qed.

(** Cells already final when the inner loop is at row [i], after column [j]. *)
Definition filled (m n : nat) (t : list (list nat)) (i j : nat) : Prop :=
  table_dims m n t /\
  forall i' j', i' <= m -> j' <= n ->
    i' = 0 \/ j' = 0 \/ i' < i \/ (i' = i /\ j' <= j) ->
    cell t i' j' = lcs_len a b i' j'.

Lemma zero_table_filled m n :
  filled m n (replicate (m + 1) (replicate (n + 1) 0)) 1 0.
Proof.
  split.
  - split; [by rewrite length_replicate|].
    apply Forall_replicate. by rewrite length_replicate.
  - intros i' j' Hi Hj Hc. unfold cell. rewrite !nth_lookup.
    rewrite lookup_replicate_2 by lia. simpl.
    rewrite lookup_replicate_2 by lia. simpl.
    assert (i' = 0 \/ j' = 0) as [->| ->] by lia; [done|].
    by rewrite lcs_len_0_r.
Qed.

Lemma lcs_body_filled m n t i j :
  1 <= i <= m -> 1 <= j <= n ->
  filled m n t i (j - 1) -> filled m n (lcs_body a b t i j) i j.
Proof.
  intros Hi Hj [Hd Hf].
  assert (Hdiag : cell t (i - 1) (j - 1) = lcs_len a b (i - 1) (j - 1))
    by (apply Hf; lia).
  assert (Hup : cell t (i - 1) j = lcs_len a b (i - 1) j) by (apply Hf; lia).
  assert (Hleft : cell t i (j - 1) = lcs_len a b i (j - 1)) by (apply Hf; lia).
  assert (Hrec : lcs_len a b i j =
    if String.eqb (at_ a (i - 1)) (at_ b (j - 1))
    then lcs_len a b (i - 1) (j - 1) + 1
    else Nat.max (lcs_len a b (i - 1) j) (lcs_len a b i (j - 1))).
  { destruct i as [|i]; [lia|]. destruct j as [|j]; [lia|].
    rewrite lcs_len_S. by replace (S i - 1) with i by lia;
      replace (S j - 1) with j by lia. }
  assert (Hnew : exists v, lcs_body a b t i j = set_cell t i j v /\ v = lcs_len a b i j).
  { unfold lcs_body. rewrite Hrec.
    destruct (String.eqb _ _); [eexists; split; [done|lia]|].
    destruct (Nat.leb_spec (cell t i (j - 1)) (cell t (i - 1) j));
      eexists; (split; [done|lia]). }
  destruct Hnew as (v & -> & ->). split.
  - apply set_cell_dims; [done|lia].
  - intros i' j' Hi' Hj' Hc.
    destruct (decide ((i', j') = (i, j))) as [[= -> ->]|Hne].
    + by apply (cell_set_cell_eq m n); [|lia..].
    + rewrite cell_set_cell_ne by done. apply Hf; [done..|].
      assert (i' <> i \/ j' <> j) by (destruct (decide (i' = i)); [right; congruence|by left]).
      lia.
Qed.

Lemma foldl_seq_invariant {A} (P : nat -> A -> Prop) (f : A -> nat -> A) len :
  forall start x,
    P start x ->
    (forall k y, start <= k < start + len -> P k y -> P (S k) (f y k)) ->
    P (start + len) (foldl f x (seq start len)).
Proof.
  induction len as [|len IH]; intros start x Hx Hstep; simpl.
  - by rewrite Nat.add_0_r.
  - replace (start + S len) with (S start + len) by lia.
    apply IH; [apply Hstep; [lia|done]|].
    intros k y Hk. apply Hstep. lia.
Qed.

Lemma lcsTable_filled :
  filled (length a) (length b) (lcsTable a b) (length a + 1) 0.
Proof.
  unfold lcsTable. set (m := length a). set (n := length b).
  replace (m + 1) with (1 + m) at 2 by lia.
  apply (foldl_seq_invariant (fun i t => filled m n t i 0)).
  - apply zero_table_filled.
  - intros i t Hi Hrow.
    assert (Hend : filled m n
      (foldl (fun table j => lcs_body a b table i j) t (seq 1 n)) i n).
    { replace n with (1 + n - 1) at 3 by lia.
      apply (foldl_seq_invariant (fun j t => filled m n t i (j - 1))); [done|].
      intros j y Hj Hy. replace (S j - 1) with j by lia.
      apply lcs_body_filled; [lia..|done]. }
    destruct Hend as [Hd Hf]. split; [done|].
    intros i' j' Hi' Hj' Hc. apply Hf; [done..|]. lia.
Qed.

(** Every cell of the finished table holds the LCS length of the two
    prefixes it stands for. *)
Lemma lcsTable_spec i j :
  i <= length a -> j <= length b -> cell (lcsTable a b) i j = lcs_len a b i j.
Proof.
  intros Hi Hj. destruct lcsTable_filled as [_ Hf]. apply Hf; [done..|]. lia.
Qed.

Lemma lcsTable_dims : table_dims (length a) (length b) (lcsTable a b).
Proof. apply lcsTable_filled. Qed.

Lemma lcsTable_bound i j :
  i <= length a -> j <= length b -> cell (lcsTable a b) i j <= Nat.min i j.
Proof. intros Hi Hj. rewrite lcsTable_spec by done. apply lcs_len_bound. Qed.
End Table.

(** ** Facts about the backtracking loop *)

(** The backtracking rule in the words of the specification: a context line
    when the two current lines are equal; otherwise an addition when
    consuming a candidate line keeps an LCS value at least as large as
    consuming a baseline line would, else a removal.  On the border of the
    table only one of the two moves exists. *)
Inductive backtrack_step (e a : list string) : diff_state -> diff_state -> Prop :=
  | bt_context i j lines :
      0 < i -> 0 < j -> at_ e (i - 1) = at_ a (j - 1) ->
      backtrack_step e a (DiffState i j lines)
        (DiffState (i - 1) (j - 1) (lines ++ [Sprintf_line space i (at_ e (i - 1))]))
  | bt_addition i j lines :
      0 < j ->
      (0 < i -> at_ e (i - 1) <> at_ a (j - 1) /\
                lcs_len e a (i - 1) j <= lcs_len e a i (j - 1)) ->
      backtrack_step e a (DiffState i j lines)
        (DiffState i (j - 1) (lines ++ [Sprintf_line "+" j (at_ a (j - 1))]))
  | bt_removal i j lines :
      0 < i ->
      (0 < j -> at_ e (i - 1) <> at_ a (j - 1) /\
                lcs_len e a i (j - 1) < lcs_len e a (i - 1) j) ->
      backtrack_step e a (DiffState i j lines)
        (DiffState (i - 1) j (lines ++ [Sprintf_line "-" i (at_ e (i - 1))])).

Definition diff_init (e a : list string) : diff_state :=
  DiffState (length e) (length a) [].

Definition in_table (e a : list string) (st : diff_state) : Prop :=
  ds_i st <= length e /\ ds_j st <= length a.

Section Backtrack.
Variables e a : list string.
Let lcs := lcsTable e a.

Lemma diff_cond_true st : diff_cond st = true <-> 0 < ds_i st + ds_j st.
Proof.
  unfold diff_cond. rewrite orb_true_iff, !Nat.ltb_lt. lia.
Qed.

Lemma diff_cond_false st : diff_cond st = false <-> ds_i st = 0 /\ ds_j st = 0.
Proof.
  rewrite <- not_true_iff_false, diff_cond_true. lia.
Qed.

(** The code's branch conditions, read off as propositions. *)
Lemma diff_body_context i j lines :
  0 < i -> 0 < j -> at_ e (i - 1) = at_ a (j - 1) ->
  diff_body e a lcs (DiffState i j lines) =
  DiffState (i - 1) (j - 1) (lines ++ [Sprintf_line space i (at_ e (i - 1))]).
Proof.
  intros Hi Hj Heq. unfold diff_body; simpl.
  apply Nat.ltb_lt in Hi, Hj. rewrite Hi, Hj. simpl.
  apply String.eqb_eq in Heq. by rewrite Heq.
Qed.

Lemma diff_body_differ i j lines :
  i <= length e -> j <= length a ->
  0 < i -> 0 < j -> at_ e (i - 1) <> at_ a (j - 1) ->
  diff_body e a lcs (DiffState i j lines) =
  if decide (lcs_len e a (i - 1) j <= lcs_len e a i (j - 1))
  then DiffState i (j - 1) (lines ++ [Sprintf_line "+" j (at_ a (j - 1))])
  else DiffState (i - 1) j (lines ++ [Sprintf_line "-" i (at_ e (i - 1))]).
Proof.
  intros Hi Hj Hi0 Hj0 Hne. unfold diff_body; simpl.
  apply String.eqb_neq in Hne. rewrite Hne, andb_false_r.
  apply Nat.ltb_lt in Hj0 as Hj0'. rewrite Hj0'. simpl.
  replace (i =? 0) with false by (symmetry; apply Nat.eqb_neq; lia). simpl.
  subst lcs. rewrite !lcsTable_spec by lia.
  case_decide as Hle.
  - apply Nat.leb_le in Hle. by rewrite Hle.
  - apply Nat.leb_nle in Hle. by rewrite Hle.
Qed.

Lemma diff_body_top j lines :
  0 < j ->
  diff_body e a lcs (DiffState 0 j lines) =
  DiffState 0 (j - 1) (lines ++ [Sprintf_line "+" j (at_ a (j - 1))]).
Proof.
  intros Hj. unfold diff_body; simpl. apply Nat.ltb_lt in Hj. by rewrite Hj.
Qed.

Lemma diff_body_left i lines :
  0 < i ->
  diff_body e a lcs (DiffState i 0 lines) =
  DiffState (i - 1) 0 (lines ++ [Sprintf_line "-" i (at_ e (i - 1))]).
Proof.
  intros Hi. unfold diff_body; simpl. by rewrite andb_false_r.
Qed.

(** The loop body is an instance of the rule. *)
Lemma diff_body_refines st :
  in_table e a st -> diff_cond st = true ->
  backtrack_step e a st (diff_body e a lcs st).
Proof.
  destruct st as [i j lines]. intros [Hi Hj] Hc; simpl in *.
  apply diff_cond_true in Hc; simpl in Hc.
  destruct (decide (i = 0)) as [->|Hi0].
  { rewrite diff_body_top by lia. apply bt_addition; lia. }
  destruct (decide (j = 0)) as [->|Hj0].
  { rewrite diff_body_left by lia. apply bt_removal; lia. }
  destruct (decide (at_ e (i - 1) = at_ a (j - 1))) as [Heq|Hne].
  { rewrite diff_body_context by (done || lia). apply bt_context; (done || lia). }
  rewrite diff_body_differ by (done || lia). case_decide.
  - apply bt_addition; [lia|done].
  - apply bt_removal; [lia|]. intros _. split; [done|lia].
Qed.

Lemma backtrack_step_deterministic st s1 s2 :
  backtrack_step e a st s1 -> backtrack_step e a st s2 -> s1 = s2.
Proof.
  intros H1 H2. inversion H1; subst; inversion H2; subst; try done;
    repeat match goal with
           | H : 0 < ?i -> _ /\ _ |- _ =>
               let Hp := fresh in
               assert (Hp : 0 < i) by lia; destruct (H Hp); clear H
           end; done || lia.
Qed.

Lemma backtrack_step_measure st st' :
  backtrack_step e a st st' -> ds_i st' + ds_j st' < ds_i st + ds_j st.
Proof. inversion 1; subst; simpl; lia. Qed.

Lemma backtrack_step_in_table st st' :
  backtrack_step e a st st' -> in_table e a st -> in_table e a st'.
Proof. unfold in_table. inversion 1; subst; simpl; lia. Qed.

(** With fuel for every remaining line the loop runs to its exit, and
    every iteration it made follows the rule. *)
Lemma diff_loop_run fuel st :
  in_table e a st -> ds_i st + ds_j st <= fuel ->
  rtc (backtrack_step e a) st (diff_loop e a lcs fuel st) /\
  diff_cond (diff_loop e a lcs fuel st) = false.
Proof.
  revert st. induction fuel as [|fuel IH]; intros st Hin Hfuel; simpl.
  - split; [done|]. apply diff_cond_false. lia.
  - destruct (diff_cond st) eqn:Hc; [|done].
    pose proof (diff_body_refines st Hin Hc) as Hstep.
    pose proof (backtrack_step_measure _ _ Hstep).
    destruct (IH (diff_body e a lcs st)) as [Hrun Hend];
      [by eapply backtrack_step_in_table|lia|].
    split; [by eapply rtc_l|done].
Qed.

Lemma backtrack_run_unique st f1 f2 :
  rtc (backtrack_step e a) st f1 -> rtc (backtrack_step e a) st f2 ->
  diff_cond f1 = false -> diff_cond f2 = false -> f1 = f2.
Proof.
  intros H1. revert f2. induction H1 as [f1|st s1 f1 Hs1 Hr1 IH];
    intros f2 H2 Hc1 Hc2.
  - destruct H2 as [|? s2 ? Hs2 _]; [done|].
    apply backtrack_step_measure in Hs2. apply diff_cond_false in Hc1. lia.
  - destruct H2 as [|? s2 ? Hs2 Hr2].
    + apply backtrack_step_measure in Hs1. apply diff_cond_false in Hc2. lia.
    + rewrite (backtrack_step_deterministic _ _ _ Hs2 Hs1) in Hr2. by apply IH.
Qed.
End Backtrack.

(** ** The rendered diff, line by line *)

Inductive diff_mark := Context | Addition | Removal.

Definition mark_byte (m : diff_mark) : ascii :=
  match m with
  | Context => space
  | Addition => "+"%char
  | Removal => "-"%char
  end.

(** One line of the diff body: its marker, its line number, its text. *)
Record diff_entry := DiffEntry {
  de_mark : diff_mark;
  de_num : nat;
  de_text : string;
}.

(** Marker, then the number in a field of width 4, two spaces, the text. *)
Definition render_entry (en : diff_entry) : string :=
  String (mark_byte (de_mark en))
    (fmt_4d (de_num en) +:+ String space (String space (de_text en))).

Definition render_entries (entries : list diff_entry) : string :=
  foldr (fun en acc => render_entry en +:+ String nl acc) EmptyString entries.

(** The number of an entry is the 1-based position of its text on its own
    side: the baseline for removals (and context lines), the candidate for
    additions. *)
Definition entry_numbered (e a : list string) (en : diff_entry) : Prop :=
  1 <= de_num en /\
  match de_mark en with
  | Context | Removal => e !! (de_num en - 1) = Some (de_text en)
  | Addition => a !! (de_num en - 1) = Some (de_text en)
  end.

Definition on_baseline (en : diff_entry) : bool :=
  match de_mark en with Addition => false | _ => true end.

Definition on_candidate (en : diff_entry) : bool :=
  match de_mark en with Removal => false | _ => true end.

Definition side_text (keep : diff_entry -> bool) (entries : list diff_entry)
  : list string :=
  map de_text (List.filter keep entries).

Definition is_addition (en : diff_entry) : bool :=
  match de_mark en with Addition => true | _ => false end.

(** The line numbers of one side.  Of the entries the side keeps, read top
    to bottom, the one at place [k] (counted from 0) stands for line
    [first + k] of that side; [side_numbered] says that each of them that
    the side numbers carries that number.  The baseline numbers the
    context lines and the removals, the candidate the additions. *)
Definition side_numbered (first : nat) (keep numbers : diff_entry -> bool)
    (entries : list diff_entry) : Prop :=
  forall k en,
    List.filter keep entries !! k = Some en -> numbers en = true ->
    de_num en = first + k.

Lemma side_numbered_nil first keep numbers : side_numbered first keep numbers [].
Proof. by intros k en. Qed.

Lemma side_numbered_cons_keep first keep numbers en entries :
  keep en = true -> (numbers en = true -> de_num en = first) ->
  side_numbered (S first) keep numbers entries ->
  side_numbered first keep numbers (en :: entries).
Proof.
  intros Hkeep Hnum Hrest k en'. simpl. rewrite Hkeep.
  destruct k as [|k]; simpl.
  - intros [= <-] Hn. rewrite Hnum by done. lia.
  - intros Hk Hn. rewrite (Hrest k en' Hk Hn). lia.
Qed.

Lemma side_numbered_cons_skip first keep numbers en entries :
  keep en = false ->
  side_numbered first keep numbers entries ->
  side_numbered first keep numbers (en :: entries).
Proof. intros Hskip Hrest k en'. simpl. by rewrite Hskip; apply Hrest. Qed.

Section Script.
Variables e a : list string.

Lemma at_lookup (l : list string) i : i < length l -> l !! i = Some (at_ l i).
Proof.
  intros Hi. unfold at_. rewrite nth_lookup.
  by destruct (lookup_lt_is_Some_2 l i Hi) as [x ->].
Qed.

(** What the lines built so far stand for, read top to bottom. *)
Definition script_of (st : diff_state) (entries : list diff_entry) : Prop :=
  rev (ds_lines st) = map render_entry entries /\
  Forall (entry_numbered e a) entries /\
  side_text on_baseline entries = drop (ds_i st) e /\
  side_text on_candidate entries = drop (ds_j st) a /\
  side_numbered (S (ds_i st)) on_baseline on_baseline entries /\
  side_numbered (S (ds_j st)) on_candidate is_addition entries.

Lemma script_of_step st st' entries :
  backtrack_step e a st st' -> in_table e a st -> script_of st entries ->
  exists en, script_of st' (en :: entries).
Proof.
  intros Hstep [Hi Hj] (Hlines & Hnum & Hbase & Hcand & Hnb & Hnc).
  inversion Hstep as [i j lines Hi0 Hj0 Heq|i j lines Hj0 _|i j lines Hi0 _];
    subst; simpl in *.
  - exists (DiffEntry Context i (at_ e (i - 1))).
    assert (He : e !! (i - 1) = Some (at_ e (i - 1))) by (apply at_lookup; lia).
    assert (Ha : a !! (j - 1) = Some (at_ e (i - 1)))
      by (rewrite Heq; apply at_lookup; lia).
    split; [|split; [|split; [|split; [|split]]]]; simpl.
    + by rewrite rev_unit, Hlines.
    + constructor; [|done]. split; [simpl; lia|done].
    + unfold side_text in *; simpl. rewrite Hbase.
      rewrite (drop_S e _ (i - 1) He). by replace (S (i - 1)) with i by lia.
    + unfold side_text in *; simpl. rewrite Hcand.
      rewrite (drop_S a _ (j - 1) Ha). by replace (S (j - 1)) with j by lia.
    + apply side_numbered_cons_keep; [done|simpl; lia|].
      by replace (S (S (i - 1))) with (S i) by lia.
    + apply side_numbered_cons_keep; [done|done|].
      by replace (S (S (j - 1))) with (S j) by lia.
  - exists (DiffEntry Addition j (at_ a (j - 1))).
    assert (Ha : a !! (j - 1) = Some (at_ a (j - 1))) by (apply at_lookup; lia).
    split; [|split; [|split; [|split; [|split]]]]; simpl.
    + by rewrite rev_unit, Hlines.
    + constructor; [|done]. split; [simpl; lia|done].
    + done.
    + unfold side_text in *; simpl. rewrite Hcand.
      rewrite (drop_S a _ (j - 1) Ha). by replace (S (j - 1)) with j by lia.
    + by apply side_numbered_cons_skip.
    + apply side_numbered_cons_keep; [done|simpl; lia|].
      by replace (S (S (j - 1))) with (S j) by lia.
  - exists (DiffEntry Removal i (at_ e (i - 1))).
    assert (He : e !! (i - 1) = Some (at_ e (i - 1))) by (apply at_lookup; lia).
    split; [|split; [|split; [|split; [|split]]]]; simpl.
    + by rewrite rev_unit, Hlines.
    + constructor; [|done]. split; [simpl; lia|done].
    + unfold side_text in *; simpl. rewrite Hbase.
      rewrite (drop_S e _ (i - 1) He). by replace (S (i - 1)) with i by lia.
    + done.
    + apply side_numbered_cons_keep; [done|simpl; lia|].
      by replace (S (S (i - 1))) with (S i) by lia.
    + by apply side_numbered_cons_skip.
Qed.

Lemma script_of_run st st' :
  rtc (backtrack_step e a) st st' -> in_table e a st ->
  (exists entries, script_of st entries) -> exists entries, script_of st' entries.
Proof.
  induction 1 as [|st s1 st' Hstep _ IH]; intros Hin [entries Hs]; [by eauto|].
  apply IH; [by eapply backtrack_step_in_table|].
  destruct (script_of_step _ _ _ Hstep Hin Hs) as [en Hen]. eauto.
Qed.

Lemma write_reversed_render lines entries :
  rev lines = map render_entry entries ->
  write_reversed lines = render_entries entries.
Proof.
  unfold write_reversed, render_entries. intros ->.
  induction entries as [|en entries IH]; simpl; [done|]. by rewrite IH.
Qed.

(** The diff body is the rendering of an edit script that is numbered by
    side and that rebuilds both inputs. *)
Lemma diff_lines_script :
  exists entries,
    write_reversed (diff_lines e a) = render_entries entries /\
    Forall (entry_numbered e a) entries /\
    side_text on_baseline entries = e /\
    side_text on_candidate entries = a /\
    side_numbered 1 on_baseline on_baseline entries /\
    side_numbered 1 on_candidate is_addition entries.
Proof.
  unfold diff_lines.
  destruct (diff_loop_run e a (length e + length a) (diff_init e a))
    as [Hrun Hend]; [by split|done|].
  apply diff_cond_false in Hend as [Hi Hj].
  destruct (script_of_run _ _ Hrun) as (entries & Hl & Hn & Hb & Hc & Hnb & Hnc).
  - by split.
  - exists []. split; [done|]. split; [done|]. unfold side_text; simpl.
    rewrite !drop_all. repeat split; apply side_numbered_nil.
  - unfold diff_init in *. rewrite Hi in Hb, Hnb. rewrite Hj in Hc, Hnc.
    exists entries. split; [by apply write_reversed_render|done].
Qed.
End Script.

Lemma length_append (s t : string) :
  String.length (s +:+ t) = String.length s + String.length t.
Proof. induction s; simpl; [done|congruence]. Qed.

Lemma append_cons (b : ascii) (s t : string) : String b s +:+ t = String b (s +:+ t).
Proof. reflexivity. Qed.

Lemma append_assoc (s t u : string) : (s +:+ t) +:+ u = s +:+ (t +:+ u).
Proof. induction s; [done|]. rewrite !append_cons. congruence. Qed.

Lemma spaces_repeat (k : nat) :
  spaces k = string_of_list_ascii (List.repeat " "%char k).
Proof. induction k as [|k IH]; simpl; [done|]. by rewrite IH. Qed.

(** The number field of a diff line: the decimal numeral of the number,
    without a leading zero, after as many spaces as fill it to width 4. *)
Lemma fmt_4d_decimal (n : nat) :
  exists u : Decimal.uint,
    Nat.of_uint u = n /\ Decimal.unorm u = u /\
    let digits := NilEmpty.string_of_uint u in
    fmt_4d n =
    string_of_list_ascii (List.repeat " "%char (4 - String.length digits)) +:+ digits.
Proof.
  exists (Nat.to_uint n). split; [apply Unsigned.of_to|]. split.
  - rewrite <- (Unsigned.of_to n) at 2. by rewrite Unsigned.to_of.
  - cbv zeta. unfold fmt_4d, itoa. by rewrite spaces_repeat.
Qed.

(** C5: the backtracking of [unifiedDiff] follows the stated rule.  At every
    position of the table other than the origin, the loop body emits a
    context line and decreases both indices when the two current lines are
    equal; when they differ it emits an addition (consuming a candidate
    line) exactly when the cell reached by consuming the candidate line is
    greater than or equal to the cell reached by consuming the baseline
    line, and a removal otherwise, the cells holding the LCS lengths of the
    prefixes; on the border only the one possible move is made.  The run
    from [table[m][n]] to the origin exists and is the only one the rule
    allows, so the diff is a function of its two inputs. *)
Theorem unifiedDiff_backtrack_rule (expected actual : string) :
  let e := strings_Split expected nl in
  let a := strings_Split actual nl in
  let lcs := lcsTable e a in
  (forall i j lines, i <= length e -> j <= length a ->
     let st' := diff_body e a lcs (DiffState i j lines) in
     let context :=
       DiffState (i - 1) (j - 1) (lines ++ [Sprintf_line space i (at_ e (i - 1))]) in
     let addition :=
       DiffState i (j - 1) (lines ++ [Sprintf_line "+" j (at_ a (j - 1))]) in
     let removal :=
       DiffState (i - 1) j (lines ++ [Sprintf_line "-" i (at_ e (i - 1))]) in
     (0 < i -> 0 < j -> at_ e (i - 1) = at_ a (j - 1) -> st' = context) /\
     (0 < i -> 0 < j -> at_ e (i - 1) <> at_ a (j - 1) ->
        (st' = addition <-> cell lcs (i - 1) j <= cell lcs i (j - 1)) /\
        (st' = removal <-> cell lcs i (j - 1) < cell lcs (i - 1) j) /\
        cell lcs i (j - 1) = lcs_len e a i (j - 1) /\
        cell lcs (i - 1) j = lcs_len e a (i - 1) j) /\
     (i = 0 -> 0 < j -> st' = addition) /\
     (j = 0 -> 0 < i -> st' = removal)) /\
  (exists final,
     rtc (backtrack_step e a) (diff_init e a) final /\
     ds_i final = 0 /\ ds_j final = 0 /\
     unifiedDiff expected actual = diff_header +:+ write_reversed (ds_lines final)) /\
  (forall final,
     rtc (backtrack_step e a) (diff_init e a) final ->
     ds_i final = 0 -> ds_j final = 0 ->
     unifiedDiff expected actual = diff_header +:+ write_reversed (ds_lines final)).
Proof.
  intros e a lcs. subst lcs.
  destruct (diff_loop_run e a (length e + length a) (diff_init e a))
    as [Hrun Hend]; [by split|done|].
  split; [|split].
  - intros i j lines Hi Hj st' context addition removal.
    split; [|split; [|split]].
    + intros. by apply diff_body_context.
    + intros Hi0 Hj0 Hne.
      assert (Hleft : cell (lcsTable e a) i (j - 1) = lcs_len e a i (j - 1))
        by (apply lcsTable_spec; lia).
      assert (Hup : cell (lcsTable e a) (i - 1) j = lcs_len e a (i - 1) j)
        by (apply lcsTable_spec; lia).
      rewrite Hleft, Hup. subst st'.
      rewrite (diff_body_differ e a i j lines) by done.
      subst addition removal.
      case_decide as Hle; (split; [|split; [|done]]);
        (split; [intros [=]|]; lia || done).
    + intros -> Hj0. by apply diff_body_top.
    + intros -> Hi0. by apply diff_body_left.
  - eexists. split; [exact Hrun|].
    apply diff_cond_false in Hend as [Hi0 Hj0]. by repeat split.
  - intros final Hfinal Hi0 Hj0.
    assert (Hc : diff_cond final = false) by (by apply diff_cond_false).
    by rewrite (backtrack_run_unique e a _ _ _ Hfinal Hrun Hc Hend).
Qed.

(** C6: the diff is the two-line header, the line of the expected text
    and the line of the actual one, and then one line for each entry of an
    edit script.  Every such line is a marker (a space for context, + for
    an addition, - for a removal), then the line number as a decimal
    numeral right-justified in a field of width 4, then two spaces, then
    the text of the line, then a newline.  The entries that are not
    additions are, top to bottom, the lines of the baseline, and each
    carries its 1-based position in the baseline; the entries that are not
    removals are the lines of the candidate, and each addition carries its
    1-based position in the candidate.  For the baseline a, b, c and the
    candidate a, X, c the diff shows b removed at position 2 and X added
    at position 2, between the context lines a and c. *)
Theorem unifiedDiff_rendering (expected actual : string) :
  let e := strings_Split expected nl in
  let a := strings_Split actual nl in
  let lf := String "010" "" in
  (exists entries,
     unifiedDiff expected actual =
       "--- expected" +:+ lf +:+ "+++ actual" +:+ lf +:+ render_entries entries /\
     side_text on_baseline entries = e /\
     side_text on_candidate entries = a /\
     side_numbered 1 on_baseline on_baseline entries /\
     side_numbered 1 on_candidate is_addition entries) /\
  render_entries [] = "" /\
  (forall en entries,
     render_entries (en :: entries) =
     render_entry en +:+ lf +:+ render_entries entries) /\
  (forall n text, exists u : Decimal.uint,
     Nat.of_uint u = n /\ Decimal.unorm u = u /\
     let digits := NilEmpty.string_of_uint u in
     let pad :=
       string_of_list_ascii (List.repeat " "%char (4 - String.length digits)) in
     render_entry (DiffEntry Context n text) =
       " " +:+ pad +:+ digits +:+ "  " +:+ text /\
     render_entry (DiffEntry Addition n text) =
       "+" +:+ pad +:+ digits +:+ "  " +:+ text /\
     render_entry (DiffEntry Removal n text) =
       "-" +:+ pad +:+ digits +:+ "  " +:+ text) /\
  unifiedDiff ("a" +:+ lf +:+ "b" +:+ lf +:+ "c") ("a" +:+ lf +:+ "X" +:+ lf +:+ "c") =
    "--- expected" +:+ lf +:+ "+++ actual" +:+ lf +:+
    "    1  a" +:+ lf +:+ "-   2  b" +:+ lf +:+ "+   2  X" +:+ lf +:+
    "    3  c" +:+ lf.
Proof.
  intros e a lf. split; [|split; [done|split; [done|split; [|done]]]].
  - destruct (diff_lines_script e a) as (entries & Hw & _ & Hb & Hc & Hnb & Hnc).
    exists entries. split; [|done]. unfold unifiedDiff. fold e a. by rewrite Hw.
  - intros n text. destruct (fmt_4d_decimal n) as (u & Hval & Hnorm & Hfmt).
    exists u. split; [done|]. split; [done|]. cbv zeta in *.
    unfold render_entry. simpl de_mark. simpl de_num. simpl de_text.
    rewrite Hfmt, append_assoc. by repeat split.
Qed.

(** ** Facts about splitting, joining and cleaning paths *)

Fixpoint contains_byte (c : ascii) (s : string) : bool :=
  match s with
  | EmptyString => false
  | String b s' => Ascii.eqb b c || contains_byte c s'
  end.

Section Paths.
Implicit Types (s p c : string) (l out : list string).

Lemma Split_nonempty s sep : strings_Split s sep <> [].
Proof.
  induction s as [|b s IH]; simpl; [done|].
  destruct (Ascii.eqb b sep); [done|]. by destruct (strings_Split s sep).
Qed.

Lemma Split_free s sep :
  Forall (fun x => contains_byte sep x = false) (strings_Split s sep).
Proof.
  induction s as [|b s IH]; simpl; [by repeat constructor|].
  destruct (Ascii.eqb b sep) eqn:Hb; [by constructor|].
  destruct (strings_Split s sep) as [|h t] eqn:Hs; [by apply Split_nonempty in Hs|].
  inversion IH; subst. constructor; [|done]. simpl. by rewrite Hb.
Qed.

Lemma Split_single s sep :
  contains_byte sep s = false -> strings_Split s sep = [s].
Proof.
  induction s as [|b s IH]; simpl; [done|].
  intros [Hb Hs]%orb_false_iff. rewrite Hb, IH; done.
Qed.

Lemma Split_app_sep s s' sep :
  contains_byte sep s = false ->
  strings_Split (s +:+ String sep s') sep = s :: strings_Split s' sep.
Proof.
  induction s as [|b s IH]; simpl.
  - intros _. by rewrite Ascii.eqb_refl.
  - intros [Hb Hs]%orb_false_iff. by rewrite Hb, IH.
Qed.

Lemma Split_cons_sep s sep :
  strings_Split (String sep s) sep = "" :: strings_Split s sep.
Proof. simpl. by rewrite Ascii.eqb_refl. Qed.

Lemma Split_Join l sep :
  l <> [] -> Forall (fun x => contains_byte sep x = false) l ->
  strings_Split (strings_Join l sep) sep = l.
Proof.
  induction l as [|x l IH]; [done|]. intros _ Hfree.
  inversion Hfree as [|? ? Hx Hl]; subst.
  destruct l as [|y l]; simpl.
  - by apply Split_single.
  - rewrite Split_app_sep by done. f_equal. by apply IH.
Qed.

(** Appending a separator-free tail extends the last segment. *)
Lemma Split_app_free s t sep :
  contains_byte sep t = false ->
  exists l x, strings_Split s sep = l ++ [x] /\
              strings_Split (s +:+ t) sep = l ++ [x +:+ t].
Proof.
  intros Ht. induction s as [|b s (l & x & Hs & Hst)]; simpl.
  - exists [], "". by rewrite Split_single.
  - rewrite Hs, Hst. destruct (Ascii.eqb b sep).
    + by exists ("" :: l), x.
    + destruct l as [|h l]; simpl.
      * by exists [], (String b x).
      * by exists (String b h :: l), x.
Qed.

(** An element that [Clean] keeps and the kernel walks down into. *)
Definition is_name c : Prop := c <> "" /\ c <> "." /\ c <> "..".

Lemma clean_step_name rooted out c :
  is_name c -> clean_step rooted out c = c :: out.
Proof.
  intros (H1 & H2 & H3). unfold clean_step.
  apply String.eqb_neq in H1, H2, H3. by rewrite H1, H2, H3.
Qed.

Lemma walk_step_name k c : is_name c -> walk_step k c = c :: k.
Proof.
  intros (H1 & H2 & H3). unfold walk_step.
  apply String.eqb_neq in H1, H2, H3. by rewrite H1, H2, H3.
Qed.

(** What the output stack of [Clean] holds: names, or [..] elements. *)
Definition kept c : Prop := c <> "" /\ c <> ".".

Lemma clean_step_kept rooted out c :
  Forall kept out -> Forall kept (clean_step rooted out c).
Proof.
  intros Hout. unfold clean_step.
  destruct (String.eqb_spec c ""); [done|].
  destruct (String.eqb_spec c "."); [done|]. simpl.
  destruct (String.eqb_spec c "..").
  - destruct out as [|top rest].
    + destruct rooted; [done|]. by repeat constructor.
    + destruct (String.eqb top ".."); [by constructor|].
      by inversion Hout.
  - by constructor.
Qed.

Lemma clean_fold_kept rooted l out :
  Forall kept out -> Forall kept (fold_left (clean_step rooted) l out).
Proof.
  revert out. induction l as [|c l IH]; intros out Hout; simpl; [done|].
  by apply IH, clean_step_kept.
Qed.

Lemma clean_step_free rooted out c :
  contains_byte slash c = false ->
  Forall (fun x => contains_byte slash x = false) out ->
  Forall (fun x => contains_byte slash x = false) (clean_step rooted out c).
Proof.
  intros Hc Hout. unfold clean_step.
  destruct (_ || _); [done|]. destruct (String.eqb c "..").
  - destruct out as [|top rest].
    + destruct rooted; [done|]. by repeat constructor.
    + destruct (String.eqb top ".."); [by constructor|]. by inversion Hout.
  - by constructor.
Qed.

Lemma clean_fold_free rooted l out :
  Forall (fun x => contains_byte slash x = false) l ->
  Forall (fun x => contains_byte slash x = false) out ->
  Forall (fun x => contains_byte slash x = false)
         (fold_left (clean_step rooted) l out).
Proof.
  revert out. induction l as [|c l IH]; intros out Hl Hout; simpl; [done|].
  inversion Hl; subst. by apply IH; [|apply clean_step_free].
Qed.

Lemma walk_kept k c : kept c -> walk_step k c = if String.eqb c ".." then tail k else c :: k.
Proof.
  intros [H1 H2]. unfold walk_step.
  apply String.eqb_neq in H1, H2. by rewrite H1, H2.
Qed.

(** Walking the cleaned elements reaches the place that walking the
    original elements reaches. *)
Lemma walk_clean rooted start l out :
  (rooted = true -> start = []) -> Forall kept out ->
  fold_left walk_step (rev (fold_left (clean_step rooted) l out)) start =
  fold_left walk_step l (fold_left walk_step (rev out) start).
Proof.
  intros Hroot. revert out. induction l as [|c l IH]; intros out Hout; simpl; [done|].
  rewrite IH by (by apply clean_step_kept). f_equal.
  destruct (String.eqb_spec c "") as [->|H1]; [done|].
  destruct (String.eqb_spec c ".") as [->|H2]; [done|].
  destruct (String.eqb_spec c "..") as [->|H3].
  - change (walk_step ?k "..") with (tail k).
    destruct out as [|top rest].
    + destruct rooted; simpl; [by rewrite Hroot|done].
    + inversion Hout as [|? ? Htop Hrest]; subst.
      change (clean_step rooted (top :: rest) "..") with
        (if String.eqb top ".." then ".." :: top :: rest else rest).
      simpl (rev (top :: rest)). rewrite fold_left_app.
      change (fold_left walk_step [top] ?k) with (walk_step k top).
      rewrite (walk_kept _ top Htop).
      destruct (String.eqb_spec top "..") as [->|Hne].
      * simpl. by rewrite !fold_left_app.
      * done.
  - rewrite clean_step_name, walk_step_name by done.
    simpl. rewrite fold_left_app. simpl. by apply walk_step_name.
Qed.

Lemma free_not_rooted c :
  c <> "" -> contains_byte slash c = false -> is_rooted c = false.
Proof.
  destruct c as [|b c]; [done|]. simpl. by intros _ [Hb _]%orb_false_iff.
Qed.

Lemma is_rooted_Join l :
  Forall (fun x => contains_byte slash x = false) l ->
  is_rooted (strings_Join l slash) =
  match l with
  | "" :: _ :: _ => true
  | _ => false
  end.
Proof.
  intros Hl. destruct l as [|x [|y l]]; [done|..].
  - simpl. inversion Hl; subst. destruct x as [|b x]; [done|].
    by apply free_not_rooted.
  - inversion Hl; subst. destruct x as [|b x]; [done|].
    change (strings_Join (String b x :: y :: l) slash)
      with (String b (x +:+ String slash (strings_Join (y :: l) slash))).
    by apply (free_not_rooted (String b x)).
Qed.

Lemma is_rooted_Split p :
  is_rooted p =
  match strings_Split p slash with
  | "" :: _ :: _ => true
  | _ => false
  end.
Proof.
  destruct p as [|b p]; [done|]. simpl.
  destruct (Ascii.eqb b slash).
  - pose proof (Split_nonempty p slash). by destruct (strings_Split p slash).
  - by destruct (strings_Split p slash).
Qed.

Lemma Join_head_nonempty x l : x <> "" -> strings_Join (x :: l) slash <> "".
Proof. destruct x; [done|]. by destruct l. Qed.

(** The segments of a cleaned path, from the elements [Clean] kept. *)
Lemma Split_Clean p :
  let rooted := is_rooted p in
  let out := fold_left (clean_step rooted) (strings_Split p slash) [] in
  is_rooted (filepath_Clean p) = rooted /\
  strings_Split (filepath_Clean p) slash =
    (if rooted then [""] else []) ++
    match out with
    | [] => if rooted then [""] else ["."]
    | _ => rev out
    end.
Proof.
  intros rooted out.
  assert (Hkept : Forall kept out) by (by apply clean_fold_kept).
  assert (Hfree : Forall (fun x => contains_byte slash x = false) out)
    by (apply clean_fold_free; [apply Split_free|done]).
  unfold filepath_Clean. fold rooted. fold out.
  destruct out as [|top rest] eqn:Hout.
  { destruct rooted; by split. }
  assert (Hrev : rev (top :: rest) <> []).
  { simpl. by destruct (rev rest). }
  assert (Hfree' : Forall (fun x => contains_byte slash x = false) (rev (top :: rest))).
  { apply Forall_forall. intros x Hx%list_elem_of_In%in_rev%list_elem_of_In.
    by apply (proj1 (Forall_forall _ _) Hfree). }
  assert (Hkept' : Forall kept (rev (top :: rest))).
  { apply Forall_forall. intros x Hx%list_elem_of_In%in_rev%list_elem_of_In.
    by apply (proj1 (Forall_forall _ _) Hkept). }
  destruct rooted.
  - split; [done|]. by rewrite Split_cons_sep, Split_Join.
  - destruct (rev (top :: rest)) as [|x l] eqn:Hx; [done|].
    inversion Hkept' as [|? ? [Hx1 _] _]; subst.
    pose proof (Join_head_nonempty x l Hx1) as Hne.
    apply String.eqb_neq in Hne. rewrite Hne.
    split; [|by rewrite Split_Join].
    rewrite is_rooted_Join by done.
    by destruct x.
Qed.

(** Cleaning a path does not change the place it names. *)
Lemma resolve_Clean cwd p : resolve cwd (filepath_Clean p) = resolve cwd p.
Proof.
  destruct (Split_Clean p) as [Hr Hs]. unfold resolve. rewrite Hr, Hs. f_equal.
  set (start := if is_rooted p then [] else rev cwd).
  assert (Hw := walk_clean (is_rooted p) start (strings_Split p slash) []).
  simpl in Hw. rewrite <- Hw; [|by subst start; intros ->|done].
  rewrite fold_left_app.
  destruct (fold_left (clean_step _) _ []) as [|top rest];
    by destruct (is_rooted p).
Qed.

Lemma Clean_nonempty p : filepath_Clean p <> "".
Proof.
  unfold filepath_Clean. destruct (is_rooted p); [done|].
  destruct (String.eqb_spec (strings_Join
    (rev (fold_left (clean_step false) (strings_Split p slash) [])) slash) "");
    done.
Qed.

Lemma Dir_nonempty p : filepath_Dir p <> "".
Proof. apply Clean_nonempty. Qed.

Lemma Join_nonempty x l : x <> "" -> filepath_Join (x :: l) <> "".
Proof.
  intros Hx%String.eqb_neq. simpl. rewrite Hx. apply Clean_nonempty.
Qed.

(** The place a path names is one step below the place its [Dir] names,
    when the path ends in a name. *)
Lemma resolve_Dir cwd p l x :
  strings_Split p slash = l ++ [x] -> is_name x ->
  resolve cwd p = resolve cwd (filepath_Dir p) ++ [x].
Proof.
  intros Hp Hx. unfold filepath_Dir. rewrite resolve_Clean.
  pose proof (Split_free p slash) as Hfree. rewrite Hp in Hfree.
  apply Forall_app in Hfree as [Hl _].
  assert (Hl' : Forall (fun y => contains_byte slash y = false) (l ++ [""]))
    by (apply Forall_app; split; [done|by repeat constructor]).
  rewrite Hp, removelast_last. unfold resolve.
  rewrite Split_Join by (done || by destruct l).
  rewrite is_rooted_Join by done. rewrite is_rooted_Split, Hp.
  replace (match l ++ [""] with "" :: _ :: _ => true | _ => false end)
    with (match l ++ [x] with "" :: _ :: _ => true | _ => false end)
    by (destruct l as [|y [|z l]]; [by destruct Hx as [? _]; destruct x|done..]).
  rewrite !fold_left_app. simpl. by rewrite walk_step_name.
Qed.

Lemma golden_is_name x : is_name (x +:+ ".golden").
Proof.
  repeat split; intros Heq; apply (f_equal String.length) in Heq;
    rewrite length_append in Heq; simpl in Heq; lia.
Qed.

Lemma Clean_last p l x :
  strings_Split p slash = l ++ [x] -> is_name x ->
  exists l', strings_Split (filepath_Clean p) slash = l' ++ [x].
Proof.
  intros Hp Hx. destruct (Split_Clean p) as [_ Hs]. rewrite Hs, Hp.
  rewrite fold_left_app. simpl. rewrite clean_step_name by done. simpl.
  eexists. by rewrite app_assoc.
Qed.

(** Every path [snapshotPath] builds names a place one step below the
    place its [Dir] names. *)
Lemma golden_path_parent cwd base name :
  base <> "" ->
  let path := filepath_Join [base; name +:+ ".golden"] in
  exists file, resolve cwd path = resolve cwd (filepath_Dir path) ++ [file].
Proof.
  intros Hbase path. subst path. simpl.
  apply String.eqb_neq in Hbase. rewrite Hbase.
  destruct (Split_app_free (base +:+ String slash name) ".golden" slash)
    as (l & x & _ & Hs); [done|].
  rewrite append_assoc, append_cons in Hs.
  destruct (Clean_last _ _ _ Hs (golden_is_name x)) as [l' Hl'].
  exists (x +:+ ".golden"). by eapply resolve_Dir, golden_is_name.
Qed.
End Paths.

(** ** Facts about the file tree *)

Section FileTree.
Implicit Types (fs : filesystem) (k d : list string).

Lemma fs_node_insert_ne fs d k x :
  k <> d -> fs_node (<[d := x]> fs) k = fs_node fs k.
Proof. intros Hne. destruct k; [done|]. simpl. by rewrite lookup_insert_ne. Qed.

Lemma fs_node_insert_eq fs d x :
  d <> [] -> fs_node (<[d := x]> fs) d = Some x.
Proof. intros Hne. destruct d; [done|]. simpl. by rewrite lookup_insert_eq. Qed.

Lemma fs_node_None_not_root fs d : fs_node fs d = None -> d <> [].
Proof. by destruct d. Qed.

Lemma ancestors_snoc d f : ancestors (d ++ [f]) = [] :: chain d.
Proof.
  unfold ancestors, chain. rewrite length_app, Nat.add_1_r. simpl. f_equal.
  apply map_ext_in. intros n [_ Hn]%in_seq. by rewrite take_app_le by lia.
Qed.

Lemma ancestors_ne k : Forall (fun a => a <> k) (ancestors k).
Proof.
  apply Forall_forall. intros a (n & <- & [_ Hn]%in_seq)%list_elem_of_In%in_map_iff.
  intros Heq. apply (f_equal length) in Heq. rewrite length_take in Heq. lia.
Qed.

Lemma dirs_ok_None fs ds :
  dirs_ok fs ds = None <-> Forall (fun d => fs_node fs d = Some Directory) ds.
Proof.
  induction ds as [|d ds IH]; simpl; [done|].
  rewrite Forall_cons. destruct (fs_node fs d) as [[c|]|].
  - split; [done|by intros [? _]].
  - rewrite IH. split; [done|by intros [_ ?]].
  - split; [done|by intros [? _]].
Qed.

Lemma dirs_ok_insert fs k x ds :
  Forall (fun a => a <> k) ds -> dirs_ok (<[k := x]> fs) ds = dirs_ok fs ds.
Proof.
  induction 1 as [|d ds Hd _ IH]; simpl; [done|].
  by rewrite fs_node_insert_ne, IH.
Qed.

(** What [MkdirAll] leaves behind: on success every directory of the
    chain exists, nothing that existed has changed and nothing outside
    the chain has appeared; it fails only on a file in the way. *)
Lemma fs_mkdir_chain_spec ds : forall fs,
  match fs_mkdir_chain fs ds with
  | Ok fs' =>
      Forall (fun d => fs_node fs' d = Some Directory) ds /\
      (forall k, fs_node fs k <> None -> fs_node fs' k = fs_node fs k) /\
      (forall k, k ∉ ds -> fs_node fs' k = fs_node fs k)
  | Err e =>
      e = ENOTDIR /\ exists d c, d ∈ ds /\ fs_node fs d = Some (File c)
  end.
Proof.
  induction ds as [|d ds IH]; intros fs; simpl.
  { by repeat split. }
  destruct (fs_node fs d) as [[c|]|] eqn:Hd.
  - split; [done|]. exists d, c. split; [by left|done].
  - specialize (IH fs). destruct (fs_mkdir_chain fs ds) as [fs'|e].
    + destruct IH as (Hds & Hkeep & Hout). repeat split.
      * constructor; [|done]. rewrite Hkeep; [done|by rewrite Hd].
      * done.
      * intros k Hk. apply Hout. by intros ?; apply Hk; right.
    + destruct IH as (-> & d' & c & Hin & Hf). split; [done|].
      exists d', c. split; [by right|done].
  - pose proof (fs_node_None_not_root _ _ Hd) as Hroot.
    specialize (IH (<[d := Directory]> fs)).
    destruct (fs_mkdir_chain (<[d := Directory]> fs) ds) as [fs'|e].
    + destruct IH as (Hds & Hkeep & Hout). repeat split.
      * constructor; [|done].
        rewrite Hkeep; rewrite fs_node_insert_eq; done.
      * intros k Hk. assert (k <> d) by congruence.
        rewrite Hkeep; rewrite fs_node_insert_ne; done.
      * intros k Hk. assert (k <> d) by (intros ->; apply Hk; by left).
        rewrite Hout; [by rewrite fs_node_insert_ne|].
        by intros ?; apply Hk; right.
    + destruct IH as (-> & d' & c & Hin & Hf). split; [done|].
      exists d', c. split; [by right|].
      rewrite fs_node_insert_ne in Hf; [done|].
      intros ->. by rewrite fs_node_insert_eq in Hf.
Qed.

(** With nothing to create, [MkdirAll] changes nothing. *)
Lemma fs_mkdir_chain_present fs ds :
  Forall (fun d => fs_node fs d = Some Directory) ds ->
  fs_mkdir_chain fs ds = Ok fs.
Proof. induction 1 as [|d ds Hd _ IH]; simpl; [done|]. by rewrite Hd. Qed.

Lemma fs_write_inv fs k c fs' :
  fs_write fs k c = Ok fs' ->
  fs' = <[k := File c]> fs /\ k <> [] /\
  dirs_ok fs (ancestors k) = None /\ fs_node fs k <> Some Directory.
Proof.
  unfold fs_write. destruct (dirs_ok fs (ancestors k)) eqn:Hd; [done|].
  destruct (fs_node fs k) as [[old|]|] eqn:Hk; intros [= <-];
    (repeat split; [by intros ->|done]).
Qed.

(** What was written is what is read back. *)
Lemma fs_write_read fs k c fs' :
  fs_write fs k c = Ok fs' -> fs_read fs' k = Ok c.
Proof.
  intros (-> & Hroot & Hd & _)%fs_write_inv. unfold fs_read.
  rewrite dirs_ok_insert by apply ancestors_ne. rewrite Hd.
  by rewrite fs_node_insert_eq.
Qed.

Lemma fs_read_inv fs k c :
  fs_read fs k = Ok c ->
  dirs_ok fs (ancestors k) = None /\ fs_node fs k = Some (File c).
Proof.
  unfold fs_read. destruct (dirs_ok fs (ancestors k)); [done|].
  by destruct (fs_node fs k) as [[?|]|]; intros [= ->].
Qed.

(** An existing file can always be overwritten. *)
Lemma fs_read_write fs k old c :
  fs_read fs k = Ok old -> fs_write fs k c = Ok (<[k := File c]> fs).
Proof.
  intros [Hd Hk]%fs_read_inv. unfold fs_write. by rewrite Hd, Hk.
Qed.

(** After [MkdirAll] of the parent, a write below it can only fail on a
    directory standing where the file should go. *)
Lemma fs_mkdir_then_write fs d f fs1 c :
  fs_mkdir_all fs d = Ok fs1 ->
  fs_write fs1 (d ++ [f]) c =
    match fs_node fs (d ++ [f]) with
    | Some Directory => Err EISDIR
    | _ => Ok (<[d ++ [f] := File c]> fs1)
    end.
Proof.
  intros Hm. pose proof (fs_mkdir_chain_spec (chain d) fs) as Hspec.
  unfold fs_mkdir_all in Hm. rewrite Hm in Hspec.
  destruct Hspec as (Hds & _ & Hout).
  unfold fs_write. rewrite ancestors_snoc.
  assert (Hall : dirs_ok fs1 ([] :: chain d) = None).
  { apply dirs_ok_None. by constructor. }
  rewrite Hall, Hout; [done|].
  intros (n & Heq & [_ Hn]%in_seq)%list_elem_of_In%in_map_iff.
  apply (f_equal length) in Heq.
  rewrite length_take, length_app in Heq. simpl in Heq. lia.
Qed.
End FileTree.

(** ** Running the engine *)

Section Run.
Context `{Externals}.
Implicit Types (w : world) (t : testing_T).
Local Arguments filepath_Join : simpl never.
Local Arguments filepath_Dir : simpl never.
Local Arguments resolve : simpl never.

(** The world as the body of [snapshot] sees it: its own frame is on the
    stack. *)
Definition in_snapshot (w : world) : world :=
  set_frames (snapshot_go :: w_frames w) w.

(** What [snapshotPath] gives [snapshot] in the world [w]. *)
Definition resolved_path (name : string) (callerSkip : nat) (w : world)
  : outcome string :=
  fst (snapshotPath name callerSkip (in_snapshot w)).

Lemma set_frames_id w : set_frames (w_frames w) w = w.
Proof. by destruct w. Qed.

Lemma set_frames_twice fr fr' w : set_frames fr (set_frames fr' w) = set_frames fr w.
Proof. by destruct w. Qed.

(** [snapshotPath] reads the world and leaves it as it was. *)
Lemma snapshotPath_world name callerSkip w :
  snd (snapshotPath name callerSkip w) = w.
Proof.
  unfold snapshotPath, call, mbind, M_bind, get, runtime_Caller, mret, M_ret,
    panic, set_frames.
  destruct w as [fs cwd env upd base fr rep]; simpl.
  destruct (String.eqb base ""); simpl; [|done].
  by destruct ((snapshot_go :: fr) !! callerSkip).
Qed.

Lemma snapshotPath_run name callerSkip w :
  snapshotPath name callerSkip (in_snapshot w) =
  (resolved_path name callerSkip w, in_snapshot w).
Proof.
  unfold resolved_path. rewrite <- (snapshotPath_world name callerSkip) at 3.
  by destruct (snapshotPath _ _ _).
Qed.

(** The directory the baselines of this call live in. *)
Definition base_dir (callerSkip : nat) (w : world) : option string :=
  if String.eqb (snapshotBaseDir w) "" then
    file ← (snapshot_go :: snapshot_go :: w_frames w) !! callerSkip;
    Some (filepath_Join [filepath_Dir file; "testdata"; "snapshots"])
  else Some (snapshotBaseDir w).

Lemma resolved_path_eq name callerSkip w :
  resolved_path name callerSkip w =
  match base_dir callerSkip w with
  | Some base => Returned (filepath_Join [base; name +:+ ".golden"])
  | None => Panicked "tuitestkit: cannot determine caller file for snapshot path"
  end.
Proof.
  unfold resolved_path, base_dir, snapshotPath, in_snapshot, call, mbind,
    M_bind, get, runtime_Caller, mret, M_ret, panic, set_frames.
  destruct w as [fs cwd env upd base fr rep]; simpl.
  destruct (String.eqb base ""); simpl; [|done].
  by destruct ((snapshot_go :: snapshot_go :: fr) !! callerSkip).
Qed.

Lemma base_dir_nonempty callerSkip w base :
  base_dir callerSkip w = Some base -> base <> "".
Proof.
  unfold base_dir. destruct (String.eqb_spec (snapshotBaseDir w) "").
  - destruct (_ !! callerSkip) as [file|]; [|done]. simpl. intros [= <-].
    apply Join_nonempty, Dir_nonempty.
  - by intros [= <-].
Qed.

(** The resolved path names a place directly inside the place its
    directory names. *)
Lemma resolved_path_parent name callerSkip w path :
  resolved_path name callerSkip w = Returned path ->
  exists file,
    resolve (w_cwd w) path = resolve (w_cwd w) (filepath_Dir path) ++ [file].
Proof.
  rewrite resolved_path_eq.
  destruct (base_dir callerSkip w) as [base|] eqn:Hb; [|done].
  intros [= <-]. by eapply golden_path_parent, base_dir_nonempty.
Qed.

(** [snapshot] in update mode, as one expression. *)
Lemma snapshot_update t content name callerSkip w path :
  UpdateSnapshots w = true ->
  resolved_path name callerSkip w = Returned path ->
  snapshot t content name callerSkip w =
  let dir := filepath_Dir path in
  match fs_mkdir_all (w_fs w) (resolve (w_cwd w) dir) with
  | Err e =>
      (FailNow,
       add_report t (Fatalf (msg_cannot_create dir (mkPathError "mkdir" dir e))) w)
  | Ok fs1 =>
      match fs_write fs1 (resolve (w_cwd w) path) content with
      | Err e =>
          (FailNow,
           add_report t
             (Fatalf (msg_cannot_write path (mkPathError "open" path e)))
             (set_fs fs1 w))
      | Ok fs2 => (Returned (), set_fs fs2 w)
      end
  end.
Proof.
  intros Hupd Hpath. unfold snapshot, call.
  fold (in_snapshot w). unfold mbind at 1, M_bind at 1, t_Helper, mret at 1, M_ret at 1.
  unfold mbind at 1, M_bind at 1. rewrite snapshotPath_run, Hpath.
  unfold mbind, M_bind, get, os_MkdirAll, os_WriteFile, t_Fatalf, mret, M_ret,
    in_snapshot, set_frames, set_fs, add_report.
  destruct w as [fs cwd env upd base fr rep]; simpl in *. subst upd.
  cbv zeta.
  destruct (fs_mkdir_all fs (resolve cwd (filepath_Dir path))) as [fs1|e] eqn:Hm;
    simpl; rewrite ?Hm; simpl; [|done].
  by destruct (fs_write fs1 (resolve cwd path) content) as [fs2|e] eqn:Hw;
    simpl; rewrite ?Hw.
Qed.

(** [snapshot] in compare mode, as one expression. *)
Lemma snapshot_compare t content name callerSkip w path :
  UpdateSnapshots w = false ->
  resolved_path name callerSkip w = Returned path ->
  snapshot t content name callerSkip w =
  match fs_read (w_fs w) (resolve (w_cwd w) path) with
  | Err e =>
      (FailNow,
       add_report t
         (Fatalf (if bool_decide (e = ENOENT) then msg_not_found name path
                  else msg_cannot_read name (mkPathError (read_op e) path e))) w)
  | Ok expected =>
      if String.eqb expected content then (Returned (), w)
      else (Returned (),
            add_report t (Errorf (msg_mismatch name (unifiedDiff expected content))) w)
  end.
Proof.
  intros Hupd Hpath. unfold snapshot, call.
  fold (in_snapshot w). unfold mbind at 1, M_bind at 1, t_Helper, mret at 1, M_ret at 1.
  unfold mbind at 1, M_bind at 1. rewrite snapshotPath_run, Hpath.
  unfold mbind, M_bind, get, os_ReadFile, t_Fatalf, t_Errorf, mret, M_ret,
    os_IsNotExist, in_snapshot, set_frames, set_fs, add_report.
  destruct w as [fs cwd env upd base fr rep]; simpl in *. subst upd.
  destruct (fs_read fs (resolve cwd path)) as [expected|e] eqn:Hr;
    simpl; rewrite ?Hr; simpl.
  - by destruct (String.eqb expected content).
  - by destruct (bool_decide (e = ENOENT)).
Qed.

(** When the caller cannot be found the engine panics before it touches
    anything. *)
Lemma snapshot_panics t content name callerSkip w msg :
  resolved_path name callerSkip w = Panicked msg ->
  snapshot t content name callerSkip w = (Panicked msg, w).
Proof.
  intros Hpath. unfold snapshot, call.
  fold (in_snapshot w). unfold mbind at 1, M_bind at 1, t_Helper, mret at 1, M_ret at 1.
  unfold mbind at 1, M_bind at 1. rewrite snapshotPath_run, Hpath.
  by destruct w.
Qed.

Lemma resolved_path_cases name callerSkip w :
  (exists path, resolved_path name callerSkip w = Returned path) \/
  (exists msg, resolved_path name callerSkip w = Panicked msg).
Proof.
  rewrite resolved_path_eq. destruct (base_dir callerSkip w); eauto.
Qed.
End Run.

(** ** Facts about [strings.Contains] *)

Section Contains.
Implicit Types (s p sub : string).

Lemma HasPrefix_app sub s : strings_HasPrefix (sub +:+ s) sub = true.
Proof.
  induction sub as [|b sub IH]; [by destruct s|].
  rewrite append_cons. simpl. by rewrite Ascii.eqb_refl.
Qed.

Lemma Contains_prefix s sub :
  strings_HasPrefix s sub = true -> strings_Contains s sub = true.
Proof. intros Hp. destruct s; simpl in *; by rewrite Hp. Qed.

Lemma Contains_here sub s : strings_Contains (sub +:+ s) sub = true.
Proof. apply Contains_prefix, HasPrefix_app. Qed.

Lemma Contains_app_r p s sub :
  strings_Contains s sub = true -> strings_Contains (p +:+ s) sub = true.
Proof.
  intros Hs. induction p as [|b p IH]; [done|].
  rewrite append_cons. simpl. rewrite IH. apply orb_true_r.
Qed.

(** A text contains each of the pieces it was put together from. *)
Lemma Contains_middle p sub s : strings_Contains (p +:+ sub +:+ s) sub = true.
Proof. apply Contains_app_r, Contains_here. Qed.
End Contains.

(** ** The update/compare state machine *)

(** The same call made [n] times in a row. *)
Fixpoint times (n : nat) (call : M unit) : M unit :=
  match n with
  | 0 => mret ()
  | S n' => call;; times n' call
  end.

Section Engine_facts.
Context `{Externals}.
Implicit Types (w : world) (t : testing_T).
Local Arguments filepath_Join : simpl never.
Local Arguments filepath_Dir : simpl never.
Local Arguments resolve : simpl never.

Lemma resolved_path_set_fs name callerSkip fs w :
  resolved_path name callerSkip (set_fs fs w) = resolved_path name callerSkip w.
Proof. rewrite !resolved_path_eq. by destruct w. Qed.

Lemma resolved_path_set_UpdateSnapshots name callerSkip b w :
  resolved_path name callerSkip (set_UpdateSnapshots b w)
  = resolved_path name callerSkip w.
Proof. rewrite !resolved_path_eq. by destruct w. Qed.

(** An update-mode call that returns has written the file. *)
Lemma snapshot_update_returned t content name callerSkip w w1 :
  UpdateSnapshots w = true ->
  snapshot t content name callerSkip w = (Returned (), w1) ->
  exists path fs1 fs2,
    resolved_path name callerSkip w = Returned path /\
    fs_mkdir_all (w_fs w) (resolve (w_cwd w) (filepath_Dir path)) = Ok fs1 /\
    fs_write fs1 (resolve (w_cwd w) path) content = Ok fs2 /\
    w1 = set_fs fs2 w.
Proof.
  intros Hupd Hrun.
  destruct (resolved_path_cases name callerSkip w) as [[path Hp]|[msg Hp]].
  - rewrite (snapshot_update _ _ _ _ _ _ Hupd Hp) in Hrun. cbv zeta in Hrun.
    destruct (fs_mkdir_all _ _) as [fs1|e] eqn:Hm; [|done].
    destruct (fs_write fs1 _ _) as [fs2|e] eqn:Hw; [|done].
    injection Hrun as <-. by exists path, fs1, fs2.
  - by rewrite (snapshot_panics _ _ _ _ _ _ Hp) in Hrun.
Qed.

(** A compare-mode call against a baseline equal to the candidate. *)
Lemma snapshot_compare_equal t content name callerSkip w path :
  UpdateSnapshots w = false ->
  resolved_path name callerSkip w = Returned path ->
  fs_read (w_fs w) (resolve (w_cwd w) path) = Ok content ->
  snapshot t content name callerSkip w = (Returned (), w).
Proof.
  intros Hupd Hpath Hread.
  rewrite (snapshot_compare _ _ _ _ _ _ Hupd Hpath), Hread.
  by rewrite String.eqb_refl.
Qed.

(** A compare-mode call can only add one report to the test log. *)
Lemma snapshot_compare_world t content name callerSkip w :
  UpdateSnapshots w = false ->
  snd (snapshot t content name callerSkip w) = w \/
  exists r, snd (snapshot t content name callerSkip w) = add_report t r w.
Proof.
  intros Hupd.
  destruct (resolved_path_cases name callerSkip w) as [[path Hp]|[msg Hp]].
  - rewrite (snapshot_compare _ _ _ _ _ _ Hupd Hp).
    destruct (fs_read _ _) as [expected|e]; [|by eauto].
    destruct (String.eqb expected content); eauto.
  - rewrite (snapshot_panics _ _ _ _ _ _ Hp). eauto.
Qed.

Lemma add_report_fs t r w : w_fs (add_report t r w) = w_fs w.
Proof. done. Qed.

(** C1: in update mode ([UpdateSnapshots] true) a snapshot call creates
    the missing parent directories of the resolved path and writes the
    candidate as the whole content of the file, replacing a baseline that
    was there; it compares nothing and reports no failure when the I/O
    succeeds, and a baseline being there before is never an error.  Two
    parts: (a) when [MkdirAll] and [WriteFile] succeed the call returns, the
    test log is untouched, the file tree is the one [MkdirAll] left with
    the file put in place of whatever stood at the path, every directory
    above the file exists and the file reads back as the candidate; (b) the
    call returns exactly when the two calls succeed: the engine has no
    reason of its own to fail, and none that looks at the old content. *)
Theorem snapshot_update_mode t content name callerSkip w path :
  UpdateSnapshots w = true ->
  resolved_path name callerSkip w = Returned path ->
  let dir := resolve (w_cwd w) (filepath_Dir path) in
  let key := resolve (w_cwd w) path in
  (forall fs1 fs2,
     fs_mkdir_all (w_fs w) dir = Ok fs1 ->
     fs_write fs1 key content = Ok fs2 ->
     snapshot t content name callerSkip w = (Returned (), set_fs fs2 w) /\
     w_reports (set_fs fs2 w) = w_reports w /\
     fs2 = <[key := File content]> fs1 /\
     Forall (fun d => fs_node fs2 d = Some Directory) (ancestors key) /\
     fs_read fs2 key = Ok content) /\
  (fst (snapshot t content name callerSkip w) = Returned () <->
   exists fs1 fs2,
     fs_mkdir_all (w_fs w) dir = Ok fs1 /\ fs_write fs1 key content = Ok fs2).
Proof.
  intros Hupd Hpath dir key.
  pose proof (snapshot_update t content _ _ _ _ Hupd Hpath) as Hrun.
  cbv zeta in Hrun. fold dir key in Hrun.
  split.
  - intros fs1 fs2 Hm Hw. rewrite Hm, Hw in Hrun.
    destruct (fs_write_inv _ _ _ _ Hw) as (Hfs2 & _ & Hdirs & _).
    repeat split; [done|done| |by eapply fs_write_read].
    apply dirs_ok_None. rewrite Hfs2, dirs_ok_insert; [done|apply ancestors_ne].
  - rewrite Hrun.
    destruct (fs_mkdir_all (w_fs w) dir) as [fs1|e].
    + destruct (fs_write fs1 key content) as [fs2|e] eqn:Hw; simpl.
      * split; [by exists fs1, fs2|done].
      * split; [done|]. intros (fs1' & fs2 & [= <-] & Hw'). congruence.
    + simpl. split; [done|]. by intros (? & ? & ? & _).
Qed.
(** C2 (amended to what the code does): in compare mode, when the read of the resolved
    path reports that nothing exists there, the call fails fatally (one
    [Fatalf], the test stops) for every candidate, the empty one included;
    the message names the resolved path and tells the operator to run with
    UPDATE_SNAPSHOTS=1.  Nothing else in the world changes. *)
Theorem snapshot_missing_baseline t content name callerSkip w path :
  UpdateSnapshots w = false ->
  resolved_path name callerSkip w = Returned path ->
  fs_read (w_fs w) (resolve (w_cwd w) path) = Err ENOENT ->
  let msg := msg_not_found name path in
  snapshot t content name callerSkip w = (FailNow, add_report t (Fatalf msg) w) /\
  strings_Contains msg path = true /\
  strings_Contains msg "UPDATE_SNAPSHOTS=1" = true /\
  strings_Contains msg "Run with UPDATE_SNAPSHOTS=1 to create it." = true.
Proof.
  intros Hupd Hpath Hread msg.
  rewrite (snapshot_compare _ _ _ _ _ _ Hupd Hpath), Hread. split; [done|].
  subst msg. unfold msg_not_found. repeat split.
  - do 3 apply Contains_app_r. apply Contains_here.
  - by do 4 apply Contains_app_r.
  - by do 4 apply Contains_app_r.
Qed.

(** C3: in compare mode, when the stored baseline is exactly the candidate,
    the call returns, reports nothing and changes nothing; so the same call
    made any number of times in a row never fails. *)
Theorem snapshot_matched t content name callerSkip w path :
  UpdateSnapshots w = false ->
  resolved_path name callerSkip w = Returned path ->
  fs_read (w_fs w) (resolve (w_cwd w) path) = Ok content ->
  snapshot t content name callerSkip w = (Returned (), w) /\
  forall n, times n (snapshot t content name callerSkip) w = (Returned (), w).
Proof.
  intros Hupd Hpath Hread.
  pose proof (snapshot_compare_equal t _ _ _ _ _ Hupd Hpath Hread) as Hone.
  split; [done|]. induction n as [|n IH]; [done|].
  simpl. unfold mbind, M_bind. by rewrite Hone.
Qed.

(** C4: an update-mode call with (N, C) that returned, followed at once by
    a compare-mode call with (N, C), matches: the second call returns,
    reports nothing and changes nothing, because the baseline it reads is
    the text the first call wrote. *)
Theorem snapshot_update_then_compare t content name callerSkip w w1 :
  UpdateSnapshots w = true ->
  snapshot t content name callerSkip w = (Returned (), w1) ->
  let w2 := set_UpdateSnapshots false w1 in
  snapshot t content name callerSkip w2 = (Returned (), w2) /\
  exists path,
    resolved_path name callerSkip w2 = Returned path /\
    fs_read (w_fs w2) (resolve (w_cwd w2) path) = Ok content.
Proof.
  intros Hupd Hrun w2.
  destruct (snapshot_update_returned _ _ _ _ _ _ Hupd Hrun)
    as (path & fs1 & fs2 & Hpath & Hm & Hw & ->).
  assert (Hpath2 : resolved_path name callerSkip w2 = Returned path).
  { subst w2. by rewrite resolved_path_set_UpdateSnapshots, resolved_path_set_fs. }
  assert (Hread : fs_read (w_fs w2) (resolve (w_cwd w2) path) = Ok content).
  { subst w2. destruct w; simpl in *. by eapply fs_write_read. }
  split; [|by exists path].
  by apply (snapshot_compare_equal _ _ _ _ _ path).
Qed.

(** C10: in compare mode a snapshot call writes nothing, creates nothing
    and deletes nothing, however it ends (match, mismatch, missing
    baseline, read error, or a panic while resolving the path): the file
    tree after the call is the file tree before it, and the only thing
    that can change at all is the test log, by one report. *)
Theorem snapshot_compare_frame t content name callerSkip w :
  UpdateSnapshots w = false ->
  let w' := snd (snapshot t content name callerSkip w) in
  w_fs w' = w_fs w /\
  (w' = w \/ exists r, w' = add_report t r w).
Proof.
  intros Hupd w'. subst w'.
  destruct (snapshot_compare_world t content name callerSkip w Hupd)
    as [->|[r ->]]; [by eauto|].
  split; [done|]. eauto.
Qed.
(** The directory [snapshotPath] puts baselines in, from the frames on the
    stack when it asks [runtime.Caller]. *)
Definition dir_for (frames : list string) (callerSkip : nat) (baseDir : string)
  : option string :=
  if String.eqb baseDir "" then
    file ← frames !! callerSkip;
    Some (filepath_Join [filepath_Dir file; "testdata"; "snapshots"])
  else Some baseDir.

Lemma dir_for_nonempty frames callerSkip baseDir base :
  dir_for frames callerSkip baseDir = Some base -> base <> "".
Proof.
  unfold dir_for. destruct (String.eqb_spec baseDir "").
  - destruct (frames !! callerSkip) as [file|]; [|done]. simpl. intros [= <-].
    apply Join_nonempty, Dir_nonempty.
  - by intros [= <-].
Qed.

Lemma snapshotPath_eq name callerSkip w :
  snapshotPath name callerSkip w =
  (match dir_for (snapshot_go :: w_frames w) callerSkip (snapshotBaseDir w) with
   | Some base => Returned (filepath_Join [base; name +:+ ".golden"])
   | None => Panicked "tuitestkit: cannot determine caller file for snapshot path"
   end, w).
Proof.
  unfold dir_for, snapshotPath, call, mbind, M_bind, get, runtime_Caller,
    mret, M_ret, panic, set_frames.
  destruct w as [fs cwd env upd base fr rep]; simpl.
  destruct (String.eqb base ""); simpl; [|done].
  by destruct ((snapshot_go :: fr) !! callerSkip).
Qed.

(** C7 (amended to what the code does): [snapshotPath] does not sanitize the name.  The
    resolved path is [filepath.Join] of the directory and the name followed
    by [.golden]: the text [dir/name.golden] with the name put in as it is,
    then cleaned lexically, so that the place it names in the file tree is
    the place that text names (a separator in the name goes down into a
    directory).  The directory is [snapshotBaseDir] when that is set, else
    [testdata/snapshots] next to the caller's source file; with no caller
    to be found the function panics. *)
Theorem snapshotPath_joins_name name callerSkip w :
  let dir := dir_for (snapshot_go :: w_frames w) callerSkip (snapshotBaseDir w) in
  snd (snapshotPath name callerSkip w) = w /\
  match dir with
  | Some base =>
      let raw := base +:+ String slash (name +:+ ".golden") in
      fst (snapshotPath name callerSkip w) = Returned (filepath_Clean raw) /\
      forall cwd, resolve cwd (filepath_Clean raw) = resolve cwd raw
  | None =>
      fst (snapshotPath name callerSkip w) =
      Panicked "tuitestkit: cannot determine caller file for snapshot path"
  end.
Proof.
  intros dir. rewrite snapshotPath_eq. fold dir. split; [done|].
  destruct dir as [base|] eqn:Hdir; [|done].
  apply dir_for_nonempty, String.eqb_neq in Hdir.
  split; [|intros cwd; apply resolve_Clean].
  simpl. unfold filepath_Join. by rewrite Hdir.
Qed.

(** Running an entry point is running [snapshot] for the caller: the frame
    of the entry point is what the skip count 3 steps over. *)
Lemma entry_point_frame t content name w :
  call snapshot_go (t_Helper t;; snapshot t content name 3) w =
  snapshot t content name 2 w.
Proof.
  unfold call at 1. unfold mbind, M_bind, t_Helper, mret, M_ret.
  set (w3 := set_frames (snapshot_go :: w_frames w) w).
  assert (Hpath : resolved_path name 3 w3 = resolved_path name 2 w).
  { rewrite !resolved_path_eq. by destruct w. }
  assert (Hpop : forall fs, set_frames (w_frames w) (set_fs fs w3) = set_fs fs w)
    by (by destruct w).
  assert (Hrep : forall r, set_frames (w_frames w) (add_report t r w3) = add_report t r w)
    by (by destruct w).
  destruct (resolved_path_cases name 2 w) as [[path Hp]|[msg Hp]].
  - destruct (UpdateSnapshots w) eqn:Hupd.
    + rewrite (snapshot_update t content name 2 w path Hupd Hp).
      rewrite (snapshot_update t content name 3 w3 path);
        [|by destruct w|by rewrite Hpath].
      cbv zeta. replace (w_fs w3) with (w_fs w) by (by destruct w).
      replace (w_cwd w3) with (w_cwd w) by (by destruct w).
      destruct (fs_mkdir_all _ _) as [fs1|e]; [|by rewrite Hrep].
      destruct (fs_write _ _ _) as [fs2|e]; [by rewrite Hpop|].
      subst w3. by destruct w.
    + rewrite (snapshot_compare t content name 2 w path Hupd Hp).
      rewrite (snapshot_compare t content name 3 w3 path);
        [|by destruct w|by rewrite Hpath].
      replace (w_fs w3) with (w_fs w) by (by destruct w).
      replace (w_cwd w3) with (w_cwd w) by (by destruct w).
      destruct (fs_read _ _) as [expected|e]; [|by rewrite Hrep].
      destruct (String.eqb expected content); [|by rewrite Hrep].
      subst w3. by destruct w.
  - rewrite (snapshot_panics t content name 2 w msg Hp).
    rewrite (snapshot_panics t content name 3 w3 msg); [|by rewrite Hpath].
    subst w3. by destruct w.
Qed.

(** C9: [SnapshotStr] on a view is [SnapshotStrRaw] on the stripped view,
    and [SnapshotView] on a model is [SnapshotStrRaw] on the stripped
    [View()] of the model; each of the four entry points is one call of
    the core function [snapshot] with skip count 3, which runs [snapshot]
    for the entry point's caller, and they differ only in whether
    [StripANSI] is applied to the text first. *)
Theorem entry_points_reduce `{tea_Model Mo} t (view : string) (model : Mo) name w :
  SnapshotStr t view name w = SnapshotStrRaw t (StripANSI view) name w /\
  SnapshotView t model name w = SnapshotStrRaw t (StripANSI (View model)) name w /\
  SnapshotViewRaw t model name w = SnapshotStrRaw t (View model) name w /\
  SnapshotStrRaw t view name w =
    call snapshot_go (t_Helper t;; snapshot t view name 3) w /\
  SnapshotStrRaw t view name w = snapshot t view name 2 w /\
  SnapshotStr t view name w = snapshot t (StripANSI view) name 2 w /\
  SnapshotView t model name w = snapshot t (StripANSI (View model)) name 2 w /\
  SnapshotViewRaw t model name w = snapshot t (View model) name 2 w.
Proof.
  repeat split; try done; apply entry_point_frame.
Qed.

(** C8 (amended to what the code does): at process start [init] turns the switch on
    exactly when the environment variable UPDATE_SNAPSHOTS holds the text
    1 (any other value, such as true or yes, leaves it off); the switch is
    the settable global [UpdateSnapshots], an assignment replaces whatever
    [init] or an earlier assignment left, and every snapshot call acts on
    the value the switch holds when it is made: off, it leaves the file
    tree alone; on, a call that returns has stored the candidate. *)
Theorem init_switch fs cwd environ frames :
  let w0 := fresh_process fs cwd environ frames in
  let value := default "" (environ !! "UPDATE_SNAPSHOTS") in
  init w0 = (Returned (), set_UpdateSnapshots (bool_decide (value = "1")) w0) /\
  (forall b w,
     assign_UpdateSnapshots b w = (Returned (), set_UpdateSnapshots b w) /\
     UpdateSnapshots (set_UpdateSnapshots b w) = b) /\
  (forall b b' w,
     set_UpdateSnapshots b (set_UpdateSnapshots b' w) = set_UpdateSnapshots b w) /\
  (forall b, set_UpdateSnapshots b (snd (init w0)) = set_UpdateSnapshots b w0) /\
  (forall t content name callerSkip w,
     (UpdateSnapshots w = false ->
      w_fs (snd (snapshot t content name callerSkip w)) = w_fs w) /\
     (UpdateSnapshots w = true ->
      forall w1, snapshot t content name callerSkip w = (Returned (), w1) ->
      exists path,
        resolved_path name callerSkip w = Returned path /\
        fs_read (w_fs w1) (resolve (w_cwd w1) path) = Ok content)).
Proof.
  intros w0 value.
  assert (Hinit : init w0 =
    (Returned (), set_UpdateSnapshots (bool_decide (value = "1")) w0)).
  { unfold init, mbind, M_bind, os_Getenv, get. simpl. fold value.
    destruct (String.eqb_spec value "1") as [Heq|Hne].
    - by rewrite bool_decide_eq_true_2.
    - by rewrite bool_decide_eq_false_2. }
  split; [done|]. split; [by intros b [] |]. split; [by intros b b' [] |].
  split; [by rewrite Hinit|].
  intros t content name callerSkip w. split.
  - intros Hupd.
    by destruct (snapshot_compare_world t content name callerSkip w Hupd)
      as [->|[r ->]].
  - intros Hupd w1 Hrun.
    destruct (snapshot_update_returned _ _ _ _ _ _ Hupd Hrun)
      as (path & fs1 & fs2 & Hpath & Hm & Hw & ->).
    exists path. split; [done|]. destruct w; simpl in *.
    by eapply fs_write_read.
Qed.
End Engine_facts.

(** ** The engine at work on concrete worlds *)

Global Existing Instance example_externals.

(** A test in [/proj/ui/board_test.go] calls an entry point; nothing is on
    disk yet, the switch is on. *)
Definition w_first_run : world :=
  set_UpdateSnapshots true
    (fresh_process ∅ [] ∅ ["/proj/ui/board_test.go"; "/go/src/testing/testing.go"]).

(** A test that keeps its baselines in [/tmp/snaps], which exists and is
    empty; the switch is off. *)
Definition w_empty_dir : world :=
  set_snapshotBaseDir "/tmp/snaps"
    (fresh_process (<[["tmp"; "snaps"] := Directory]> (<[["tmp"] := Directory]> ∅))
       [] ∅ ["/proj/ui/board_test.go"]).

(** The same test, but [/tmp/snaps] is a regular file: no baseline can
    exist below it. *)
Definition w_blocked : world :=
  set_snapshotBaseDir "/tmp/snaps"
    (fresh_process (<[["tmp"; "snaps"] := File "oops"]> (<[["tmp"] := Directory]> ∅))
       [] ∅ ["/proj/ui/board_test.go"]).

(** The same, with the baseline [ab] holding the two lines a and b. *)
Definition w_baseline : world :=
  set_fs (<[["tmp"; "snaps"; "ab.golden"] := File ("a" +:+ String nl "b")]> (w_fs w_empty_dir))
    w_empty_dir.

(** What the first run leaves behind. *)
Definition w_after_first_run : world :=
  snd (snapshot "TestBoard" "hello" "basic" 2 w_first_run).

Definition golden_basic : string := "/proj/ui/testdata/snapshots/basic.golden".

Lemma snapshot_update_mode_witness :
  UpdateSnapshots w_first_run = true /\
  resolved_path "basic" 2 w_first_run = Returned golden_basic /\
  exists w1,
    snapshot "TestBoard" "hello" "basic" 2 w_first_run = (Returned (), w1) /\
    fs_read (w_fs w1) (resolve [] golden_basic) = Ok "hello" /\
    fs_node (w_fs w1) ["proj"; "ui"; "testdata"; "snapshots"] = Some Directory.
Proof.
  split; [reflexivity|]. split; [reflexivity|].
  destruct (snapshot_update_mode "TestBoard" "hello" "basic" 2 w_first_run
              golden_basic eq_refl eq_refl) as (Ha & _).
  destruct (Ha _ _ eq_refl eq_refl) as (Hrun & _ & _ & Hdirs & Hread).
  eexists. split; [exact Hrun|]. split; [exact Hread|].
  vm_compute. reflexivity.
Defined.

Definition golden_x : string := "/tmp/snaps/x.golden".

(** With the baseline missing, the message of the fatal failure names the
    path and says UPDATE_SNAPSHOTS=1; the word update in lower case is not
    in it.  And when no baseline exists because a file stands where its
    directory should be, the read error is not a not-exist error: the call
    is still fatal, but its message is the read error and gives no
    instruction at all. *)
Lemma missing_message_has_no_lowercase_update :
  UpdateSnapshots w_empty_dir = false /\
  resolved_path "x" 1 w_empty_dir = Returned golden_x /\
  fs_read (w_fs w_empty_dir) (resolve (w_cwd w_empty_dir) golden_x) = Err ENOENT /\
  snapshot "TestX" "" "x" 1 w_empty_dir =
    (FailNow, add_report "TestX" (Fatalf (msg_not_found "x" golden_x)) w_empty_dir) /\
  strings_Contains (msg_not_found "x" golden_x) golden_x = true /\
  strings_Contains (msg_not_found "x" golden_x) "UPDATE" = true /\
  strings_Contains (msg_not_found "x" golden_x) "update" = false /\
  UpdateSnapshots w_blocked = false /\
  fs_node (w_fs w_blocked) (resolve (w_cwd w_blocked) golden_x) = None /\
  snapshot "TestX" "" "x" 1 w_blocked =
    (FailNow,
     add_report "TestX"
       (Fatalf (msg_cannot_read "x" (mkPathError "open" golden_x ENOTDIR))) w_blocked) /\
  strings_Contains (msg_cannot_read "x" (mkPathError "open" golden_x ENOTDIR))
    "UPDATE" = false /\
  strings_Contains (msg_cannot_read "x" (mkPathError "open" golden_x ENOTDIR))
    "update" = false.
Proof. repeat split; vm_compute; reflexivity. Qed.

Lemma snapshot_missing_baseline_witness :
  UpdateSnapshots w_empty_dir = false /\
  resolved_path "nonexistent" 1 w_empty_dir = Returned "/tmp/snaps/nonexistent.golden" /\
  fs_read (w_fs w_empty_dir)
    (resolve (w_cwd w_empty_dir) "/tmp/snaps/nonexistent.golden") = Err ENOENT /\
  fst (snapshot "TestMissing" "content" "nonexistent" 1 w_empty_dir) = FailNow /\
  strings_Contains (msg_not_found "nonexistent" "/tmp/snaps/nonexistent.golden")
    "UPDATE_SNAPSHOTS=1" = true.
Proof.
  split; [reflexivity|]. split; [reflexivity|]. split; [reflexivity|].
  destruct (snapshot_missing_baseline "TestMissing" "content" "nonexistent" 1
              w_empty_dir "/tmp/snaps/nonexistent.golden" eq_refl eq_refl eq_refl)
    as (Hrun & _ & Hupdate & _).
  split; [|exact Hupdate]. rewrite Hrun. reflexivity.
Defined.

Definition golden_ab : string := "/tmp/snaps/ab.golden".
Definition text_ab : string := "a" +:+ String nl "b".

Lemma snapshot_matched_witness :
  UpdateSnapshots w_baseline = false /\
  resolved_path "ab" 1 w_baseline = Returned golden_ab /\
  fs_read (w_fs w_baseline) (resolve (w_cwd w_baseline) golden_ab) = Ok text_ab /\
  times 3 (snapshot "TestAB" text_ab "ab" 1) w_baseline = (Returned (), w_baseline).
Proof.
  split; [reflexivity|]. split; [reflexivity|]. split; [reflexivity|].
  apply (snapshot_matched "TestAB" text_ab "ab" 1 w_baseline golden_ab
           eq_refl eq_refl eq_refl).
Defined.

Lemma snapshot_update_then_compare_witness :
  UpdateSnapshots w_first_run = true /\
  snapshot "TestBoard" "hello" "basic" 2 w_first_run = (Returned (), w_after_first_run) /\
  snapshot "TestBoard" "hello" "basic" 2 (set_UpdateSnapshots false w_after_first_run)
    = (Returned (), set_UpdateSnapshots false w_after_first_run).
Proof.
  split; [reflexivity|]. split; [vm_compute; reflexivity|].
  apply (snapshot_update_then_compare "TestBoard" "hello" "basic" 2
           w_first_run w_after_first_run eq_refl).
  vm_compute. reflexivity.
Defined.

Definition text_aXc_short : string := "a" +:+ String nl "X".

Lemma snapshot_compare_frame_witness :
  UpdateSnapshots w_baseline = false /\
  w_fs (snd (snapshot "TestAB" text_aXc_short "ab" 1 w_baseline)) = w_fs w_baseline /\
  w_fs (snd (snapshot "TestAB" "" "missing" 1 w_baseline)) = w_fs w_baseline.
Proof.
  split; [reflexivity|]. split.
  - apply (snapshot_compare_frame "TestAB" text_aXc_short "ab" 1 w_baseline eq_refl).
  - apply (snapshot_compare_frame "TestAB" "" "missing" 1 w_baseline eq_refl).
Defined.

Lemma contains_byte_app c s t :
  contains_byte c (s +:+ t) = contains_byte c s || contains_byte c t.
Proof.
  induction s as [|b s IH]; [done|]. rewrite append_cons. simpl.
  by rewrite IH, orb_assoc.
Qed.

(** A name with a separator is not turned into a safe basename: the
    baseline lands in a directory below the configured one, and a name
    that climbs with [..] leaves the configured directory altogether. *)
Lemma name_with_separator_is_not_sanitized :
  fst (snapshotPath "a/b" 1 w_empty_dir) = Returned "/tmp/snaps/a/b.golden" /\
  filepath_Dir "/tmp/snaps/a/b.golden" = "/tmp/snaps/a" /\
  resolve [] "/tmp/snaps/a/b.golden" = ["tmp"; "snaps"; "a"; "b.golden"] /\
  fst (snapshotPath "../../etc/motd" 1 w_empty_dir) = Returned "/etc/motd.golden" /\
  ~ (exists safe,
       contains_byte slash safe = false /\
       fst (snapshotPath "a/b" 1 w_empty_dir) =
       Returned ("/tmp/snaps" +:+ String slash (safe +:+ ".golden"))).
Proof.
  repeat split; try (vm_compute; reflexivity).
  intros (safe & Hfree & Heq).
  assert (Hpath : fst (snapshotPath "a/b" 1 w_empty_dir) = Returned "/tmp/snaps/a/b.golden")
    by (vm_compute; reflexivity).
  rewrite Hpath in Heq. injection Heq as Heq.
  apply (f_equal (contains_byte slash)) in Heq.
  rewrite contains_byte_app, Hfree in Heq. discriminate.
Qed.

(** Of the values one might call truthy only the text 1 turns the switch
    on at process start. *)
Lemma truthy_values_leave_compare_mode :
  UpdateSnapshots
    (snd (init (fresh_process ∅ [] {["UPDATE_SNAPSHOTS" := "true"]} []))) = false /\
  UpdateSnapshots
    (snd (init (fresh_process ∅ [] {["UPDATE_SNAPSHOTS" := "yes"]} []))) = false /\
  UpdateSnapshots
    (snd (init (fresh_process ∅ [] {["UPDATE_SNAPSHOTS" := "1"]} []))) = true /\
  UpdateSnapshots (snd (init (fresh_process ∅ [] ∅ []))) = false.
Proof. repeat split; vm_compute; reflexivity. Qed.

(** ** Tests of the package, replayed on the model *)

Definition esc : string := String "027" "".
Definition green_line : string := esc +:+ "[32mgreen" +:+ esc +:+ "[0m line".

Definition w_tempdir (update : bool) : world :=
  set_UpdateSnapshots update
    (set_snapshotBaseDir "/tmp/t1"
       (fresh_process (<[["tmp"] := Directory]> ∅) [] ∅
          ["/src/tuitestkit/snapshot_test.go"])).

Definition golden_in (w : world) (path : string) : result string :=
  fs_read (w_fs w) (resolve (w_cwd w) path).

Example TestSnapshotPath_WithBaseDir :
  fst (snapshotPath "my-view" 1
         (set_snapshotBaseDir "/tmp/test-snapshots" (w_tempdir false)))
  = Returned "/tmp/test-snapshots/my-view.golden".
Proof. vm_compute. reflexivity. Qed.

Example TestSnapshotPath_DefaultUsesRuntimeCaller :
  fst (snapshotPath "test-name" 1 (set_snapshotBaseDir "" (w_tempdir false)))
  = Returned "/src/tuitestkit/testdata/snapshots/test-name.golden".
Proof. vm_compute. reflexivity. Qed.

Example TestSnapshotView_Model :
  let model := {| view := green_line |} in
  let w1 := snd (SnapshotView "TestSnapshotView_Model" model "model-stripped"
                   (w_tempdir true)) in
  golden_in w1 "/tmp/t1/model-stripped.golden" = Ok "green line" /\
  SnapshotView "TestSnapshotView_Model" model "model-stripped"
    (set_UpdateSnapshots false w1) = (Returned (), set_UpdateSnapshots false w1).
Proof. split; vm_compute; reflexivity. Qed.

Example TestSnapshotViewRaw_Model :
  let model := {| view := green_line |} in
  let w1 := snd (SnapshotViewRaw "TestSnapshotViewRaw_Model" model "model-raw"
                   (w_tempdir true)) in
  golden_in w1 "/tmp/t1/model-raw.golden" = Ok green_line.
Proof. vm_compute. reflexivity. Qed.

Example TestSnapshot_UpdateOverwrites :
  let w1 := snd (SnapshotStr "TestSnapshot_UpdateOverwrites" "version 1" "overwrite"
                   (w_tempdir true)) in
  let '(r, w2) := SnapshotStr "TestSnapshot_UpdateOverwrites" "version 2" "overwrite" w1 in
  r = Returned () /\ w_reports w2 = [] /\
  golden_in w2 "/tmp/t1/overwrite.golden" = Ok "version 2".
Proof. vm_compute. by repeat split. Qed.

Example TestSnapshot_DirectoryAutoCreation :
  let w := set_snapshotBaseDir "/tmp/t1/nested/deep" (w_tempdir true) in
  let w1 := snd (SnapshotStr "TestSnapshot_DirectoryAutoCreation" "auto-created"
                   "nested-test" w) in
  golden_in w1 "/tmp/t1/nested/deep/nested-test.golden" = Ok "auto-created" /\
  fs_node (w_fs w1) ["tmp"; "t1"; "nested"; "deep"] = Some Directory.
Proof. split; vm_compute; reflexivity. Qed.

Example TestSnapshotStr_Mismatch :
  let w := set_fs (<[["tmp"; "t1"; "mm.golden"] := File "expected"]>
                     (<[["tmp"; "t1"] := Directory]> (w_fs (w_tempdir false))))
             (w_tempdir false) in
  let '(r, w1) := snapshot "TestSnapshotStr_Mismatch" "actual" "mm" 1 w in
  r = Returned () /\
  w_reports w1 =
    [("TestSnapshotStr_Mismatch",
      Errorf (msg_mismatch "mm"
                (diff_header +:+
                 render_entries [DiffEntry Removal 1 "expected";
                                 DiffEntry Addition 1 "actual"])))] /\
  w_fs w1 = w_fs w.
Proof. vm_compute. by repeat split. Qed.

(** ** More about the diff: what [lcsTable] and [unifiedDiff] compute *)

Section Subsequences.
Variables e a : list string.

Lemma take_snoc_at (l : list string) i :
  i < length l -> take (S i) l = take i l ++ [at_ l i].
Proof. intros Hi. by apply take_S_r, at_lookup. Qed.

Lemma sublist_singleton (s : list string) x :
  s `sublist_of` [x] -> s = [] \/ s = [x].
Proof.
  intros [Hs|(s' & -> & Hs')]%sublist_cons_r.
  - left. by apply sublist_nil_r.
  - right. apply sublist_nil_r in Hs'. by subst.
Qed.

(** No common subsequence of two prefixes is longer than the recurrence. *)
Lemma lcs_len_upper i : forall j s,
  i <= length e -> j <= length a ->
  s `sublist_of` take i e -> s `sublist_of` take j a ->
  length s <= lcs_len e a i j.
Proof.
  induction i as [|i IHi]; intros j s Hi Hj He Ha.
  { apply sublist_nil_r in He. subst. simpl. lia. }
  revert s He Ha. induction j as [|j IHj]; intros s He Ha.
  { apply sublist_nil_r in Ha. subst. simpl. lia. }
  rewrite lcs_len_S.
  rewrite take_snoc_at in He by lia. rewrite take_snoc_at in Ha by lia.
  apply sublist_app_r in He as (s1 & s2 & Hs & Hs1 & Hs2).
  apply sublist_app_r in Ha as (t1 & t2 & Ht & Ht1 & Ht2).
  pose proof Hs2 as Hs2'. pose proof Ht2 as Ht2'.
  apply sublist_singleton in Hs2, Ht2.
  assert (Hup : s `sublist_of` take i e ->
                length s <= lcs_len e a i (S j)).
  { intros Hse. apply IHi; [lia..|done|].
    rewrite take_snoc_at by lia. rewrite Ht. by apply sublist_app. }
  assert (Hleft : s `sublist_of` take j a ->
                  length s <= lcs_len e a (S i) j).
  { intros Hsa. apply IHj; [lia|..|done].
    rewrite take_snoc_at by lia. rewrite Hs. by apply sublist_app. }
  assert (Hdiag : forall s', s' `sublist_of` take i e -> s' `sublist_of` take j a ->
                  length s' <= lcs_len e a i j).
  { intros s' ? ?. apply IHi; (lia || done). }
  destruct (String.eqb_spec (at_ e i) (at_ a j)) as [Heq|Hne].
  - destruct Hs2 as [->| ->].
    + rewrite app_nil_r in Hs. subst s1.
      destruct Ht2 as [->| ->].
      * rewrite app_nil_r in Ht. subst t1. specialize (Hdiag s Hs1 Ht1). lia.
      * rewrite Ht, length_app. simpl.
        assert (Hte : t1 `sublist_of` take i e).
        { etrans; [|exact Hs1]. rewrite Ht. by apply sublist_inserts_r. }
        specialize (Hdiag t1 Hte Ht1). lia.
    + rewrite Hs, length_app. simpl.
      assert (Hsa : s1 `sublist_of` take j a).
      { destruct Ht2 as [->| ->].
        - rewrite app_nil_r in Ht. subst t1.
          etrans; [|exact Ht1]. rewrite Hs. by apply sublist_inserts_r.
        - rewrite Hs in Ht. apply app_inj_tail in Ht as [-> _]. done. }
      specialize (Hdiag s1 Hs1 Hsa). lia.
  - destruct Hs2 as [->| ->].
    + rewrite app_nil_r in Hs. subst s1. specialize (Hup Hs1). lia.
    + destruct Ht2 as [->| ->].
      * rewrite app_nil_r in Ht. subst t1. specialize (Hleft Ht1). lia.
      * rewrite Hs in Ht. apply app_inj_tail in Ht as [_ Heq]. done.
Qed.

(** The recurrence is reached by some common subsequence of the prefixes. *)
Lemma lcs_len_attained i : forall j,
  i <= length e -> j <= length a ->
  exists s, s `sublist_of` take i e /\ s `sublist_of` take j a /\
            length s = lcs_len e a i j.
Proof.
  induction i as [|i IHi]; intros j Hi Hj.
  { exists []. repeat split; apply sublist_nil_l. }
  induction j as [|j IHj].
  { exists []. repeat split; apply sublist_nil_l. }
  rewrite lcs_len_S. rewrite !take_snoc_at by lia.
  destruct (String.eqb_spec (at_ e i) (at_ a j)) as [Heq|Hne].
  - destruct (IHi j) as (s & He & Ha & Hlen); [lia..|].
    exists (s ++ [at_ e i]). rewrite length_app. simpl.
    repeat split; [by apply sublist_app| |lia].
    rewrite <- Heq. by apply sublist_app.
  - destruct (Nat.max_spec (lcs_len e a i (S j)) (lcs_len e a (S i) j))
      as [[_ ->]|[_ ->]].
    + destruct IHj as (s & He & Ha & Hlen); [lia|].
      rewrite take_snoc_at in He by lia.
      exists s. repeat split; [done| |done]. by apply sublist_inserts_r.
    + destruct (IHi (S j)) as (s & He & Ha & Hlen); [lia..|].
      rewrite take_snoc_at in Ha by lia.
      exists s. repeat split; [|done..]. by apply sublist_inserts_r.
Qed.
End Subsequences.

(** X1 [lcsTable]: the table has one row per baseline prefix and one cell
    per candidate prefix, and the cell for the first [i] lines of one text
    and the first [j] lines of the other holds the length of a longest
    common subsequence of the two prefixes: some common subsequence has
    that length and none is longer. *)
Theorem lcsTable_longest_common_subsequence (a b : list string) :
  length (lcsTable a b) = length a + 1 /\
  Forall (fun row => length row = length b + 1) (lcsTable a b) /\
  forall i j, i <= length a -> j <= length b ->
    (exists s, s `sublist_of` take i a /\ s `sublist_of` take j b /\
               length s = cell (lcsTable a b) i j) /\
    (forall s, s `sublist_of` take i a -> s `sublist_of` take j b ->
               length s <= cell (lcsTable a b) i j).
Proof.
  destruct (lcsTable_dims a b) as [Hrows Hcells].
  split; [done|]. split; [done|].
  intros i j Hi Hj. rewrite lcsTable_spec by done. split.
  - by apply lcs_len_attained.
  - intros s. by apply lcs_len_upper.
Qed.

Definition is_context (en : diff_entry) : bool :=
  match de_mark en with Context => true | _ => false end.

(** The lines of a text as diff entries of one kind, numbered from 1. *)
Definition numbered (m : diff_mark) (lines : list string) : list diff_entry :=
  imap (fun k line => DiffEntry m (S k) line) lines.

Section Alignment.
Variables e a : list string.

(** What the backtracking has built so far, with the numbers of the
    baseline side and the count of context lines. *)
Definition aligned (st : diff_state) (entries : list diff_entry) : Prop :=
  rev (ds_lines st) = map render_entry entries /\
  Forall (entry_numbered e a) entries /\
  side_text on_baseline entries = drop (ds_i st) e /\
  side_text on_candidate entries = drop (ds_j st) a /\
  map de_num (List.filter on_baseline entries)
    = seq (S (ds_i st)) (length e - ds_i st) /\
  side_numbered (S (ds_j st)) on_candidate is_addition entries /\
  length (List.filter is_context entries) + lcs_len e a (ds_i st) (ds_j st)
    = lcs_len e a (length e) (length a).

Lemma seq_down i m : 0 < i -> i <= m -> seq i (m - (i - 1)) = i :: seq (S i) (m - i).
Proof.
  intros Hi Hm. replace (m - (i - 1)) with (S (m - i)) by lia. done.
Qed.

Lemma lcs_len_0_l j : lcs_len e a 0 j = 0.
Proof. done. Qed.

Lemma lcs_len_step i j :
  0 < i -> 0 < j ->
  lcs_len e a i j =
  if String.eqb (at_ e (i - 1)) (at_ a (j - 1))
  then lcs_len e a (i - 1) (j - 1) + 1
  else Nat.max (lcs_len e a (i - 1) j) (lcs_len e a i (j - 1)).
Proof.
  intros Hi Hj. destruct i as [|i]; [lia|]. destruct j as [|j]; [lia|].
  rewrite lcs_len_S. by replace (S i - 1) with i by lia;
    replace (S j - 1) with j by lia.
Qed.

Lemma aligned_step st st' entries :
  backtrack_step e a st st' -> in_table e a st -> aligned st entries ->
  exists en, aligned st' (en :: entries).
Proof.
  intros Hstep [Hi Hj] (Hlines & Hnum & Hbase & Hcand & Hnums & Hadd & Hcount).
  inversion Hstep as [i j lines Hi0 Hj0 Heq|i j lines Hj0 Hrule|i j lines Hi0 Hrule];
    subst; simpl in *.
  - exists (DiffEntry Context i (at_ e (i - 1))).
    assert (He : e !! (i - 1) = Some (at_ e (i - 1))) by (apply at_lookup; lia).
    assert (Ha : a !! (j - 1) = Some (at_ e (i - 1)))
      by (rewrite Heq; apply at_lookup; lia).
    unfold aligned, side_text in *; simpl.
    split; [by rewrite rev_unit, Hlines|].
    split; [constructor; [|done]; split; [simpl; lia|done]|].
    split; [rewrite Hbase, (drop_S e _ (i - 1) He);
            by replace (S (i - 1)) with i by lia|].
    split; [rewrite Hcand, (drop_S a _ (j - 1) Ha);
            by replace (S (j - 1)) with j by lia|].
    split; [|split].
    + rewrite Hnums. replace (S (i - 1)) with i by lia. by rewrite seq_down.
    + apply side_numbered_cons_keep; [done|done|].
      by replace (S (S (j - 1))) with (S j) by lia.
    + rewrite (lcs_len_step i j) in Hcount by done.
      apply String.eqb_eq in Heq. rewrite Heq in Hcount. lia.
  - exists (DiffEntry Addition j (at_ a (j - 1))).
    assert (Ha : a !! (j - 1) = Some (at_ a (j - 1))) by (apply at_lookup; lia).
    unfold aligned, side_text in *; simpl.
    split; [by rewrite rev_unit, Hlines|].
    split; [constructor; [|done]; split; [simpl; lia|done]|].
    split; [done|].
    split; [rewrite Hcand, (drop_S a _ (j - 1) Ha);
            by replace (S (j - 1)) with j by lia|].
    split; [done|].
    split; [apply side_numbered_cons_keep; [done|simpl; lia|];
            by replace (S (S (j - 1))) with (S j) by lia|].
    destruct (decide (i = 0)) as [->|Hi0]; [by rewrite !lcs_len_0_l in *|].
    destruct Hrule as [Hne Hle]; [lia|].
    rewrite (lcs_len_step i j) in Hcount by lia.
    apply String.eqb_neq in Hne. rewrite Hne in Hcount. lia.
  - exists (DiffEntry Removal i (at_ e (i - 1))).
    assert (He : e !! (i - 1) = Some (at_ e (i - 1))) by (apply at_lookup; lia).
    unfold aligned, side_text in *; simpl.
    split; [by rewrite rev_unit, Hlines|].
    split; [constructor; [|done]; split; [simpl; lia|done]|].
    split; [rewrite Hbase, (drop_S e _ (i - 1) He);
            by replace (S (i - 1)) with i by lia|].
    split; [done|].
    split; [|split].
    + rewrite Hnums. replace (S (i - 1)) with i by lia. by rewrite seq_down.
    + by apply side_numbered_cons_skip.
    + destruct (decide (j = 0)) as [->|Hj0]; [by rewrite !lcs_len_0_r in *|].
      destruct Hrule as [Hne Hlt]; [lia|].
      rewrite (lcs_len_step i j) in Hcount by lia.
      apply String.eqb_neq in Hne. rewrite Hne in Hcount. lia.
Qed.

Lemma aligned_run st st' :
  rtc (backtrack_step e a) st st' -> in_table e a st ->
  (exists entries, aligned st entries) -> exists entries, aligned st' entries.
Proof.
  induction 1 as [|st s1 st' Hstep _ IH]; intros Hin [entries Hs]; [by eauto|].
  apply IH; [by eapply backtrack_step_in_table|].
  destruct (aligned_step _ _ _ Hstep Hin Hs) as [en Hen]. eauto.
Qed.

(** The finished diff as an alignment of the two line sequences. *)
Lemma diff_alignment :
  exists entries,
    write_reversed (diff_lines e a) = render_entries entries /\
    Forall (entry_numbered e a) entries /\
    side_text on_baseline entries = e /\
    side_text on_candidate entries = a /\
    map de_num (List.filter on_baseline entries) = seq 1 (length e) /\
    side_numbered 1 on_candidate is_addition entries /\
    length (List.filter is_context entries) = lcs_len e a (length e) (length a).
Proof.
  unfold diff_lines.
  destruct (diff_loop_run e a (length e + length a) (diff_init e a))
    as [Hrun Hend]; [by split|done|].
  apply diff_cond_false in Hend as [Hi Hj].
  destruct (aligned_run _ _ Hrun)
    as (entries & Hl & Hn & Hb & Hc & Hnums & Hadd & Hcount).
  - by split.
  - exists []. unfold aligned, side_text; simpl.
    rewrite !drop_all, Nat.sub_diag.
    split; [done|]. split; [done|]. split; [done|]. split; [done|].
    split; [done|]. split; [apply side_numbered_nil|done].
  - rewrite Hi in Hb, Hnums, Hcount. rewrite Hj in Hc, Hadd, Hcount.
    rewrite Nat.sub_0_r in Hnums. simpl in Hcount.
    exists entries. split; [by apply write_reversed_render|].
    split; [done|]. split; [done|]. split; [done|]. split; [done|].
    split; [done|lia].
Qed.

Lemma filter_map_sublist (P Q : diff_entry -> bool) (l : list diff_entry) :
  (forall x, P x = true -> Q x = true) ->
  map de_text (List.filter P l) `sublist_of` map de_text (List.filter Q l).
Proof.
  intros HPQ. induction l as [|x l IH]; simpl; [done|].
  destruct (P x) eqn:HP.
  - rewrite (HPQ x HP). simpl. by constructor.
  - destruct (Q x); simpl; [by constructor|done].
Qed.

Lemma sides_count (l : list diff_entry) :
  length (List.filter on_baseline l) + length (List.filter on_candidate l)
  = length l + length (List.filter is_context l).
Proof.
  induction l as [|[[] k x] l IH]; simpl in *; lia.
Qed.
End Alignment.

(** X2 [unifiedDiff], completeness: the body of the diff is an edit script
    that rebuilds both texts and numbers every line by its own side.  Read
    top to bottom, the context and removal lines are the lines of the
    baseline, and the one at place k of them carries the number k (so
    their numbers are 1, 2, ... in order); the context and addition lines
    are the lines of the candidate, and an addition at place k of them
    carries the number k, its position in the candidate. *)
Theorem unifiedDiff_complete (expected actual : string) :
  let e := strings_Split expected nl in
  let a := strings_Split actual nl in
  exists entries,
    unifiedDiff expected actual =
      "--- expected" +:+ String "010" "" +:+ "+++ actual" +:+ String "010" "" +:+
      render_entries entries /\
    side_text on_baseline entries = e /\
    side_text on_candidate entries = a /\
    map de_num (List.filter on_baseline entries) = seq 1 (length e) /\
    (forall k en,
       List.filter on_candidate entries !! k = Some en ->
       de_mark en = Addition -> de_num en = 1 + k /\ a !! k = Some (de_text en)) /\
    (forall k en,
       List.filter on_baseline entries !! k = Some en ->
       de_num en = 1 + k /\ e !! k = Some (de_text en)) /\
    Forall (entry_numbered e a) entries.
Proof.
  intros e a.
  destruct (diff_alignment e a) as (entries & Hw & Hn & Hb & Hc & Hnums & Hadd & _).
  exists entries. split; [unfold unifiedDiff; fold e a; by rewrite Hw|].
  split; [done|]. split; [done|]. split; [done|]. split; [|split; [|done]].
  - intros k en Hk Hmark. split.
    + apply (Hadd k en Hk). unfold is_addition. by rewrite Hmark.
    + rewrite <- Hc. unfold side_text.
      change (map ?f ?l) with (f <$> l). by rewrite list_lookup_fmap, Hk.
  - intros k en Hk. split.
    + apply (f_equal (fun l => l !! k)) in Hnums.
      change (map ?f ?l) with (f <$> l) in Hnums.
      rewrite list_lookup_fmap, Hk in Hnums. simpl in Hnums.
      destruct (decide (k < length e)) as [Hlt|Hge].
      * rewrite lookup_seq_lt in Hnums by done. by injection Hnums.
      * by rewrite lookup_seq_ge in Hnums by lia.
    + rewrite <- Hb. unfold side_text.
      change (map ?f ?l) with (f <$> l). by rewrite list_lookup_fmap, Hk.
Qed.

(** X3 [unifiedDiff], minimality: the context lines of the diff are a
    longest common subsequence of the two line sequences (a common
    subsequence, and no common subsequence is longer), so the diff body
    has as few lines as an alignment can have: the two line counts added,
    less the length of that subsequence. *)
Theorem unifiedDiff_minimal (expected actual : string) :
  let e := strings_Split expected nl in
  let a := strings_Split actual nl in
  exists entries,
    unifiedDiff expected actual = diff_header +:+ render_entries entries /\
    let common := side_text is_context entries in
    common `sublist_of` e /\
    common `sublist_of` a /\
    (forall s, s `sublist_of` e -> s `sublist_of` a -> length s <= length common) /\
    length entries + length common = length e + length a.
Proof.
  intros e a.
  destruct (diff_alignment e a)
    as (entries & Hw & Hn & Hb & Hc & Hnums & _ & Hcount).
  exists entries. split; [unfold unifiedDiff; fold e a; by rewrite Hw|].
  cbv zeta. unfold side_text in *. repeat split.
  - rewrite <- Hb. apply filter_map_sublist. by intros [[] ? ?].
  - rewrite <- Hc. apply filter_map_sublist. by intros [[] ? ?].
  - intros s He Ha. rewrite length_map, Hcount.
    apply lcs_len_upper; [done..| |]; by rewrite firstn_all.
  - rewrite length_map. pose proof (sides_count entries) as Hsides.
    apply (f_equal length) in Hb, Hc. rewrite length_map in Hb, Hc. lia.
Qed.

Section Loop_runs.
Variables e a : list string.

Lemma seq_snoc_rev i : rev (seq 1 (S i)) = S i :: rev (seq 1 i).
Proof. rewrite seq_S, rev_unit. done. Qed.

(** On equal inputs every iteration is a context line. *)
Lemma diff_loop_identical i : forall fuel lines,
  i <= fuel ->
  diff_loop e e (lcsTable e e) fuel (DiffState i i lines) =
  DiffState 0 0
    (lines ++ map (fun k => Sprintf_line space k (at_ e (k - 1))) (rev (seq 1 i))).
Proof.
  induction i as [|i IH]; intros fuel lines Hfuel.
  - simpl. rewrite app_nil_r. by destruct fuel.
  - destruct fuel as [|fuel]; [lia|].
    rewrite seq_snoc_rev. simpl diff_loop.
    rewrite (diff_body_context e e (S i) (S i) lines) by (done || lia).
    replace (S i - 1) with i by lia.
    rewrite IH by lia. simpl. by rewrite <- app_assoc, Nat.sub_0_r.
Qed.

Hypothesis disjoint : forall i j, i < length e -> j < length a -> at_ e i <> at_ a j.

Lemma lcs_len_disjoint i : forall j,
  i <= length e -> j <= length a -> lcs_len e a i j = 0.
Proof.
  induction i as [|i IHi]; intros j Hi Hj; [done|].
  induction j as [|j IHj]; [done|].
  rewrite lcs_len_S.
  destruct (String.eqb_spec (at_ e i) (at_ a j)) as [Heq|_].
  - by destruct (disjoint i j); [lia..|].
  - rewrite IHi, IHj by lia. done.
Qed.

(** With no line in common the loop first walks the candidate up ... *)
Lemma diff_loop_additions i j : forall fuel lines,
  i <= length e -> j <= length a ->
  diff_loop e a (lcsTable e a) (j + fuel) (DiffState i j lines) =
  diff_loop e a (lcsTable e a) fuel
    (DiffState i 0
       (lines ++ map (fun k => Sprintf_line "+" k (at_ a (k - 1))) (rev (seq 1 j)))).
Proof.
  induction j as [|j IH]; intros fuel lines Hi Hj.
  - simpl. by rewrite app_nil_r.
  - rewrite seq_snoc_rev. simpl diff_loop.
    replace (diff_cond (DiffState i (S j) lines)) with true
      by (symmetry; apply diff_cond_true; simpl; lia).
    assert (Hbody : diff_body e a (lcsTable e a) (DiffState i (S j) lines) =
      DiffState i j (lines ++ [Sprintf_line "+" (S j) (at_ a j)])).
    { destruct (decide (i = 0)) as [->|Hi0].
      - rewrite diff_body_top by lia. by replace (S j - 1) with j by lia.
      - rewrite diff_body_differ by (lia || (apply disjoint; lia)).
        rewrite !lcs_len_disjoint by lia. simpl.
        by replace (j - 0) with j by lia. }
    rewrite Hbody, IH by lia. simpl. by rewrite <- app_assoc, Nat.sub_0_r.
Qed.

(** ... and then the baseline. *)
Lemma diff_loop_removals i : forall fuel lines,
  i <= fuel ->
  diff_loop e a (lcsTable e a) fuel (DiffState i 0 lines) =
  DiffState 0 0
    (lines ++ map (fun k => Sprintf_line "-" k (at_ e (k - 1))) (rev (seq 1 i))).
Proof.
  induction i as [|i IH]; intros fuel lines Hfuel.
  - simpl. rewrite app_nil_r. by destruct fuel.
  - destruct fuel as [|fuel]; [lia|].
    rewrite seq_snoc_rev. simpl diff_loop.
    rewrite diff_body_left by lia. replace (S i - 1) with i by lia.
    rewrite IH by lia. simpl. by rewrite <- app_assoc, Nat.sub_0_r.
Qed.
End Loop_runs.

Lemma numbered_seq (m : diff_mark) (lines : list string) :
  numbered m lines =
  map (fun k => DiffEntry m k (at_ lines (k - 1))) (seq 1 (length lines)).
Proof.
  unfold numbered. apply list_eq. intros k.
  rewrite list_lookup_imap.
  change (map ?f ?l) with (f <$> l). rewrite list_lookup_fmap.
  destruct (decide (k < length lines)) as [Hlt|Hge].
  - rewrite lookup_seq_lt by done. rewrite (at_lookup lines k Hlt). simpl.
    by replace (k - 0) with k by lia.
  - rewrite lookup_seq_ge by lia. by rewrite lookup_ge_None_2 by lia.
Qed.

Lemma write_reversed_numbered (m : diff_mark) (lines : list string) (rest : list string)
    (tail : list diff_entry) :
  write_reversed rest = render_entries tail ->
  write_reversed
    (rest ++ map (fun k => Sprintf_line (mark_byte m) k (at_ lines (k - 1)))
                 (rev (seq 1 (length lines))))
  = render_entries (numbered m lines ++ tail).
Proof.
  intros Hrest. rewrite numbered_seq. unfold write_reversed, render_entries in *.
  rewrite rev_app_distr, <- map_rev, rev_involutive.
  rewrite !foldr_app, <- Hrest.
  generalize (foldr (fun l acc => l +:+ String nl acc) "" (rev rest)).
  intros acc. induction (seq 1 (length lines)) as [|k ks IH]; simpl; [done|].
  by rewrite IH.
Qed.

(** X4 [unifiedDiff], equal texts: the diff of a text with itself is the
    header followed by every line of the text as a context line, numbered
    1, 2, ... in order; it has no addition and no removal. *)
Theorem unifiedDiff_identical (text : string) :
  unifiedDiff text text =
  diff_header +:+ render_entries (numbered Context (strings_Split text nl)).
Proof.
  unfold unifiedDiff, diff_lines. cbv zeta. f_equal.
  set (e := strings_Split text nl).
  rewrite (diff_loop_identical e (length e)) by lia. simpl ds_lines.
  rewrite <- (app_nil_r (numbered Context e)).
  exact (write_reversed_numbered Context e [] [] eq_refl).
Qed.

(** X5 [unifiedDiff], no line in common: when no line of the baseline is a
    line of the candidate, the diff is the header, then every baseline line
    as a removal numbered 1, 2, ..., then every candidate line as an
    addition numbered 1, 2, ...; there is no context line. *)
Theorem unifiedDiff_disjoint (expected actual : string) :
  let e := strings_Split expected nl in
  let a := strings_Split actual nl in
  Forall (fun line => line ∉ a) e ->
  unifiedDiff expected actual =
  diff_header +:+ render_entries (numbered Removal e ++ numbered Addition a).
Proof.
  intros e a Hdis. unfold unifiedDiff, diff_lines. cbv zeta. fold e a. f_equal.
  assert (Hne : forall i j, i < length e -> j < length a -> at_ e i <> at_ a j).
  { intros i j Hi Hj Heq. rewrite Forall_forall in Hdis.
    apply (Hdis (at_ e i)).
    - apply (list_elem_of_lookup_2 e i). by apply at_lookup.
    - rewrite Heq. apply (list_elem_of_lookup_2 a j). by apply at_lookup. }
  rewrite (Nat.add_comm (length e)).
  rewrite (diff_loop_additions e a Hne) by lia.
  rewrite (diff_loop_removals e a) by lia. simpl ds_lines.
  apply (write_reversed_numbered Removal e).
  rewrite <- (app_nil_r (numbered Addition a)).
  exact (write_reversed_numbered Addition a [] [] eq_refl).
Qed.

Lemma unifiedDiff_disjoint_witness :
  Forall (fun line => line ∉ strings_Split "b" nl) (strings_Split "a" nl) /\
  unifiedDiff "a" "b" =
  diff_header +:+
  render_entries (numbered Removal (strings_Split "a" nl) ++
                  numbered Addition (strings_Split "b" nl)).
Proof.
  assert (H : Forall (fun line => line ∉ strings_Split "b" nl) (strings_Split "a" nl)).
  { vm_compute. constructor; [|constructor]. by intros ?%list_elem_of_singleton. }
  split; [exact H|]. exact (unifiedDiff_disjoint "a" "b" H).
Defined.

Lemma Join_cons (x h : string) (t : list string) (sep : ascii) :
  strings_Join (x :: h :: t) sep = x +:+ String sep (strings_Join (h :: t) sep).
Proof. reflexivity. Qed.

(** Joining the segments of a text with the separator gives the text back. *)
Lemma Join_Split (s : string) (sep : ascii) :
  strings_Join (strings_Split s sep) sep = s.
Proof.
  induction s as [|c s IH]; [done|]. simpl.
  destruct (strings_Split s sep) as [|h t] eqn:Hs; [by apply Split_nonempty in Hs|].
  destruct (Ascii.eqb_spec c sep) as [->|_].
  - by rewrite Join_cons, IH.
  - destruct t as [|h' t]; [simpl in *; by rewrite IH|].
    rewrite Join_cons, append_cons. rewrite Join_cons in IH. by rewrite IH.
Qed.

(** An alignment of two different line sequences has a line that is not
    context. *)
Lemma diff_change_shown (e a : list string) (entries : list diff_entry) :
  side_text on_baseline entries = e -> side_text on_candidate entries = a ->
  e <> a -> Exists (fun en => is_context en = false) entries.
Proof.
  intros Hb Hc Hne.
  destruct (decide (Exists (fun en => is_context en = false) entries)) as [|Hno];
    [done|].
  destruct Hne. rewrite <- Hb, <- Hc. unfold side_text. f_equal.
  apply not_Exists_Forall in Hno; [|intros; apply _]. clear Hb Hc.
  induction Hno as [|[[] k x] l Hx _ IH]; simpl in *;
    [done|by rewrite IH|by destruct Hx..].
Qed.

(** X6 [unifiedDiff], a change is always shown: when the two texts differ,
    the body of the diff has at least one addition or removal line (and it
    still accounts for every line of both texts). *)
Theorem unifiedDiff_shows_change (expected actual : string) :
  expected <> actual ->
  exists entries,
    unifiedDiff expected actual = diff_header +:+ render_entries entries /\
    side_text on_baseline entries = strings_Split expected nl /\
    side_text on_candidate entries = strings_Split actual nl /\
    Exists (fun en => is_context en = false) entries.
Proof.
  intros Hne.
  destruct (diff_alignment (strings_Split expected nl) (strings_Split actual nl))
    as (entries & Hw & _ & Hb & Hc & _).
  exists entries. split; [unfold unifiedDiff; by rewrite Hw|].
  split; [done|]. split; [done|].
  apply (diff_change_shown _ _ _ Hb Hc). intros Heq. apply Hne.
  by rewrite <- (Join_Split expected nl), <- (Join_Split actual nl), Heq.
Qed.

Lemma unifiedDiff_shows_change_witness :
  exists entries,
    unifiedDiff "a" "b" = diff_header +:+ render_entries entries /\
    side_text on_baseline entries = strings_Split "a" nl /\
    side_text on_candidate entries = strings_Split "b" nl /\
    Exists (fun en => is_context en = false) entries.
Proof. apply (unifiedDiff_shows_change "a" "b"). discriminate. Defined.

(** ** More outcomes of a snapshot call *)

Lemma Split_app (s s' : string) (sep : ascii) :
  strings_Split (s +:+ String sep s') sep =
  strings_Split s sep ++ strings_Split s' sep.
Proof.
  induction s as [|c s IH].
  - change ("" +:+ String sep s') with (String sep s'). by rewrite Split_cons_sep.
  - rewrite append_cons. simpl. rewrite IH.
    destruct (Ascii.eqb c sep); [done|].
    destruct (strings_Split s sep) as [|h t] eqn:Hs; [by apply Split_nonempty in Hs|].
    done.
Qed.

Lemma Join_snoc (l : list string) (x : string) (sep : ascii) :
  exists prefix, strings_Join (l ++ [x]) sep = prefix +:+ x.
Proof.
  induction l as [|y l [prefix IH]]; [by exists ""|].
  destruct l as [|z l].
  - exists (y +:+ String sep ""). simpl. by rewrite append_assoc.
  - exists (y +:+ String sep prefix).
    change ((y :: z :: l) ++ [x]) with (y :: z :: (l ++ [x])).
    rewrite Join_cons. change (z :: l ++ [x]) with ((z :: l) ++ [x]).
    by rewrite IH, append_assoc.
Qed.

(** The segments of the path [snapshotPath] builds, for a directory [base]
    and a name whose last segment is [stem]. *)
Lemma golden_path_segments (base name : string) (l : list string) (stem : string) :
  base <> "" -> strings_Split name slash = l ++ [stem] ->
  let path := filepath_Join [base; name +:+ ".golden"] in
  (exists dirs, strings_Split path slash = dirs ++ [stem +:+ ".golden"]) /\
  forall cwd, resolve cwd path = resolve cwd (filepath_Dir path) ++ [stem +:+ ".golden"].
Proof.
  intros Hbase Hname path. subst path. simpl.
  apply String.eqb_neq in Hbase. rewrite Hbase.
  destruct (Split_app_free name ".golden" slash) as (l0 & x & Hl0 & Hs); [done|].
  rewrite Hname in Hl0. apply app_inj_tail in Hl0 as [<- <-].
  assert (Hraw : strings_Split (base +:+ String slash (name +:+ ".golden")) slash =
                 (strings_Split base slash ++ l) ++ [stem +:+ ".golden"])
    by (by rewrite Split_app, Hs, app_assoc).
  destruct (Clean_last _ _ _ Hraw (golden_is_name stem)) as [l' Hl'].
  split; [by exists l'|]. intros cwd. by eapply resolve_Dir, golden_is_name.
Qed.

(** A name without a separator names a file directly in the directory. *)
Lemma golden_key (cwd : list string) (base name : string) :
  base <> "" -> contains_byte slash name = false ->
  resolve cwd (filepath_Join [base; name +:+ ".golden"]) =
  resolve cwd base ++ [name +:+ ".golden"].
Proof.
  intros Hbase Hname. simpl.
  pose proof Hbase as Hb. apply String.eqb_neq in Hb. rewrite Hb.
  rewrite resolve_Clean. unfold resolve.
  rewrite Split_app, fold_left_app.
  assert (Hfree : contains_byte slash (name +:+ ".golden") = false)
    by (by rewrite contains_byte_app, Hname).
  rewrite (Split_single _ _ Hfree). simpl.
  rewrite walk_step_name by apply golden_is_name. simpl.
  by destruct base.
Qed.

Lemma Contains_refl (s : string) : strings_Contains s s = true.
Proof.
  apply Contains_prefix. induction s as [|b s IH]; [done|].
  simpl. by rewrite Ascii.eqb_refl.
Qed.

Section Outcomes.
Context `{Externals}.
Implicit Types (w : world) (t : testing_T).
Local Arguments filepath_Join : simpl never.
Local Arguments filepath_Dir : simpl never.
Local Arguments resolve : simpl never.

Lemma add_report_ne t r w : add_report t r w <> w.
Proof.
  intros Heq. apply (f_equal (fun w => length (w_reports w))) in Heq.
  simpl in Heq. rewrite length_app in Heq. simpl in Heq. lia.
Qed.

(** X7 [snapshot], no false pass: in compare mode a call returns without
    a report exactly when the baseline can be read at the resolved path and
    is, byte for byte, the candidate. *)
Theorem snapshot_passes_iff t content name callerSkip w :
  UpdateSnapshots w = false ->
  snapshot t content name callerSkip w = (Returned (), w) <->
  exists path,
    resolved_path name callerSkip w = Returned path /\
    fs_read (w_fs w) (resolve (w_cwd w) path) = Ok content.
Proof.
  intros Hupd. split.
  - intros Hrun.
    destruct (resolved_path_cases name callerSkip w) as [[path Hp]|[msg Hp]].
    + exists path. split; [done|].
      rewrite (snapshot_compare _ _ _ _ _ _ Hupd Hp) in Hrun.
      destruct (fs_read _ _) as [expected|e]; [|done].
      destruct (String.eqb_spec expected content) as [Heq|_]; [by rewrite Heq|].
      injection Hrun as Hrun. by apply add_report_ne in Hrun.
    + by rewrite (snapshot_panics _ _ _ _ _ _ Hp) in Hrun.
  - intros (path & Hp & Hread). by eapply snapshot_compare_equal.
Qed.

(** X8 [snapshot], mismatch: in compare mode, when the baseline is read
    and differs from the candidate, the call reports one non-fatal failure
    ([Errorf], so the test goes on) and returns; the message names the
    snapshot in quotes and carries the diff of baseline against candidate;
    the file tree is not touched. *)
Theorem snapshot_mismatch t content name callerSkip w path expected :
  UpdateSnapshots w = false ->
  resolved_path name callerSkip w = Returned path ->
  fs_read (w_fs w) (resolve (w_cwd w) path) = Ok expected ->
  expected <> content ->
  let msg := msg_mismatch name (unifiedDiff expected content) in
  snapshot t content name callerSkip w = (Returned (), add_report t (Errorf msg) w) /\
  strings_Contains msg (strconv_Quote name) = true /\
  strings_Contains msg " mismatch:" = true /\
  strings_Contains msg (unifiedDiff expected content) = true /\
  strings_Contains msg diff_header = true /\
  w_fs (add_report t (Errorf msg) w) = w_fs w.
Proof.
  intros Hupd Hpath Hread Hne msg.
  rewrite (snapshot_compare _ _ _ _ _ _ Hupd Hpath), Hread.
  apply String.eqb_neq in Hne. rewrite Hne. split; [done|].
  subst msg. unfold msg_mismatch. repeat split.
  - apply Contains_app_r, Contains_here.
  - do 2 apply Contains_app_r. apply Contains_here.
  - do 2 apply Contains_app_r.
    apply (Contains_app_r " mismatch:" (String nl _)).
    apply (Contains_app_r (String nl "")). apply Contains_refl.
  - do 2 apply Contains_app_r.
    apply (Contains_app_r " mismatch:" (String nl _)).
    apply (Contains_app_r (String nl "")). unfold unifiedDiff.
    apply Contains_here.
Qed.

(** Why a read fails, when it is not for a missing name. *)
Lemma dirs_ok_Some fs ds e :
  dirs_ok fs ds = Some e ->
  e = ENOENT \/
  (e = ENOTDIR /\ exists d c, d ∈ ds /\ fs_node fs d = Some (File c)).
Proof.
  induction ds as [|d ds IH]; simpl; [done|].
  destruct (fs_node fs d) as [[c|]|] eqn:Hd.
  - intros [= <-]. right. split; [done|]. exists d, c. split; [left|done].
  - intros [He|(He & d' & c & Hin & Hf)]%IH; [by left|].
    right. split; [done|]. exists d', c. split; [by right|done].
  - intros [= <-]. by left.
Qed.

Lemma fs_read_error fs k e :
  fs_read fs k = Err e -> e <> ENOENT ->
  (e = ENOTDIR /\ exists d c, d ∈ ancestors k /\ fs_node fs d = Some (File c)) \/
  (e = EISDIR /\ fs_node fs k = Some Directory).
Proof.
  unfold fs_read. intros Hread Hne.
  destruct (dirs_ok fs (ancestors k)) as [e'|] eqn:Hdirs.
  - injection Hread as ->. destruct (dirs_ok_Some _ _ _ Hdirs) as [?|?]; [done|by left].
  - destruct (fs_node fs k) as [[c|]|]; [done| |by injection Hread as <-].
    injection Hread as <-. by right.
Qed.

(** X9 [snapshot], unreadable baseline: in compare mode a read error that
    is not a not-exist error is fatal; the message is the read error, not
    the advice to run with UPDATE_SNAPSHOTS=1; nothing is compared and the
    file tree is not touched.  There are two such errors.  A regular file
    where a directory of the path should be fails the open: the error
    reads open, the path, not a directory.  A directory at the path itself
    is opened without error and fails the read: the error reads read, the
    path, is a directory. *)
Theorem snapshot_unreadable_baseline t content name callerSkip w path e :
  UpdateSnapshots w = false ->
  resolved_path name callerSkip w = Returned path ->
  fs_read (w_fs w) (resolve (w_cwd w) path) = Err e ->
  e <> ENOENT ->
  let key := resolve (w_cwd w) path in
  let failure op text :=
    "snapshot " +:+ strconv_Quote name +:+ ": cannot read golden file: " +:+
    op +:+ " " +:+ path +:+ ": " +:+ text in
  ((e = ENOTDIR /\
    (exists d c, d ∈ ancestors key /\ fs_node (w_fs w) d = Some (File c)) /\
    snapshot t content name callerSkip w =
      (FailNow, add_report t (Fatalf (failure "open" "not a directory")) w)) \/
   (e = EISDIR /\
    fs_node (w_fs w) key = Some Directory /\
    snapshot t content name callerSkip w =
      (FailNow, add_report t (Fatalf (failure "read" "is a directory")) w))) /\
  w_fs (snd (snapshot t content name callerSkip w)) = w_fs w.
Proof.
  intros Hupd Hpath Hread Hne key failure.
  rewrite (snapshot_compare _ _ _ _ _ _ Hupd Hpath), Hread.
  rewrite bool_decide_eq_false_2 by done. split; [|done].
  destruct (fs_read_error _ _ _ Hread Hne) as [[-> Hfile]|[-> Hdir]].
  - left. by repeat split.
  - right. by repeat split.
Qed.

(** X10 [snapshot], update blocked by a file: in update mode, when a
    regular file stands where a directory of the resolved path is needed,
    [MkdirAll] fails, the call is fatal with the cannot-create-directory
    message for the parent directory of the path, nothing is written and
    the file tree stays as it was. *)
Theorem snapshot_update_blocked t content name callerSkip w path d c :
  UpdateSnapshots w = true ->
  resolved_path name callerSkip w = Returned path ->
  d ∈ chain (resolve (w_cwd w) (filepath_Dir path)) ->
  fs_node (w_fs w) d = Some (File c) ->
  exists err,
    pe_errno err = ENOTDIR /\
    snapshot t content name callerSkip w =
      (FailNow,
       add_report t (Fatalf (msg_cannot_create (filepath_Dir path) err)) w) /\
    strings_Contains (msg_cannot_create (filepath_Dir path) err)
      ("snapshot: cannot create directory " +:+ filepath_Dir path) = true /\
    w_fs (snd (snapshot t content name callerSkip w)) = w_fs w.
Proof.
  intros Hupd Hpath Hd Hfile.
  pose proof (snapshot_update t content _ _ _ _ Hupd Hpath) as Hrun.
  cbv zeta in Hrun.
  pose proof (fs_mkdir_chain_spec (chain (resolve (w_cwd w) (filepath_Dir path)))
                (w_fs w)) as Hspec.
  unfold fs_mkdir_all in Hrun.
  destruct (fs_mkdir_chain _ _) as [fs1|e].
  - destruct Hspec as (Hdirs & Hkeep & _).
    rewrite Forall_forall in Hdirs. specialize (Hdirs d Hd).
    rewrite Hkeep in Hdirs by (by rewrite Hfile). by rewrite Hfile in Hdirs.
  - destruct Hspec as [-> _].
    exists (mkPathError "mkdir" (filepath_Dir path) ENOTDIR).
    rewrite Hrun. repeat split.
    unfold msg_cannot_create. rewrite <- append_assoc. apply Contains_here.
Qed.

(** X11 [snapshot], update blocked by a directory: in update mode, when a
    directory stands at the resolved path itself, the parent directories
    are created all the same, then [WriteFile] fails and the call is fatal
    with the cannot-write message; the directories that were created
    stay. *)
Theorem snapshot_update_onto_directory t content name callerSkip w path fs1 :
  UpdateSnapshots w = true ->
  resolved_path name callerSkip w = Returned path ->
  fs_mkdir_all (w_fs w) (resolve (w_cwd w) (filepath_Dir path)) = Ok fs1 ->
  fs_node (w_fs w) (resolve (w_cwd w) path) = Some Directory ->
  let msg := msg_cannot_write path (mkPathError "open" path EISDIR) in
  snapshot t content name callerSkip w =
    (FailNow, add_report t (Fatalf msg) (set_fs fs1 w)) /\
  strings_Contains msg ("snapshot: cannot write golden file " +:+ path) = true /\
  strings_Contains msg "is a directory" = true /\
  Forall (fun d => fs_node fs1 d = Some Directory)
         (chain (resolve (w_cwd w) (filepath_Dir path))).
Proof.
  intros Hupd Hpath Hm Hdir msg.
  destruct (resolved_path_parent _ _ _ _ Hpath) as [file Hkey].
  pose proof (snapshot_update t content _ _ _ _ Hupd Hpath) as Hrun.
  cbv zeta in Hrun. rewrite Hm in Hrun.
  pose proof (fs_mkdir_then_write _ _ file _ content Hm) as Hw.
  rewrite <- Hkey, Hdir in Hw. rewrite Hw in Hrun.
  split; [done|]. subst msg. unfold msg_cannot_write, Error.
  simpl pe_op. simpl pe_path. simpl pe_errno. repeat split.
  - rewrite <- append_assoc. apply Contains_here.
  - by do 7 apply Contains_app_r.
  - pose proof (fs_mkdir_chain_spec (chain (resolve (w_cwd w) (filepath_Dir path)))
                  (w_fs w)) as Hspec.
    unfold fs_mkdir_all in Hm. rewrite Hm in Hspec. by destruct Hspec.
Qed.

(** An update-mode call over a readable baseline. *)
Lemma snapshot_update_existing t content name callerSkip w path old :
  UpdateSnapshots w = true ->
  resolved_path name callerSkip w = Returned path ->
  fs_read (w_fs w) (resolve (w_cwd w) path) = Ok old ->
  snapshot t content name callerSkip w =
    (Returned (), set_fs (<[resolve (w_cwd w) path := File content]> (w_fs w)) w).
Proof.
  intros Hupd Hpath Hold.
  destruct (resolved_path_parent _ _ _ _ Hpath) as [file Hkey].
  pose proof (snapshot_update t content _ _ _ _ Hupd Hpath) as Hrun.
  cbv zeta in Hrun.
  destruct (fs_read_inv _ _ _ Hold) as [Hdirs Hfile].
  rewrite Hkey, ancestors_snoc in Hdirs.
  apply dirs_ok_None in Hdirs. inversion Hdirs as [|? ? _ Hchain]; subst.
  unfold fs_mkdir_all in Hrun. rewrite (fs_mkdir_chain_present _ _ Hchain) in Hrun.
  by rewrite (fs_read_write _ _ _ content Hold) in Hrun.
Qed.

(** X12 [snapshot], the last update wins: after an update-mode call that
    returned, a further update-mode call for the same name with any
    candidate returns, reports nothing and changes the file tree only at
    the baseline, which then reads as the new candidate; repeated with the
    same candidate, any number of times, it changes nothing at all. *)
Theorem snapshot_update_again t content content' name callerSkip w w1 :
  UpdateSnapshots w = true ->
  snapshot t content name callerSkip w = (Returned (), w1) ->
  exists path,
    resolved_path name callerSkip w1 = Returned path /\
    let key := resolve (w_cwd w1) path in
    snapshot t content' name callerSkip w1 =
      (Returned (), set_fs (<[key := File content']> (w_fs w1)) w1) /\
    fs_read (<[key := File content']> (w_fs w1)) key = Ok content' /\
    forall n, times n (snapshot t content name callerSkip) w1 = (Returned (), w1).
Proof.
  intros Hupd Hrun.
  destruct (snapshot_update_returned _ _ _ _ _ _ Hupd Hrun)
    as (path & fs1 & fs2 & Hpath & Hm & Hw & ->).
  exists path.
  assert (Hpath1 : resolved_path name callerSkip (set_fs fs2 w) = Returned path)
    by (by rewrite resolved_path_set_fs).
  assert (Hupd1 : UpdateSnapshots (set_fs fs2 w) = true) by (by destruct w).
  assert (Hread : fs_read (w_fs (set_fs fs2 w))
                    (resolve (w_cwd (set_fs fs2 w)) path) = Ok content).
  { destruct w; simpl in *. by eapply fs_write_read. }
  split; [done|]. cbv zeta. split; [|split].
  - by eapply snapshot_update_existing.
  - eapply fs_write_read. by eapply fs_read_write.
  - assert (Hone : snapshot t content name callerSkip (set_fs fs2 w) =
                   (Returned (), set_fs fs2 w)).
    { rewrite (snapshot_update_existing _ _ _ _ _ _ _ Hupd1 Hpath1 Hread).
      f_equal. destruct (fs_write_inv _ _ _ _ Hw) as (-> & _).
      destruct w; simpl. unfold set_fs; simpl. by rewrite insert_insert_eq. }
    induction n as [|n IH]; [done|].
    simpl. unfold mbind, M_bind. by rewrite Hone.
Qed.

(** X13 [snapshot], update-mode frame: however an update-mode call ends,
    it deletes nothing and changes nothing that was there, except a
    regular file at the resolved path: every other name of the file tree
    holds after the call what it held before, and every other file reads
    as it read before. *)
Theorem snapshot_update_frame t content name callerSkip w path :
  UpdateSnapshots w = true ->
  resolved_path name callerSkip w = Returned path ->
  let key := resolve (w_cwd w) path in
  let fs' := w_fs (snd (snapshot t content name callerSkip w)) in
  (forall k, fs_node (w_fs w) k <> None ->
     k <> key \/ fs_node (w_fs w) k = Some Directory ->
     fs_node fs' k = fs_node (w_fs w) k) /\
  (forall k c, k <> key -> fs_read (w_fs w) k = Ok c -> fs_read fs' k = Ok c).
Proof.
  intros Hupd Hpath key fs'.
  assert (Hnodes : forall k, fs_node (w_fs w) k <> None ->
     k <> key \/ fs_node (w_fs w) k = Some Directory ->
     fs_node fs' k = fs_node (w_fs w) k).
  { intros k Hk Hother. subst fs'.
    rewrite (snapshot_update t content _ _ _ _ Hupd Hpath). cbv zeta.
    pose proof (fs_mkdir_chain_spec (chain (resolve (w_cwd w) (filepath_Dir path)))
                  (w_fs w)) as Hspec.
    unfold fs_mkdir_all.
    destruct (fs_mkdir_chain _ _) as [fs1|e]; [|done].
    destruct Hspec as (_ & Hkeep & _). fold key.
    destruct (fs_write fs1 key content) as [fs2|e] eqn:Hw.
    - destruct (fs_write_inv _ _ _ _ Hw) as (-> & _ & _ & Hnd).
      destruct w; simpl in *.
      destruct Hother as [Hne|Hdir].
      + rewrite fs_node_insert_ne by done. by apply Hkeep.
      + destruct (decide (k = key)) as [->|Hne].
        * destruct Hnd. by rewrite Hkeep.
        * rewrite fs_node_insert_ne by done. by apply Hkeep.
    - destruct w; simpl in *. by apply Hkeep. }
  split; [done|]. intros k c Hne Hread.
  destruct (fs_read_inv _ _ _ Hread) as [Hdirs Hfile].
  unfold fs_read. rewrite dirs_ok_None in Hdirs.
  assert (Hdirs' : dirs_ok fs' (ancestors k) = None).
  { apply dirs_ok_None. eapply Forall_impl; [exact Hdirs|].
    intros d Hd. simpl in Hd. rewrite Hnodes; [done|by rewrite Hd|by right]. }
  rewrite Hdirs'. rewrite Hnodes; [by rewrite Hfile|by rewrite Hfile|by left].
Qed.

(** X14 [snapshot], [snapshotPath]: the call panics exactly when no
    directory is configured ([snapshotBaseDir] is empty) and the call stack
    has no frame at the skip count; it then panics before anything is read,
    written or reported.  With a directory configured no skip count can
    make it panic. *)
Theorem snapshot_panics_iff t content name callerSkip w :
  (snapshotBaseDir w = "" /\ length (w_frames w) + 2 <= callerSkip ->
   snapshot t content name callerSkip w =
     (Panicked "tuitestkit: cannot determine caller file for snapshot path", w)) /\
  (forall msg, fst (snapshot t content name callerSkip w) = Panicked msg ->
     snapshotBaseDir w = "" /\ length (w_frames w) + 2 <= callerSkip) /\
  (snapshotBaseDir w = "" /\ length (w_frames w) + 1 <= callerSkip <->
   exists msg, fst (snapshotPath name callerSkip w) = Panicked msg).
Proof.
  assert (Hbase : base_dir callerSkip w = None <->
                  snapshotBaseDir w = "" /\ length (w_frames w) + 2 <= callerSkip).
  { unfold base_dir. destruct (String.eqb_spec (snapshotBaseDir w) "") as [->|Hne].
    - destruct (_ !! callerSkip) as [file|] eqn:Hl; simpl.
      + apply lookup_lt_Some in Hl. simpl in Hl. split; [done|lia].
      + apply lookup_ge_None in Hl. simpl in Hl. split; [split; [done|lia]|done].
    - split; [done|]. by intros [? _]. }
  split; [|split].
  - intros Hno%Hbase. apply snapshot_panics. by rewrite resolved_path_eq, Hno.
  - intros msg Hrun. apply Hbase.
    destruct (base_dir callerSkip w) as [base|] eqn:Hb; [|done].
    assert (Hp : resolved_path name callerSkip w =
                 Returned (filepath_Join [base; name +:+ ".golden"]))
      by (by rewrite resolved_path_eq, Hb).
    destruct (UpdateSnapshots w) eqn:Hupd.
    + rewrite (snapshot_update _ content _ _ _ _ Hupd Hp) in Hrun. cbv zeta in Hrun.
      destruct (fs_mkdir_all _ _); [|done]. by destruct (fs_write _ _ _).
    + rewrite (snapshot_compare _ content _ _ _ _ Hupd Hp) in Hrun.
      destruct (fs_read _ _) as [expected|e]; [|done].
      by destruct (String.eqb expected content).
  - rewrite snapshotPath_eq. unfold dir_for. simpl fst.
    destruct (String.eqb_spec (snapshotBaseDir w) "") as [->|Hne].
    + destruct (_ !! callerSkip) as [file|] eqn:Hl; simpl.
      * apply lookup_lt_Some in Hl. simpl in Hl.
        split; [lia|]. by intros [msg ?].
      * apply lookup_ge_None in Hl. simpl in Hl.
        split; [by eauto|]. intros _. split; [done|lia].
    + split; [by intros [? _]|]. by intros [msg ?].
Qed.

(** X15 [snapshotPath], the file name: whatever the name, the resolved
    path ends in [.golden]; its last segment is the last segment of the
    name followed by [.golden], and the place it names in the file tree is
    that file name, one step below the place its [Dir] names. *)
Theorem snapshotPath_golden_suffix name callerSkip w path :
  fst (snapshotPath name callerSkip w) = Returned path ->
  exists dirs segs stem prefix,
    strings_Split name slash = segs ++ [stem] /\
    strings_Split path slash = dirs ++ [stem +:+ ".golden"] /\
    path = prefix +:+ stem +:+ ".golden" /\
    forall cwd, resolve cwd path = resolve cwd (filepath_Dir path) ++ [stem +:+ ".golden"].
Proof.
  rewrite snapshotPath_eq. simpl fst.
  destruct (dir_for _ _ _) as [base|] eqn:Hdir; [|done]. intros [= <-].
  apply dir_for_nonempty in Hdir.
  destruct (Split_app_free name ".golden" slash) as (segs & stem & Hname & _); [done|].
  destruct (golden_path_segments base name segs stem Hdir Hname) as [[dirs Hs] Hres].
  destruct (Join_snoc dirs (stem +:+ ".golden") slash) as [prefix Hj].
  exists dirs, segs, stem, prefix. repeat split; [done|done| |done].
  by rewrite <- (Join_Split (filepath_Join _) slash), Hs, Hj.
Qed.

(** X16 [snapshotPath], simple names: a name without a separator names the
    file [name.golden] directly in the baseline directory, so two
    different such names never share a baseline file. *)
Theorem snapshotPath_simple_names name name' callerSkip w base :
  dir_for (snapshot_go :: w_frames w) callerSkip (snapshotBaseDir w) = Some base ->
  contains_byte slash name = false ->
  contains_byte slash name' = false ->
  exists path path',
    fst (snapshotPath name callerSkip w) = Returned path /\
    fst (snapshotPath name' callerSkip w) = Returned path' /\
    (forall cwd, resolve cwd path = resolve cwd base ++ [name +:+ ".golden"]) /\
    (forall cwd, resolve cwd path' = resolve cwd base ++ [name' +:+ ".golden"]) /\
    (name <> name' -> forall cwd, resolve cwd path <> resolve cwd path').
Proof.
  intros Hdir Hfree Hfree'. rewrite !snapshotPath_eq, Hdir. simpl fst.
  apply dir_for_nonempty in Hdir.
  do 2 eexists. split; [done|]. split; [done|].
  split; [intros cwd; by apply golden_key|].
  split; [intros cwd; by apply golden_key|].
  intros Hne cwd. rewrite !golden_key by done.
  intros [_ Heq]%app_inj_tail. apply Hne.
  revert Heq. generalize name'. clear.
  induction name as [|b s IH]; intros [|b' s'] Heq; try done.
  - apply (f_equal String.length) in Heq. rewrite append_cons in Heq.
    simpl in Heq. rewrite length_append in Heq. simpl in Heq. lia.
  - apply (f_equal String.length) in Heq. rewrite append_cons in Heq.
    simpl in Heq. rewrite length_append in Heq. simpl in Heq. lia.
  - rewrite !append_cons in Heq. injection Heq as -> Heq. f_equal. by apply IH.
Qed.

(** X17 [SnapshotStr], [SnapshotView]: a baseline recorded through one entry
    point is matched through another whenever the texts they pass to the
    engine agree: after [SnapshotStr] stored a view in update mode,
    [SnapshotView] of a model whose stripped [View()] is the stripped view,
    made by the same caller in compare mode, returns and reports nothing. *)
Theorem entry_points_share_baselines `{tea_Model Mo} t t' (v : string) (model : Mo)
    name w w1 :
  UpdateSnapshots w = true ->
  SnapshotStr t v name w = (Returned (), w1) ->
  StripANSI (View model) = StripANSI v ->
  let w2 := set_UpdateSnapshots false w1 in
  SnapshotView t' model name w2 = (Returned (), w2) /\
  SnapshotStrRaw t' (StripANSI v) name w2 = (Returned (), w2).
Proof.
  intros Hupd Hrun Hview w2.
  unfold SnapshotStr in Hrun. rewrite entry_point_frame in Hrun.
  destruct (snapshot_update_returned _ _ _ _ _ _ Hupd Hrun)
    as (path & fs1 & fs2 & Hpath & Hm & Hw & ->).
  assert (Hpath2 : resolved_path name 2 w2 = Returned path).
  { subst w2. by rewrite resolved_path_set_UpdateSnapshots, resolved_path_set_fs. }
  assert (Hread : fs_read (w_fs w2) (resolve (w_cwd w2) path) = Ok (StripANSI v)).
  { subst w2. destruct w; simpl in *. by eapply fs_write_read. }
  unfold SnapshotView, SnapshotStrRaw. rewrite !entry_point_frame, Hview.
  split; by apply (snapshot_compare_equal _ _ _ _ _ path).
Qed.
End Outcomes.

(** ** The further outcomes on concrete worlds *)

Lemma snapshot_passes_iff_witness :
  UpdateSnapshots w_baseline = false /\
  snapshot "TestAB" text_ab "ab" 1 w_baseline = (Returned (), w_baseline).
Proof.
  split; [reflexivity|].
  apply (snapshot_passes_iff "TestAB" text_ab "ab" 1 w_baseline eq_refl).
  exists golden_ab. split; reflexivity.
Defined.

Lemma snapshot_mismatch_witness :
  UpdateSnapshots w_baseline = false /\
  resolved_path "ab" 1 w_baseline = Returned golden_ab /\
  fs_read (w_fs w_baseline) (resolve (w_cwd w_baseline) golden_ab) = Ok text_ab /\
  text_ab <> text_aXc_short /\
  snapshot "TestAB" text_aXc_short "ab" 1 w_baseline =
    (Returned (),
     add_report "TestAB"
       (Errorf (msg_mismatch "ab" (unifiedDiff text_ab text_aXc_short))) w_baseline).
Proof.
  assert (Hne : text_ab <> text_aXc_short) by (vm_compute; discriminate).
  split; [reflexivity|]. split; [reflexivity|]. split; [reflexivity|].
  split; [exact Hne|].
  apply (snapshot_mismatch "TestAB" text_aXc_short "ab" 1 w_baseline golden_ab text_ab
           eq_refl eq_refl eq_refl Hne).
Defined.

Lemma snapshot_update_blocked_witness :
  let w := set_UpdateSnapshots true w_blocked in
  UpdateSnapshots w = true /\
  resolved_path "x" 1 w = Returned golden_x /\
  fs_node (w_fs w) ["tmp"; "snaps"] = Some (File "oops") /\
  exists err,
    snapshot "TestX" "text" "x" 1 w =
      (FailNow, add_report "TestX" (Fatalf (msg_cannot_create "/tmp/snaps" err)) w).
Proof.
  cbv zeta. split; [reflexivity|]. split; [reflexivity|]. split; [reflexivity|].
  destruct (snapshot_update_blocked "TestX" "text" "x" 1
              (set_UpdateSnapshots true w_blocked) golden_x ["tmp"; "snaps"] "oops"
              eq_refl eq_refl) as (err & _ & Hrun & _).
  - vm_compute. repeat constructor.
  - reflexivity.
  - exists err. exact Hrun.
Defined.

(** The switch is on and a directory stands where the baseline [x] should
    be. *)
Definition w_directory_at_path : world :=
  set_UpdateSnapshots true
    (set_fs (<[["tmp"; "snaps"; "x.golden"] := Directory]> (w_fs w_empty_dir))
       w_empty_dir).

Lemma snapshot_unreadable_baseline_witness :
  let w := set_UpdateSnapshots false w_directory_at_path in
  let failure op text :=
    "snapshot " +:+ strconv_Quote "x" +:+ ": cannot read golden file: " +:+
    op +:+ " " +:+ golden_x +:+ ": " +:+ text in
  UpdateSnapshots w_blocked = false /\
  resolved_path "x" 1 w_blocked = Returned golden_x /\
  fs_read (w_fs w_blocked) (resolve (w_cwd w_blocked) golden_x) = Err ENOTDIR /\
  snapshot "TestX" "text" "x" 1 w_blocked =
    (FailNow, add_report "TestX" (Fatalf (failure "open" "not a directory")) w_blocked) /\
  UpdateSnapshots w = false /\
  resolved_path "x" 1 w = Returned golden_x /\
  fs_read (w_fs w) (resolve (w_cwd w) golden_x) = Err EISDIR /\
  snapshot "TestX" "text" "x" 1 w =
    (FailNow, add_report "TestX" (Fatalf (failure "read" "is a directory")) w).
Proof.
  cbv zeta.
  assert (Hne : ENOTDIR <> ENOENT) by discriminate.
  assert (Hne' : EISDIR <> ENOENT) by discriminate.
  split; [reflexivity|]. split; [reflexivity|]. split; [reflexivity|]. split.
  { destruct (snapshot_unreadable_baseline "TestX" "text" "x" 1 w_blocked golden_x
                ENOTDIR eq_refl eq_refl eq_refl Hne) as [[(_ & _ & Hrun)|(He & _)] _].
    - exact Hrun.
    - discriminate He. }
  split; [reflexivity|]. split; [reflexivity|]. split; [reflexivity|].
  destruct (snapshot_unreadable_baseline "TestX" "text" "x" 1
              (set_UpdateSnapshots false w_directory_at_path) golden_x
              EISDIR eq_refl eq_refl eq_refl Hne') as [[(He & _)|(_ & _ & Hrun)] _].
  - discriminate He.
  - exact Hrun.
Defined.

Lemma snapshot_update_onto_directory_witness :
  UpdateSnapshots w_directory_at_path = true /\
  resolved_path "x" 1 w_directory_at_path = Returned golden_x /\
  fs_node (w_fs w_directory_at_path) (resolve [] golden_x) = Some Directory /\
  fst (snapshot "TestX" "text" "x" 1 w_directory_at_path) = FailNow /\
  w_reports (snd (snapshot "TestX" "text" "x" 1 w_directory_at_path)) =
    [("TestX", Fatalf (msg_cannot_write golden_x (mkPathError "open" golden_x EISDIR)))].
Proof.
  split; [reflexivity|]. split; [reflexivity|]. split; [reflexivity|].
  destruct (snapshot_update_onto_directory "TestX" "text" "x" 1 w_directory_at_path
              golden_x (w_fs w_directory_at_path) eq_refl eq_refl eq_refl eq_refl)
    as (Hrun & _).
  rewrite Hrun. split; reflexivity.
Defined.

Lemma snapshot_update_again_witness :
  UpdateSnapshots w_first_run = true /\
  snapshot "TestBoard" "hello" "basic" 2 w_first_run = (Returned (), w_after_first_run) /\
  times 2 (snapshot "TestBoard" "hello" "basic" 2) w_after_first_run =
    (Returned (), w_after_first_run).
Proof.
  assert (Hrun : snapshot "TestBoard" "hello" "basic" 2 w_first_run =
                 (Returned (), w_after_first_run)) by (vm_compute; reflexivity).
  split; [reflexivity|]. split; [exact Hrun|].
  destruct (snapshot_update_again "TestBoard" "hello" "bye" "basic" 2
              w_first_run w_after_first_run eq_refl Hrun) as (path & _ & _ & _ & Hn).
  exact (Hn 2).
Defined.

Lemma snapshot_update_frame_witness :
  let w := set_UpdateSnapshots true w_baseline in
  UpdateSnapshots w = true /\
  resolved_path "x" 1 w = Returned golden_x /\
  fs_read (w_fs w) (resolve [] golden_ab) = Ok text_ab /\
  fs_read (w_fs (snd (snapshot "TestX" "text" "x" 1 w))) (resolve [] golden_ab)
    = Ok text_ab.
Proof.
  cbv zeta. split; [reflexivity|]. split; [reflexivity|]. split; [reflexivity|].
  destruct (snapshot_update_frame "TestX" "text" "x" 1
              (set_UpdateSnapshots true w_baseline) golden_x eq_refl eq_refl)
    as [_ Hfiles].
  apply Hfiles; [vm_compute; discriminate|reflexivity].
Defined.

Lemma snapshotPath_golden_suffix_witness :
  fst (snapshotPath "a/b" 1 w_empty_dir) = Returned "/tmp/snaps/a/b.golden" /\
  exists dirs segs stem prefix,
    strings_Split "a/b" slash = segs ++ [stem] /\
    strings_Split "/tmp/snaps/a/b.golden" slash = dirs ++ [stem +:+ ".golden"] /\
    "/tmp/snaps/a/b.golden" = prefix +:+ stem +:+ ".golden".
Proof.
  assert (Hpath : fst (snapshotPath "a/b" 1 w_empty_dir) =
                  Returned "/tmp/snaps/a/b.golden") by reflexivity.
  split; [exact Hpath|].
  destruct (snapshotPath_golden_suffix "a/b" 1 w_empty_dir _ Hpath)
    as (dirs & segs & stem & prefix & Hname & Hsegs & Heq & _).
  by exists dirs, segs, stem, prefix.
Defined.

Lemma snapshotPath_simple_names_witness :
  dir_for (snapshot_go :: w_frames w_empty_dir) 1 (snapshotBaseDir w_empty_dir)
    = Some "/tmp/snaps" /\
  exists path path',
    fst (snapshotPath "x" 1 w_empty_dir) = Returned path /\
    fst (snapshotPath "y" 1 w_empty_dir) = Returned path' /\
    resolve [] path = ["tmp"; "snaps"; "x.golden"] /\
    resolve [] path' = ["tmp"; "snaps"; "y.golden"].
Proof.
  split; [reflexivity|].
  destruct (snapshotPath_simple_names "x" "y" 1 w_empty_dir "/tmp/snaps"
              eq_refl eq_refl eq_refl) as (path & path' & Hp & Hp' & Hk & Hk' & _).
  exists path, path'. split; [exact Hp|]. split; [exact Hp'|].
  split; [exact (Hk [])|exact (Hk' [])].
Defined.

Lemma entry_points_share_baselines_witness :
  let model := {| view := "green line" |} in
  let w1 := snd (SnapshotStr "TestRecord" green_line "shared" (w_tempdir true)) in
  UpdateSnapshots (w_tempdir true) = true /\
  SnapshotStr "TestRecord" green_line "shared" (w_tempdir true) = (Returned (), w1) /\
  StripANSI (View model) = StripANSI green_line /\
  SnapshotView "TestCheck" model "shared" (set_UpdateSnapshots false w1) =
    (Returned (), set_UpdateSnapshots false w1).
Proof.
  cbv zeta.
  assert (Hrun : SnapshotStr "TestRecord" green_line "shared" (w_tempdir true) =
    (Returned (), snd (SnapshotStr "TestRecord" green_line "shared" (w_tempdir true))))
    by (vm_compute; reflexivity).
  assert (Hview : StripANSI (View {| view := "green line" |}) = StripANSI green_line)
    by reflexivity.
  split; [reflexivity|]. split; [exact Hrun|]. split; [exact Hview|].
  exact (proj1 (entry_points_share_baselines "TestRecord" "TestCheck" green_line
                  {| view := "green line" |} "shared" (w_tempdir true) _
                  eq_refl Hrun Hview)).
Defined.

(** * Assertions on the rendered view (view.go)

    The assertions take a [testing.TB]; of its methods they call [Helper]
    and [Errorf].  A line index is an [int] and may be negative, so it is
    a [Z] here. *)

(** The verb [%d] for an [int]. *)
Definition fmt_d (z : Z) : string :=
  if (z <? 0)%Z then String "-" (itoa (Z.to_nat (- z))) else itoa (Z.to_nat z).

Definition msg_ContainsStr (text stripped : string) : string :=
  "ContainsStr: view does not contain " +:+ strconv_Quote text +:+
  String nl ("  stripped view: " +:+ strconv_Quote stripped).

Definition msg_NotContainsStr (text stripped : string) : string :=
  "NotContainsStr: view unexpectedly contains " +:+ strconv_Quote text +:+
  String nl ("  stripped view: " +:+ strconv_Quote stripped).

Definition msg_line_range (fn : string) (lineIdx : Z) (n : nat) : string :=
  fn +:+ ": line index " +:+ fmt_d lineIdx +:+ " out of range (view has " +:+
  itoa n +:+ " lines)".

Definition msg_ViewLineContains (lineIdx : Z) (line text : string) : string :=
  "ViewLineContains: line " +:+ fmt_d lineIdx +:+ " = " +:+ strconv_Quote line +:+
  ", want it to contain " +:+ strconv_Quote text.

Definition msg_ViewLineEquals (lineIdx : Z) (line text : string) : string :=
  "ViewLineEquals: line " +:+ fmt_d lineIdx +:+ " = " +:+ strconv_Quote line +:+
  ", want " +:+ strconv_Quote text.

(** [lines[i]] for an [int] index: out of range it is a run-time panic. *)
Definition slice_index (lines : list string) (i : Z) : M string :=
  if (i <? 0)%Z then
    panic ("runtime error: index out of range [" +:+ fmt_d i +:+ "]")
  else
    match lines !! Z.to_nat i with
    | Some line => mret line
    | None =>
        panic ("runtime error: index out of range [" +:+ fmt_d i +:+
               "] with length " +:+ itoa (length lines))
    end.

(** The loop [for len(lines) > 0 && lines[len(lines)-1] == ""] of
    [LinesFromStr], unrolled at most [fuel] times; each iteration makes
    the slice one shorter, so its length is fuel enough. *)
Fixpoint trim_trailing (fuel : nat) (lines : list string) : list string :=
  match fuel with
  | 0 => lines
  | S fuel' =>
      if (0 <? length lines) && String.eqb (at_ lines (length lines - 1)) ""
      then trim_trailing fuel' (take (length lines - 1) lines)
      else lines
  end.

Section View.
Context `{Externals}.

Definition ContainsStr (t : testing_T) (view text : string) : M unit :=
  t_Helper t;;
  let stripped := StripANSI view in
  if negb (strings_Contains stripped text)
  then t_Errorf t (msg_ContainsStr text stripped)
  else mret ().

Definition NotContainsStr (t : testing_T) (view text : string) : M unit :=
  t_Helper t;;
  let stripped := StripANSI view in
  if strings_Contains stripped text
  then t_Errorf t (msg_NotContainsStr text stripped)
  else mret ().

Definition LinesFromStr (view : string) : list string :=
  let raw := strings_Split view nl in
  let lines := map StripANSI raw in
  trim_trailing (length lines) lines.

Definition ViewContains `{tea_Model Mo} (t : testing_T) (model : Mo)
    (text : string) : M unit :=
  t_Helper t;;
  ContainsStr t (View model) text.

Definition ViewNotContains `{tea_Model Mo} (t : testing_T) (model : Mo)
    (text : string) : M unit :=
  t_Helper t;;
  NotContainsStr t (View model) text.

Definition ViewLines `{tea_Model Mo} (model : Mo) : list string :=
  LinesFromStr (View model).

Definition ViewLineContains `{tea_Model Mo} (t : testing_T) (model : Mo)
    (lineIdx : Z) (text : string) : M unit :=
  t_Helper t;;
  let lines := ViewLines model in
  if (lineIdx <? 0)%Z || (Z.of_nat (length lines) <=? lineIdx)%Z then
    t_Errorf t (msg_line_range "ViewLineContains" lineIdx (length lines))
  else
    line ← slice_index lines lineIdx;
    if negb (strings_Contains line text)
    then t_Errorf t (msg_ViewLineContains lineIdx line text)
    else mret ().

Definition ViewLineEquals `{tea_Model Mo} (t : testing_T) (model : Mo)
    (lineIdx : Z) (text : string) : M unit :=
  t_Helper t;;
  let lines := ViewLines model in
  if (lineIdx <? 0)%Z || (Z.of_nat (length lines) <=? lineIdx)%Z then
    t_Errorf t (msg_line_range "ViewLineEquals" lineIdx (length lines))
  else
    line ← slice_index lines lineIdx;
    if negb (String.eqb line text)
    then t_Errorf t (msg_ViewLineEquals lineIdx line text)
    else mret ().
End View.

Lemma trim_trailing_spec (fuel : nat) : forall lines,
  length lines <= fuel ->
  (exists k, lines = trim_trailing fuel lines ++ replicate k "") /\
  last (trim_trailing fuel lines) <> Some "".
Proof.
  induction fuel as [|fuel IH]; intros lines Hlen.
  { destruct lines; [|simpl in Hlen; lia]. split; [by exists 0|done]. }
  simpl. destruct (decide (lines = [])) as [->|Hne].
  { split; [by exists 0|done]. }
  destruct (exists_last Hne) as (l & x & ->).
  rewrite length_app in *. simpl in *.
  replace (0 <? length l + 1) with true by (symmetry; apply Nat.ltb_lt; lia).
  replace (length l + 1 - 1) with (length l) by lia.
  unfold at_. rewrite nth_middle. simpl.
  destruct (String.eqb_spec x "") as [->|Hx].
  - rewrite take_app_length. destruct (IH l) as [[k Hk] Hlast]; [lia|].
    split; [|done]. exists (S k). rewrite replicate_S_end, app_assoc. by rewrite <- Hk.
  - split; [exists 0; by rewrite app_nil_r|]. rewrite last_snoc. congruence.
Qed.

Section View_facts.
Context `{Externals}.
Implicit Types (w : world) (t : testing_T).

(** X18 [LinesFromStr]: the result is the lines of the view, each stripped,
    without the empty lines at the end: the stripped lines are the result
    followed by some number of empty lines, and the result does not end in
    an empty line. *)
Theorem LinesFromStr_trimmed (v : string) :
  let stripped := map StripANSI (strings_Split v nl) in
  (exists k, stripped = LinesFromStr v ++ replicate k "") /\
  last (LinesFromStr v) <> Some "" /\
  length (LinesFromStr v) <= length stripped /\
  (forall n line, LinesFromStr v !! n = Some line -> stripped !! n = Some line).
Proof.
  intros stripped.
  destruct (trim_trailing_spec (length stripped) stripped) as [[k Hk] Hlast]; [done|].
  change (trim_trailing (length stripped) stripped) with (LinesFromStr v) in Hk, Hlast.
  split; [by exists k|]. split; [done|]. split.
  - pose proof (f_equal length Hk) as Hlen. rewrite length_app in Hlen. lia.
  - intros n line Hn. rewrite Hk. by apply lookup_app_l_Some.
Qed.

(** [ViewLineEquals] and [ViewLineContains], each as one expression. *)
Lemma ViewLineEquals_eq `{tea_Model Mo} t (model : Mo) lineIdx text w :
  ViewLineEquals t model lineIdx text w =
  (Returned (),
   match (if (lineIdx <? 0)%Z then None else ViewLines model !! Z.to_nat lineIdx) with
   | None =>
       add_report t
         (Errorf (msg_line_range "ViewLineEquals" lineIdx (length (ViewLines model)))) w
   | Some line =>
       if String.eqb line text then w
       else add_report t (Errorf (msg_ViewLineEquals lineIdx line text)) w
   end).
Proof.
  unfold ViewLineEquals, slice_index, mbind, M_bind, t_Helper, t_Errorf, mret, M_ret.
  cbv zeta. destruct (Z.ltb_spec lineIdx 0) as [Hneg|Hpos]; simpl; [done|].
  destruct (Z.leb_spec (Z.of_nat (length (ViewLines model))) lineIdx) as [Hge|Hlt].
  - rewrite lookup_ge_None_2 by lia. done.
  - destruct (lookup_lt_is_Some_2 (ViewLines model) (Z.to_nat lineIdx)) as [line Hl];
      [lia|].
    rewrite Hl. by destruct (String.eqb line text).
Qed.

Lemma ViewLineContains_eq `{tea_Model Mo} t (model : Mo) lineIdx text w :
  ViewLineContains t model lineIdx text w =
  (Returned (),
   match (if (lineIdx <? 0)%Z then None else ViewLines model !! Z.to_nat lineIdx) with
   | None =>
       add_report t
         (Errorf (msg_line_range "ViewLineContains" lineIdx (length (ViewLines model)))) w
   | Some line =>
       if strings_Contains line text then w
       else add_report t (Errorf (msg_ViewLineContains lineIdx line text)) w
   end).
Proof.
  unfold ViewLineContains, slice_index, mbind, M_bind, t_Helper, t_Errorf, mret, M_ret.
  cbv zeta. destruct (Z.ltb_spec lineIdx 0) as [Hneg|Hpos]; simpl; [done|].
  destruct (Z.leb_spec (Z.of_nat (length (ViewLines model))) lineIdx) as [Hge|Hlt].
  - rewrite lookup_ge_None_2 by lia. done.
  - destruct (lookup_lt_is_Some_2 (ViewLines model) (Z.to_nat lineIdx)) as [line Hl];
      [lia|].
    rewrite Hl. by destruct (strings_Contains line text).
Qed.

(** X19 [ViewLineEquals]: for every index, negative or beyond the last
    line, the call returns (the slice is never indexed out of range, so
    there is no run-time panic) and it never stops the test; it reports
    nothing exactly when the index names a line of [ViewLines] and that
    line is the text; an index out of range is reported as such, with the
    index and the number of lines. *)
Theorem ViewLineEquals_graceful `{tea_Model Mo} t (model : Mo) lineIdx text w :
  let lines := ViewLines model in
  let w' := snd (ViewLineEquals t model lineIdx text w) in
  fst (ViewLineEquals t model lineIdx text w) = Returned () /\
  (w' = w <-> (0 <= lineIdx)%Z /\ lines !! Z.to_nat lineIdx = Some text) /\
  ((lineIdx < 0)%Z \/ (Z.of_nat (length lines) <= lineIdx)%Z ->
   w' = add_report t
          (Errorf (msg_line_range "ViewLineEquals" lineIdx (length lines))) w) /\
  (w' = w \/ exists msg, w' = add_report t (Errorf msg) w).
Proof.
  intros lines w'. subst w'. rewrite ViewLineEquals_eq. fold lines. simpl.
  split; [done|].
  destruct (Z.ltb_spec lineIdx 0) as [Hneg|Hpos].
  { split; [|split; [done|by eauto]].
    split; [by intros ?%add_report_ne|]. intros [? _]. lia. }
  destruct (lines !! Z.to_nat lineIdx) as [line|] eqn:Hl.
  - destruct (String.eqb_spec line text) as [->|Hne].
    + split; [done|]. split; [|by left].
      intros [?|Hge]; [lia|]. apply lookup_lt_Some in Hl. lia.
    + split; [|split; [|by eauto]].
      * split; [by intros ?%add_report_ne|]. intros [_ [= ?]]. done.
      * intros [?|Hge]; [lia|]. apply lookup_lt_Some in Hl. lia.
  - split; [|split; [done|by eauto]].
    split; [by intros ?%add_report_ne|]. by intros [_ ?].
Qed.

(** X20 [ViewLineContains]: like [ViewLineEquals] it returns for every
    index and reports nothing exactly when the index names a line that
    contains the text; and it is the weaker assertion: whenever
    [ViewLineEquals] reports nothing for a model, an index and a text,
    [ViewLineContains] reports nothing for them either. *)
Theorem ViewLineContains_graceful `{tea_Model Mo} t (model : Mo) lineIdx text w :
  let lines := ViewLines model in
  let w' := snd (ViewLineContains t model lineIdx text w) in
  fst (ViewLineContains t model lineIdx text w) = Returned () /\
  (w' = w <->
   (0 <= lineIdx)%Z /\
   exists line, lines !! Z.to_nat lineIdx = Some line /\
                strings_Contains line text = true) /\
  ((lineIdx < 0)%Z \/ (Z.of_nat (length lines) <= lineIdx)%Z ->
   w' = add_report t
          (Errorf (msg_line_range "ViewLineContains" lineIdx (length lines))) w) /\
  (snd (ViewLineEquals t model lineIdx text w) = w -> w' = w).
Proof.
  intros lines w'. subst w'. rewrite ViewLineContains_eq, ViewLineEquals_eq.
  fold lines. simpl. split; [done|].
  destruct (Z.ltb_spec lineIdx 0) as [Hneg|Hpos].
  { split; [|split; [done|by intros ?%add_report_ne]].
    split; [by intros ?%add_report_ne|]. intros [? _]. lia. }
  destruct (lines !! Z.to_nat lineIdx) as [line|] eqn:Hl.
  - split; [|split].
    + destruct (strings_Contains line text) eqn:Hc.
      * split; [|done]. intros _. split; [done|]. by exists line.
      * split; [by intros ?%add_report_ne|].
        intros (_ & line' & [= <-] & Hc'). congruence.
    + intros [?|Hge]; [lia|]. apply lookup_lt_Some in Hl. lia.
    + destruct (String.eqb_spec line text) as [->|Hne].
      * by rewrite Contains_refl.
      * by intros ?%add_report_ne.
  - split; [|split; [done|by intros ?%add_report_ne]].
    split; [by intros ?%add_report_ne|]. by intros (_ & line & ? & _).
Qed.

(** X21 [ContainsStr], [NotContainsStr]: both return for every view and
    text and neither stops the test; [ContainsStr] reports nothing exactly
    when the stripped view contains the text, [NotContainsStr] exactly when
    it does not, so for each view and text exactly one of the two reports
    a failure.  The empty text is contained in every view.  The model
    variants are the string variants on [View()]. *)
Theorem ContainsStr_NotContainsStr `{tea_Model Mo} t (v text : string) (model : Mo) w :
  fst (ContainsStr t v text w) = Returned () /\
  fst (NotContainsStr t v text w) = Returned () /\
  (snd (ContainsStr t v text w) = w <->
   strings_Contains (StripANSI v) text = true) /\
  (snd (NotContainsStr t v text w) = w <->
   strings_Contains (StripANSI v) text = false) /\
  (snd (ContainsStr t v text w) = w <-> snd (NotContainsStr t v text w) <> w) /\
  snd (ContainsStr t v "" w) = w /\
  ViewContains t model text w = ContainsStr t (View model) text w /\
  ViewNotContains t model text w = NotContainsStr t (View model) text w.
Proof.
  unfold ViewContains, ViewNotContains, ContainsStr, NotContainsStr, mbind, M_bind,
    t_Helper, t_Errorf, mret, M_ret. cbv zeta.
  assert (Hempty : strings_Contains (StripANSI v) "" = true)
    by (by destruct (StripANSI v)).
  rewrite Hempty.
  destruct (strings_Contains (StripANSI v) text); simpl;
    repeat split; try done; try (by intros ?%add_report_ne);
    try (intros _; apply add_report_ne); intros Hw; by destruct Hw.
Qed.
End View_facts.

(** * The test harness (harness.go)

    [Send] and [SendAndCollect] drive a model through its [Update] method.
    [Update] returns a [tea.Model]; the harness asserts it back to the
    caller's model type and panics when the assertion fails. *)

(** What [Update] returned as the next model: a model of the caller's
    type, or a value of another type, known by the name [%T] prints. *)
Inductive updated (Mo : Type) :=
  | SameType (model : Mo)
  | OtherType (type_name : string).
Arguments SameType {Mo} model.
Arguments OtherType {Mo} type_name.

(** [Update] of the model type, with the [tea.Cmd] it returns ([None] is a
    nil command), and what [%T] prints for a model. *)
Class tea_Update (Mo Msg Cmd : Type) := {
  Update : Mo -> Msg -> updated Mo * option Cmd;
  type_name_of : Mo -> string;
}.

Definition em_dash : string := String "226" (String "128" (String "148" "")).

Definition msg_broken_Update (fn got want : string) : string :=
  "tuitestkit." +:+ fn +:+ ": Update returned " +:+ got +:+ ", expected " +:+ want
  +:+ " " +:+ em_dash +:+ " broken Update implementation".

Section Harness.
Context {Mo Msg Cmd : Type} `{!tea_Update Mo Msg Cmd}.

(** The loop [for _, msg := range msgs] of [Send]. *)
Fixpoint Send_loop (model : Mo) (msgs : list Msg) : outcome Mo :=
  match msgs with
  | [] => Returned model
  | msg :: rest =>
      let '(next, _) := Update model msg in
      match next with
      | SameType concrete => Send_loop concrete rest
      | OtherType got =>
          Panicked (msg_broken_Update "Send" got (type_name_of model))
      end
  end.

Definition Send (model : Mo) (msgs : list Msg) : outcome Mo :=
  if length msgs =? 0 then Returned model else Send_loop model msgs.

(** The loop of [SendAndCollect]; [cmds] is the slice collected so far. *)
Fixpoint SendAndCollect_loop (model : Mo) (cmds : list Cmd) (msgs : list Msg)
  : outcome (Mo * list Cmd) :=
  match msgs with
  | [] => Returned (model, cmds)
  | msg :: rest =>
      let '(next, cmd) := Update model msg in
      match next with
      | SameType concrete =>
          SendAndCollect_loop concrete
            (match cmd with Some c => cmds ++ [c] | None => cmds end) rest
      | OtherType got =>
          Panicked (msg_broken_Update "SendAndCollect" got (type_name_of model))
      end
  end.

Definition SendAndCollect (model : Mo) (msgs : list Msg) : outcome (Mo * list Cmd) :=
  let cmds := [] in
  if length msgs =? 0 then Returned (model, cmds)
  else SendAndCollect_loop model cmds msgs.

Lemma Send_eq_loop model msgs : Send model msgs = Send_loop model msgs.
Proof. by destruct msgs. Qed.

Lemma SendAndCollect_eq_loop model msgs :
  SendAndCollect model msgs = SendAndCollect_loop model [] msgs.
Proof. by destruct msgs. Qed.

Lemma Send_loop_app model msgs1 msgs2 :
  Send_loop model (msgs1 ++ msgs2) =
  match Send_loop model msgs1 with
  | Returned m => Send_loop m msgs2
  | FailNow => FailNow
  | Panicked msg => Panicked msg
  end.
Proof.
  revert model. induction msgs1 as [|msg msgs1 IH]; intros model; simpl; [done|].
  destruct (Update model msg) as [[concrete|got] cmd]; [apply IH|done].
Qed.

(** The slice collected so far only ever grows at its end. *)
Lemma SendAndCollect_loop_acc model cmds msgs :
  SendAndCollect_loop model cmds msgs =
  match SendAndCollect_loop model [] msgs with
  | Returned (m, collected) => Returned (m, cmds ++ collected)
  | FailNow => FailNow
  | Panicked msg => Panicked msg
  end.
Proof.
  revert model cmds. induction msgs as [|msg msgs IH]; intros model cmds; simpl.
  { by rewrite app_nil_r. }
  destruct (Update model msg) as [[concrete|got] [c|]]; [| |done..].
  - rewrite (IH concrete (cmds ++ [c])), (IH concrete [c]).
    destruct (SendAndCollect_loop concrete [] msgs) as [[m collected]| |]; [|done..].
    by rewrite <- app_assoc.
  - apply IH.
Qed.

Lemma SendAndCollect_loop_app model msgs1 msgs2 :
  SendAndCollect_loop model [] (msgs1 ++ msgs2) =
  match SendAndCollect_loop model [] msgs1 with
  | Returned (m, cmds1) =>
      match SendAndCollect_loop m [] msgs2 with
      | Returned (m', cmds2) => Returned (m', cmds1 ++ cmds2)
      | FailNow => FailNow
      | Panicked msg => Panicked msg
      end
  | FailNow => FailNow
  | Panicked msg => Panicked msg
  end.
Proof.
  revert model. induction msgs1 as [|msg msgs1 IH]; intros model; simpl.
  { by destruct (SendAndCollect_loop model [] msgs2) as [[m' cmds2]| |]. }
  destruct (Update model msg) as [[concrete|got] [c|]]; [| |done..].
  - rewrite (SendAndCollect_loop_acc concrete [c] (msgs1 ++ msgs2)).
    rewrite (SendAndCollect_loop_acc concrete [c] msgs1). rewrite IH.
    destruct (SendAndCollect_loop concrete [] msgs1) as [[m cmds1]| |]; [|done..].
    destruct (SendAndCollect_loop m [] msgs2) as [[m' cmds2]| |]; [|done..].
    by rewrite app_assoc.
  - apply IH.
Qed.

(** X22 [Send]: sending two runs of messages one after the other is
    sending them all at once: [Send(model, msgs1..., msgs2...)] is
    [Send(Send(model, msgs1...), msgs2...)], and it panics when either
    stage panics, with that stage's message.  With no message the model
    comes back unchanged, and the call never stops a test. *)
Theorem Send_composes (model : Mo) (msgs1 msgs2 : list Msg) :
  Send model (msgs1 ++ msgs2) =
    match Send model msgs1 with
    | Returned m => Send m msgs2
    | FailNow => FailNow
    | Panicked msg => Panicked msg
    end /\
  Send model [] = Returned model /\
  Send model (msgs1 ++ msgs2) <> FailNow.
Proof.
  assert (Hno : forall msgs m, Send_loop m msgs <> FailNow).
  { induction msgs as [|msg msgs IH]; intros m; simpl; [done|].
    destruct (Update m msg) as [[concrete|got] cmd]; [apply IH|done]. }
  rewrite !Send_eq_loop, Send_loop_app. split; [|split; [done|]].
  - destruct (Send_loop model msgs1); [by rewrite Send_eq_loop|done..].
  - rewrite <- Send_loop_app. apply Hno.
Qed.

(** X23 [SendAndCollect]: it drives the model exactly as [Send] does (the
    same final model, and a panic exactly when [Send] panics); the
    commands it returns are the non-nil commands of the [Update] calls, in
    order, at most one for each message; and collecting over two runs of
    messages one after the other gives the commands of the first run
    followed by those of the second. *)
Theorem SendAndCollect_agrees (model : Mo) (msgs1 msgs2 : list Msg) :
  ((exists m cmds,
      SendAndCollect model msgs1 = Returned (m, cmds) /\
      Send model msgs1 = Returned m /\ length cmds <= length msgs1) \/
   (exists got m,
      SendAndCollect model msgs1 =
        Panicked (msg_broken_Update "SendAndCollect" got (type_name_of m)) /\
      Send model msgs1 = Panicked (msg_broken_Update "Send" got (type_name_of m)))) /\
  SendAndCollect model (msgs1 ++ msgs2) =
    match SendAndCollect model msgs1 with
    | Returned (m, cmds1) =>
        match SendAndCollect m msgs2 with
        | Returned (m', cmds2) => Returned (m', cmds1 ++ cmds2)
        | FailNow => FailNow
        | Panicked msg => Panicked msg
        end
    | FailNow => FailNow
    | Panicked msg => Panicked msg
    end /\
  (forall msg,
     SendAndCollect model [msg] =
     match Update model msg with
     | (SameType m, Some c) => Returned (m, [c])
     | (SameType m, None) => Returned (m, [])
     | (OtherType got, _) =>
         Panicked (msg_broken_Update "SendAndCollect" got (type_name_of model))
     end).
Proof.
  split; [|split].
  - rewrite SendAndCollect_eq_loop, Send_eq_loop.
    revert model. induction msgs1 as [|msg msgs IH]; intros model; simpl.
    { left. exists model, []. by repeat split. }
    destruct (Update model msg) as [[concrete|got] cmd]; [|right; by exists got, model].
    rewrite SendAndCollect_loop_acc.
    destruct (IH concrete) as [(m & cmds & -> & -> & Hlen)|(got & m & -> & ->)].
    + left. eexists m, _. split; [done|]. split; [done|].
      rewrite length_app. destruct cmd; simpl; lia.
    + right. by exists got, m.
  - rewrite !SendAndCollect_eq_loop, SendAndCollect_loop_app.
    destruct (SendAndCollect_loop model [] msgs1) as [[m cmds1]| |]; [|done..].
    by rewrite SendAndCollect_eq_loop.
  - intros msg. unfold SendAndCollect. simpl.
    by destruct (Update model msg) as [[m|got] [c|]].
Qed.
End Harness.

(** [ExecCmds].  A [tea.Cmd] is a function that returns a [tea.Msg]; a
    message is nil, a [tea.BatchMsg] (a slice of commands, nil ones among
    them), or any other value.  Commands are taken to be pure functions
    that return, as the ones a test hands to [ExecCmds] are. *)
#[warnings="-register-all"]
Inductive tea_Msg (A : Type) :=
  | NilMsg
  | BatchMsg (cmds : list (option (unit -> tea_Msg A)))
  | OtherMsg (a : A).
Arguments NilMsg {A}.
Arguments BatchMsg {A} cmds.
Arguments OtherMsg {A} a.

Definition tea_Cmd (A : Type) : Type := unit -> tea_Msg A.

Section ExecCmds.
Context {A : Type}.

(** What one turn of the loop of [ExecCmds] appends to [msgs] for the
    message a command returned; the recursive call is the one on the
    commands of a batch. *)
Fixpoint exec_msg (msg : tea_Msg A) : list (tea_Msg A) :=
  match msg with
  | NilMsg => []
  | BatchMsg batch =>
      flat_map (fun cmd : option (tea_Cmd A) =>
                  match cmd with
                  | None => []
                  | Some cmd => exec_msg (cmd tt)
                  end) batch
  | OtherMsg a => [OtherMsg a]
  end.

Definition ExecCmds (cmds : list (option (tea_Cmd A))) : list (tea_Msg A) :=
  exec_msg (BatchMsg cmds).

Definition is_plain (msg : tea_Msg A) : Prop :=
  match msg with
  | OtherMsg _ => True
  | _ => False
  end.

(** The loop of the source, turn by turn. *)
Lemma ExecCmds_unfold (cmds : list (option (tea_Cmd A))) :
  ExecCmds cmds =
  match cmds with
  | [] => []
  | None :: rest => ExecCmds rest
  | Some cmd :: rest =>
      match cmd tt with
      | NilMsg => ExecCmds rest
      | BatchMsg batch => ExecCmds batch ++ ExecCmds rest
      | OtherMsg a => OtherMsg a :: ExecCmds rest
      end
  end.
Proof.
  destruct cmds as [|[cmd|] rest]; [done| |done].
  unfold ExecCmds. simpl. by destruct (cmd tt).
Qed.

Lemma ExecCmds_app (cmds1 cmds2 : list (option (tea_Cmd A))) :
  ExecCmds (cmds1 ++ cmds2) = ExecCmds cmds1 ++ ExecCmds cmds2.
Proof. unfold ExecCmds. simpl. apply flat_map_app. Qed.

Lemma exec_msg_plain (msg : tea_Msg A) : Forall is_plain (exec_msg msg).
Proof.
  revert msg. fix IH 1. intros [|batch|a]; simpl.
  - constructor.
  - induction batch as [|[cmd|] batch IHb]; simpl; [constructor| |done].
    apply Forall_app. split; [apply IH|done].
  - by repeat constructor.
Qed.

(** X29 [ExecCmds]: the result holds no nil message and no batch, at any
    depth of nesting: every message in it is a plain message some command
    returned.  A nil command and a command that returns nil add nothing; a
    command that returns a batch adds what executing the batch gives, so
    [ExecCmds] of one such command is [ExecCmds] of the batch; and the
    messages come in the order of the commands: executing two runs of
    commands one after the other gives the messages of the first followed
    by those of the second. *)
Theorem ExecCmds_flattens (cmds1 cmds2 : list (option (tea_Cmd A)))
    (batch : list (option (tea_Cmd A))) (a : A) :
  Forall is_plain (ExecCmds cmds1) /\
  ExecCmds (cmds1 ++ cmds2) = ExecCmds cmds1 ++ ExecCmds cmds2 /\
  ExecCmds (None :: cmds1) = ExecCmds cmds1 /\
  ExecCmds (Some (fun _ => NilMsg) :: cmds1) = ExecCmds cmds1 /\
  ExecCmds (Some (fun _ => OtherMsg a) :: cmds1) = OtherMsg a :: ExecCmds cmds1 /\
  ExecCmds (Some (fun _ => BatchMsg batch) :: cmds1) = ExecCmds (batch ++ cmds1) /\
  ExecCmds [Some (fun _ => BatchMsg batch)] = ExecCmds batch.
Proof.
  split; [apply exec_msg_plain|]. split; [apply ExecCmds_app|].
  split; [by rewrite ExecCmds_unfold|]. split; [by rewrite ExecCmds_unfold|].
  split; [by rewrite ExecCmds_unfold|]. split.
  - by rewrite ExecCmds_unfold, ExecCmds_app.
  - rewrite ExecCmds_unfold. change (ExecCmds []) with (@nil (tea_Msg A)).
    by rewrite app_nil_r.
Qed.
End ExecCmds.

(** * Mock building blocks (mock.go)

    The recorder keeps the calls in a slice behind a mutex; each method
    holds the mutex from its first statement to its return, so each is one
    step on the slice.  The arguments of a call are a [[]any] that the
    functions modelled here store and hand back but never look into. *)

Section Mock.
Context {Args : Type}.

Record MockCall := mkMockCall {
  Method : string;
  call_Args : Args;
}.

(** The field [calls] of a [MockCallRecorder]. *)
Definition MockCallRecorder := list MockCall.

Definition MockCallRecorder_Record (method : string) (args : Args)
    (calls : MockCallRecorder) : MockCallRecorder :=
  calls ++ [mkMockCall method args].

Definition MockCallRecorder_CallCount (method : string) (calls : MockCallRecorder)
  : nat :=
  foldl (fun n c => if String.eqb (Method c) method then n + 1 else n) 0 calls.

Definition MockCallRecorder_Calls (calls : MockCallRecorder) : list MockCall :=
  calls.

Definition MockCallRecorder_CallsFor (method : string) (calls : MockCallRecorder)
  : list MockCall :=
  foldl (fun out c => if String.eqb (Method c) method then out ++ [c] else out)
        [] calls.

Definition MockCallRecorder_Reset (calls : MockCallRecorder) : MockCallRecorder :=
  [].

Definition msg_AssertCalled (method : string) : string :=
  "expected " +:+ strconv_Quote method +:+ " to be called, but it was not".

Definition msg_AssertNotCalled (method : string) (n : nat) : string :=
  "expected " +:+ strconv_Quote method +:+ " not to be called, but it was called "
  +:+ itoa n +:+ " time(s)".

Definition msg_AssertCalledN (method : string) (n : Z) (got : nat) : string :=
  "expected " +:+ strconv_Quote method +:+ " to be called " +:+ fmt_d n
  +:+ " time(s), got " +:+ itoa got.

Definition AssertCalled (t : testing_T) (r : MockCallRecorder) (method : string)
  : M unit :=
  t_Helper t;;
  if MockCallRecorder_CallCount method r =? 0
  then t_Errorf t (msg_AssertCalled method)
  else mret ().

Definition AssertNotCalled (t : testing_T) (r : MockCallRecorder) (method : string)
  : M unit :=
  t_Helper t;;
  let n := MockCallRecorder_CallCount method r in
  if 0 <? n
  then t_Errorf t (msg_AssertNotCalled method n)
  else mret ().

Definition AssertCalledN (t : testing_T) (r : MockCallRecorder) (method : string)
    (n : Z) : M unit :=
  t_Helper t;;
  let got := MockCallRecorder_CallCount method r in
  if negb (Z.of_nat got =? n)%Z
  then t_Errorf t (msg_AssertCalledN method n got)
  else mret ().

(** A run of [Record] calls, the oldest first. *)
Definition record_all (ops : list (string * Args)) (calls : MockCallRecorder)
  : MockCallRecorder :=
  foldl (fun calls op => MockCallRecorder_Record (fst op) (snd op) calls) calls ops.

Definition called (method : string) (c : MockCall) : bool :=
  String.eqb (Method c) method.

Lemma CallsFor_filter method calls :
  MockCallRecorder_CallsFor method calls = List.filter (called method) calls.
Proof.
  unfold MockCallRecorder_CallsFor.
  assert (Hgen : forall out,
    foldl (fun out c => if String.eqb (Method c) method then out ++ [c] else out)
          out calls = out ++ List.filter (called method) calls).
  { induction calls as [|c calls IH]; intros out; simpl; [by rewrite app_nil_r|].
    rewrite IH. unfold called at 2. destruct (String.eqb (Method c) method); [|done].
    by rewrite <- app_assoc. }
  apply (Hgen []).
Qed.

Lemma CallCount_filter method calls :
  MockCallRecorder_CallCount method calls = length (List.filter (called method) calls).
Proof.
  unfold MockCallRecorder_CallCount.
  assert (Hgen : forall n,
    foldl (fun n c => if String.eqb (Method c) method then n + 1 else n) n calls
    = n + length (List.filter (called method) calls)).
  { induction calls as [|c calls IH]; intros n; simpl; [lia|].
    rewrite IH. unfold called at 2. destruct (String.eqb (Method c) method); simpl; lia. }
  apply (Hgen 0).
Qed.

Lemma record_all_app ops calls :
  record_all ops calls = calls ++ map (fun op => mkMockCall (fst op) (snd op)) ops.
Proof.
  revert calls. induction ops as [|op ops IH]; intros calls; simpl.
  { by rewrite app_nil_r. }
  unfold record_all in *. simpl. rewrite IH. unfold MockCallRecorder_Record.
  by rewrite <- app_assoc.
Qed.

(** X24 [MockCallRecorder]: after a reset and any run of [Record] calls,
    [Calls] returns exactly the recorded calls, in the order they were
    made; [CallsFor] returns those of them made for the method, in order;
    [CallCount] is the number of calls [CallsFor] returns, for every
    recorder; one more [Record] raises the count of its method by one and
    leaves every other count; a reset brings every count to zero. *)
Theorem MockCallRecorder_history (ops : list (string * Args)) (method : string)
    (calls : MockCallRecorder) :
  let r := record_all ops (MockCallRecorder_Reset calls) in
  MockCallRecorder_Calls r = map (fun op => mkMockCall (fst op) (snd op)) ops /\
  MockCallRecorder_CallsFor method r =
    List.filter (called method) (MockCallRecorder_Calls r) /\
  MockCallRecorder_CallCount method calls =
    length (MockCallRecorder_CallsFor method calls) /\
  (forall method' args,
     MockCallRecorder_CallCount method (MockCallRecorder_Record method' args calls) =
     MockCallRecorder_CallCount method calls +
     (if String.eqb method' method then 1 else 0)) /\
  MockCallRecorder_CallCount method (MockCallRecorder_Reset calls) = 0.
Proof.
  intros r. subst r. unfold MockCallRecorder_Reset, MockCallRecorder_Calls.
  rewrite record_all_app. simpl. split; [done|]. split; [apply CallsFor_filter|].
  split; [by rewrite CallCount_filter, CallsFor_filter|]. split; [|done].
  intros method' args. rewrite !CallCount_filter. unfold MockCallRecorder_Record.
  rewrite List.filter_app, length_app. simpl. unfold called at 2. simpl.
  by destruct (String.eqb method' method).
Qed.

(** X25 [AssertCalled], [AssertNotCalled], [AssertCalledN]: each returns
    and never stops the test; [AssertCalled] reports nothing exactly when
    the count of the method is not zero, [AssertNotCalled] exactly when it
    is zero, so exactly one of the two reports; [AssertCalledN] reports
    nothing exactly when its number is the count (never for a negative
    number); and once a call of the method has been recorded,
    [AssertCalled] reports nothing whatever else is recorded after it. *)
Theorem mock_assertions t (r : MockCallRecorder) (method : string) (n : Z) w :
  fst (AssertCalled t r method w) = Returned () /\
  fst (AssertNotCalled t r method w) = Returned () /\
  fst (AssertCalledN t r method n w) = Returned () /\
  (snd (AssertCalled t r method w) = w <->
   MockCallRecorder_CallCount method r <> 0) /\
  (snd (AssertNotCalled t r method w) = w <->
   MockCallRecorder_CallCount method r = 0) /\
  (snd (AssertCalledN t r method n w) = w <->
   n = Z.of_nat (MockCallRecorder_CallCount method r)) /\
  (forall args ops,
     snd (AssertCalled t (record_all ops (MockCallRecorder_Record method args r))
            method w) = w).
Proof.
  assert (Hcalled : forall r', snd (AssertCalled t r' method w) = w <->
                               MockCallRecorder_CallCount method r' <> 0).
  { intros r'. unfold AssertCalled, mbind, M_bind, t_Helper, t_Errorf, mret, M_ret.
    destruct (Nat.eqb_spec (MockCallRecorder_CallCount method r') 0) as [->|Hne];
      simpl; [|done].
    split; [by intros ?%add_report_ne|done]. }
  split; [|split; [|split; [|split; [apply Hcalled|split; [|split]]]]].
  - unfold AssertCalled, mbind, M_bind, t_Helper, t_Errorf, mret, M_ret.
    by destruct (_ =? 0).
  - unfold AssertNotCalled, mbind, M_bind, t_Helper, t_Errorf, mret, M_ret.
    cbv zeta. by destruct (0 <? _).
  - unfold AssertCalledN, mbind, M_bind, t_Helper, t_Errorf, mret, M_ret.
    cbv zeta. by destruct (negb _).
  - unfold AssertNotCalled, mbind, M_bind, t_Helper, t_Errorf, mret, M_ret.
    cbv zeta. destruct (Nat.ltb_spec 0 (MockCallRecorder_CallCount method r)); simpl.
    + split; [by intros ?%add_report_ne|lia].
    + split; [lia|done].
  - unfold AssertCalledN, mbind, M_bind, t_Helper, t_Errorf, mret, M_ret.
    cbv zeta.
    destruct (Z.eqb_spec (Z.of_nat (MockCallRecorder_CallCount method r)) n); simpl.
    + done.
    + split; [by intros ?%add_report_ne|]. intros ->. done.
  - intros args ops. apply Hcalled.
    rewrite record_all_app, CallCount_filter. unfold MockCallRecorder_Record.
    rewrite !List.filter_app, !length_app. simpl. unfold called at 2. simpl.
    rewrite String.eqb_refl. simpl. lia.
Qed.
End Mock.

(** Canned responses.  [Data] is a [[]byte] and [Error] an [error]; either
    can be nil ([None]). *)
Section Responses.
Context {Bytes Err : Type}.

Record MockResponse := mkMockResponse {
  resp_Data : option Bytes;
  resp_Error : option Err;
}.

(** The field [responses] of a [MockResponseMap]. *)
Definition MockResponseMap := gmap string MockResponse.

Definition NewMockResponseMap : MockResponseMap := ∅.

Definition MockResponseMap_Set (key : string) (data : option Bytes)
    (err : option Err) (m : MockResponseMap) : MockResponseMap :=
  <[key := mkMockResponse data err]> m.

Definition MockResponseMap_Get (key : string) (m : MockResponseMap)
  : option Bytes * option Err :=
  match m !! key with
  | None => (None, None)
  | Some resp => (resp_Data resp, resp_Error resp)
  end.

Definition MockResponseMap_SetError (key : string) (err : option Err)
    (m : MockResponseMap) : MockResponseMap :=
  MockResponseMap_Set key None err m.

(** X26 [MockResponseMap]: [Get] returns what the last [Set] for the key
    stored, data and error; a [Set] for one key leaves the answer for
    every other key; a key never set answers (nil, nil), which is also the
    answer after [Set(key, nil, nil)], so [Get] cannot tell the two apart;
    [SetError] stores the error with nil data, replacing data stored
    before. *)
Theorem MockResponseMap_laws (key key' : string) (data data' : option Bytes)
    (err err' : option Err) (m : MockResponseMap) :
  MockResponseMap_Get key (MockResponseMap_Set key data err m) = (data, err) /\
  MockResponseMap_Set key data err (MockResponseMap_Set key data' err' m)
    = MockResponseMap_Set key data err m /\
  (key <> key' ->
   MockResponseMap_Get key' (MockResponseMap_Set key data err m)
     = MockResponseMap_Get key' m) /\
  MockResponseMap_Get key NewMockResponseMap = (None, None) /\
  MockResponseMap_Get key (MockResponseMap_Set key None None m)
    = MockResponseMap_Get key NewMockResponseMap /\
  MockResponseMap_Get key
    (MockResponseMap_SetError key err (MockResponseMap_Set key data' err' m))
    = (None, err).
Proof.
  unfold MockResponseMap_SetError, MockResponseMap_Get, MockResponseMap_Set,
    NewMockResponseMap, MockResponseMap in *.
  rewrite !lookup_insert_eq, insert_insert_eq, lookup_empty. simpl.
  repeat split. intros Hne. by rewrite lookup_insert_ne.
Qed.
End Responses.

(** * Reducer helpers (reducer.go)

    A reducer is a pure function of a state and an action.  An invariant's
    [Check] returns an [error], here its text, or nil ([None]). *)

Record Invariant (St : Type) := mkInvariant {
  inv_Name : string;
  inv_Check : St -> option string;
}.
Arguments mkInvariant {St} inv_Name inv_Check.
Arguments inv_Name {St} i.
Arguments inv_Check {St} i s.

(** The field [invariants] of an [InvariantChecker]. *)
Definition InvariantChecker (St : Type) := list (Invariant St).

Definition NewInvariantChecker {St} (invariants : list (Invariant St))
  : InvariantChecker St := invariants.

Definition msg_violated (name err : string) : string :=
  "invariant " +:+ strconv_Quote name +:+ " violated: " +:+ err.

Fixpoint InvariantChecker_Check {St} (ic : InvariantChecker St) (s : St)
  : option string :=
  match ic with
  | [] => None
  | inv :: rest =>
      match inv_Check inv s with
      | Some err => Some (msg_violated (inv_Name inv) err)
      | None => InvariantChecker_Check rest s
      end
  end.

Definition msg_check_failed (err : string) : string :=
  "invariant check failed after reduce: " +:+ err.

Definition WrapWithInvariants {St A} (t : testing_T) (reduce : St -> A -> St)
    (checker : InvariantChecker St) : St -> A -> M St :=
  fun s a =>
    let result := reduce s a in
    match InvariantChecker_Check checker result with
    | Some err => t_Fatalf t (msg_check_failed err)
    | None => mret ()
    end;;
    mret result.

(** A test's loop [state = reduce(state, action)] over a run of actions,
    for a reducer that may stop the test. *)
Fixpoint reduce_all {St A} (reduce : St -> A -> M St) (state : St)
    (actions : list A) : M St :=
  match actions with
  | [] => mret state
  | a :: rest => state' ← reduce state a; reduce_all reduce state' rest
  end.

(** X27 [InvariantChecker.Check]: the result is nil exactly when every
    invariant accepts the state; otherwise it is the error of the first
    invariant, in the order given to [NewInvariantChecker], that rejects
    the state, under that invariant's name; invariants after it are not
    reported. *)
Theorem InvariantChecker_Check_first {St} (invariants : list (Invariant St))
    (s : St) :
  let ic := NewInvariantChecker invariants in
  (InvariantChecker_Check ic s = None <->
   Forall (fun inv => inv_Check inv s = None) invariants) /\
  (forall e, InvariantChecker_Check ic s = Some e ->
   exists passed inv rest err,
     invariants = passed ++ inv :: rest /\
     Forall (fun inv => inv_Check inv s = None) passed /\
     inv_Check inv s = Some err /\
     e = msg_violated (inv_Name inv) err).
Proof.
  unfold NewInvariantChecker. cbv zeta. split.
  - induction invariants as [|inv rest IH]; simpl; [done|].
    destruct (inv_Check inv s) as [err|] eqn:Hc.
    + split; [done|]. intros Hall. inversion Hall; congruence.
    + rewrite IH. split; [by constructor|]. intros Hall. by inversion Hall.
  - induction invariants as [|inv rest IH]; simpl; [done|]. intros e.
    destruct (inv_Check inv s) as [err|] eqn:Hc.
    + intros [= <-]. by exists [], inv, rest, err.
    + intros (passed & inv' & rest' & err & -> & Hp & Hr & ->)%IH.
      exists (inv :: passed), inv', rest', err. repeat split; [|done]. by constructor.
Qed.

(** X28 [WrapWithInvariants]: the wrapped reducer computes what the reducer
    computes and stops the test, with one [Fatalf], at the first state that
    violates an invariant.  So when a run of actions through the wrapped
    reducer returns, its result is the result of the plain reducer, nothing
    was reported, and every state on the way satisfied every invariant;
    and when it does not return, the invariants held up to some step, were
    violated by the state after it, and that violation is the one report.
    The wrapped reducer never panics. *)
Theorem WrapWithInvariants_guards {St A} t (reduce : St -> A -> St)
    (checker : InvariantChecker St) (s : St) (actions : list A) w :
  let wrapped := WrapWithInvariants t reduce checker in
  let state_after n := foldl reduce s (take n actions) in
  match reduce_all wrapped s actions w with
  | (Returned s', w') =>
      s' = foldl reduce s actions /\ w' = w /\
      forall n, 0 < n <= length actions ->
        InvariantChecker_Check checker (state_after n) = None
  | (FailNow, w') =>
      exists n err,
        n < length actions /\
        (forall k, 0 < k <= n ->
           InvariantChecker_Check checker (state_after k) = None) /\
        InvariantChecker_Check checker (state_after (S n)) = Some err /\
        w' = add_report t (Fatalf (msg_check_failed err)) w
  | (Panicked _, _) => False
  end.
Proof.
  cbv zeta. revert s. induction actions as [|a actions IH]; intros s; simpl.
  { unfold mret, M_ret. repeat split. intros n Hn. simpl in Hn. lia. }
  unfold mbind, M_bind, WrapWithInvariants at 1. cbv zeta.
  unfold mbind, M_bind, mret, M_ret, t_Fatalf.
  destruct (InvariantChecker_Check checker (reduce s a)) as [err|] eqn:Hc.
  - exists 0, err. simpl. repeat split; [lia| |done]. intros k Hk. lia.
  - specialize (IH (reduce s a)).
    destruct (reduce_all (WrapWithInvariants t reduce checker) (reduce s a) actions w)
      as [[s'| |msg] w']; [| |done].
    + destruct IH as (-> & -> & Hall). repeat split.
      intros [|n] Hn; [lia|]. simpl. destruct n as [|n]; [by rewrite take_0|].
      apply (Hall (S n)). simpl in *. lia.
    + destruct IH as (n & err & Hn & Hall & Hbad & ->).
      exists (S n), err. simpl. repeat split; [lia| |done].
      intros [|k] Hk; [lia|]. simpl. destruct k as [|k]; [by rewrite take_0|].
      apply (Hall (S k)). lia.
Qed.
